(** * latestgames-backend: the enrichment pipeline of [fix_orphans_and_enrich.py]

    A shallow embedding of the RAWG transport client, the image URL
    normaliser, the resource crawlers, the upsert layer over the SQLite
    store, the completeness oracle and the controller, together with the
    properties the specification states about them.

    Conventions of the embedding.
    - Python [str] is [string], read as the sequence of its code points:
      the embedding covers text of code points below 256, and the string
      operations are Python's on that range.  [None] is the [None] of
      [option]; a missing dictionary key and a key bound to [None] are
      both [None], because the source reads every field through
      [dict.get].
    - RAWG's JSON records are Rocq records, one per shape the source
      documents in its comments; [x or None], [x or {}] and [if x:] follow
      Python's truthiness ([None], [""] and [0] are falsy).
    - A table is the list of its rows in insertion order.  The surrogate
      [id INTEGER PRIMARY KEY AUTOINCREMENT] columns are never read or
      written by the pipeline and are left out of the rows.
    - The store is one that [db_prepare_BEFORE.py] prepared and
      [ensure_schema] completed.  [ensure_schema] creates no [games]
      table; the prepare scripts do, and with it the lookup, list and link
      tables, so that the [CREATE TABLE IF NOT EXISTS] of [ensure_schema]
      leaves those as the prepare script made them and adds [media],
      [stores], [game_stores] and [game_suggestions].
    - An exception that leaves a function is the [Raise] of [result]. *)

From Stdlib Require Import String Ascii List ZArith Lia Bool Arith.
From Stdlib Require Import Floats DecimalString.
Import ListNotations.

Open Scope string_scope.
Open Scope list_scope.

(* ================================================================== *)
(** ** Python string operations used by the source *)
(* ================================================================== *)

Module PyStr.

(** [s.startswith(p)] *)
Fixpoint startswith (p s : string) : bool :=
  match p, s with
  | EmptyString, _ => true
  | String _ _, EmptyString => false
  | String a p', String b s' => Ascii.eqb a b && startswith p' s'
  end.

(** [sub in s] *)
Fixpoint contains (sub s : string) : bool :=
  startswith sub s ||
  match s with
  | EmptyString => false
  | String _ s' => contains sub s'
  end.

(** [s[n:]] *)
Fixpoint drop (n : nat) (s : string) : string :=
  match n, s with
  | O, _ => s
  | S _, EmptyString => EmptyString
  | S n', String _ s' => drop n' s'
  end.

(** [s.split(sep, 1)] when [sep] occurs in [s]: the text before the first
    occurrence and the text after it; [None] when [sep] does not occur
    (Python then returns the one-element list [[s]]). *)
Fixpoint split_first (sep s : string) : option (string * string) :=
  if startswith sep s then Some (EmptyString, drop (String.length sep) s)
  else match s with
       | EmptyString => None
       | String c s' =>
           match split_first sep s' with
           | Some (before, after) => Some (String c before, after)
           | None => None
           end
       end.

(** [s.split(c)] for a one-character separator, as its first piece and the
    remaining pieces: Python's result is never the empty list. *)
Fixpoint split_pieces (c : ascii) (s : string) : string * list string :=
  match s with
  | EmptyString => (EmptyString, [])
  | String a s' =>
      let (p, ps) := split_pieces c s' in
      if Ascii.eqb a c then (EmptyString, p :: ps) else (String a p, ps)
  end.

Definition split (c : ascii) (s : string) : list string :=
  let (p, ps) := split_pieces c s in p :: ps.

(** [sep.join(l)] *)
Fixpoint join (sep : string) (l : list string) : string :=
  match l with
  | [] => EmptyString
  | x :: l' =>
      match l' with
      | [] => x
      | _ :: _ => (x ++ sep ++ join sep l')%string
      end
  end.

(** [l.index(x)]; [None] stands for [ValueError]. *)
Fixpoint index (x : string) (l : list string) : option nat :=
  match l with
  | [] => None
  | y :: l' => if String.eqb y x then Some O
               else match index x l' with
                    | Some i => Some (S i)
                    | None => None
                    end
  end.

(** The white space of [str.strip] and [str.split] among the code
    points below 256: TAB, LF, VT, FF, CR, FS, GS, RS, US, the space,
    NEL (U+0085) and the no-break space (U+00A0). *)
Definition isspace (a : ascii) : bool :=
  let n := nat_of_ascii a in
  (((9 <=? n) && (n <=? 13)) || ((28 <=? n) && (n <=? 32))
   || (n =? 133) || (n =? 160))%nat.

Fixpoint lstrip (s : string) : string :=
  match s with
  | EmptyString => EmptyString
  | String a s' => if isspace a then lstrip s' else s
  end.

(** [s.rstrip()]: a character is kept when it is not a space or when
    something is kept after it. *)
Fixpoint rstrip (s : string) : string :=
  match s with
  | EmptyString => EmptyString
  | String a s' =>
      match rstrip s' with
      | EmptyString => if isspace a then EmptyString else String a EmptyString
      | r => String a r
      end
  end.

(** [s.strip()] *)
Definition strip (s : string) : string := rstrip (lstrip s).

(** [s.rstrip("/")] *)
Fixpoint rstrip_char (c : ascii) (s : string) : string :=
  match s with
  | EmptyString => EmptyString
  | String a s' =>
      match rstrip_char c s' with
      | EmptyString => if Ascii.eqb a c then EmptyString else String a EmptyString
      | r => String a r
      end
  end.

(** Truthiness of a string and of an optional string. *)
Definition truthy (s : string) : bool := negb (String.eqb s EmptyString).

Definition truthy_opt (o : option string) : bool :=
  match o with
  | Some s => truthy s
  | None => false
  end.

(** [x or None] at an optional string *)
Definition or_none (o : option string) : option string :=
  if truthy_opt o then o else None.

End PyStr.

(* ================================================================== *)
(** ** Image URL normaliser *)
(* ================================================================== *)

Definition MEDIA_PREFIX : string := "https://media.rawg.io/media/".

(** The body of [normalize_rawg_image] after [tail] has been cut out:
    the [crop]/[resize] test, [parts.index("games")] with its
    [ValueError] handler, and the re-joined tail. *)
Definition strip_transform (tail : string) : string :=
  let parts := PyStr.split "/"%char tail in
  match parts with
  | p0 :: _ =>
      if String.eqb p0 "crop" || String.eqb p0 "resize" then
        match PyStr.index "games" parts with
        | Some gi => PyStr.join "/" (skipn gi parts)
        | None => PyStr.join "/" parts
        end
      else tail
  | [] => tail
  end.

(** [normalize_rawg_image].  [url.split("/media/", 1)[1]] raises
    [IndexError] when ["/media/"] does not occur; that branch is dead
    behind the [MEDIA_PREFIX not in url] guard (lemma
    [split_first_media_defined]) and returns [url] here. *)
Definition normalize_rawg_image (url : option string) : option string :=
  match url with
  | None => None
  | Some u =>
      if negb (PyStr.truthy u) || negb (PyStr.contains MEDIA_PREFIX u) then url
      else match PyStr.split_first "/media/" u with
           | Some (_, tail) => Some (MEDIA_PREFIX ++ strip_transform tail)%string
           | None => url
           end
  end.

(* ================================================================== *)
(** ** Metascore colour *)
(* ================================================================== *)

(** [metascore_color].  The argument is [Optional[int]], so [int(score)]
    is the identity and its [except] branch is not taken. *)
Definition metascore_color (score : option Z) : option string :=
  match score with
  | None => None
  | Some s =>
      if ((75 <=? s) && (s <=? 100))%Z then Some "green"
      else if ((50 <=? s) && (s <=? 74))%Z then Some "yellow"
      else if ((0 <=? s) && (s <=? 49))%Z then Some "red"
      else None
  end.

(* ================================================================== *)
(** ** Python truthiness and small helpers *)
(* ================================================================== *)

(** [str(gid)] *)
Definition str_of_Z (z : Z) : string := NilZero.string_of_int (Z.to_int z).

(** Truthiness of an optional integer and of an optional float. *)
Definition truthy_int (o : option Z) : bool :=
  match o with
  | Some z => negb (z =? 0)%Z
  | None => false
  end.

Definition truthy_float (o : option float) : bool :=
  match o with
  | Some x => negb (PrimFloat.eqb x 0%float)
  | None => false
  end.

(** SQL [COALESCE(x, y)] *)
Definition COALESCE {A : Type} (x y : option A) : option A :=
  match x with
  | Some _ => x
  | None => y
  end.

(* ================================================================== *)
(** ** RAWG records *)
(* ================================================================== *)

(** [{"name": ...}]: an entry of [developers], [publishers] or [tags]. *)
Record named := { nm_name : option string }.

(** [{"id": 51, "name": "Indie"}] *)
Record genre_obj := { gn_id : option Z; gn_name : option string }.

(** [{"platform": {"id": 4, "name": "PC"}}] *)
Record platform_obj := { pf_id : option Z; pf_name : option string }.
Record platform_entry := { pe_platform : option platform_obj }.

(** [{"id": 123, "url": ..., "store": {"id": 1, "name": ..., "slug": ...,
    "domain": ...}}] *)
Record store_obj := {
  so_id : option Z;
  so_name : option string;
  so_slug : option string;
  so_domain : option string
}.
Record store_entry := {
  se_id : option Z;
  se_url : option string;
  se_store : option store_obj
}.

Record short_screenshot := { ss_image : option string }.
Record esrb_rating := { esrb_name : option string }.

(** The game details of [/games/{id}]. *)
Record details := {
  d_id : Z;
  d_slug : option string;
  d_name : option string;
  d_released : option string;
  d_rating : option float;
  d_metacritic : option Z;
  d_description_raw : option string;
  d_website : option string;
  d_esrb_rating : option esrb_rating;
  d_background_image : option string;
  d_background_image_additional : option string;
  d_short_screenshots : list (option short_screenshot);
  d_developers : list named;
  d_publishers : list named;
  d_tags : list named;
  d_genres : list genre_obj;
  d_platforms : list platform_entry;
  d_stores : list store_entry
}.

(** The envelope of a list sub-resource: [results] and [next]. *)
Record page (A : Type) := { results : list A; next : option string }.
Arguments results {A} _.
Arguments next {A} _.

(** An entry of [/screenshots]. *)
Record shot_item := {
  sh_image : option string;
  sh_width : option Z;
  sh_height : option Z
}.

(** An entry of [/movies]. *)
Record movie_data := { md_max : option string; md_480 : option string }.
Record movie_item := {
  mv_data : option movie_data;
  mv_preview : option string;
  mv_name : option string
}.

(** An entry of [/game-series] or [/additions]. *)
Record related_item := { rl_name : option string; rl_slug : option string }.

(** An entry of [/suggested]. *)
Record suggested_item := {
  sg_id : option Z;
  sg_name : option string;
  sg_background_image : option string;
  sg_released : option string;
  sg_metacritic : option Z;
  sg_platforms : list platform_entry;
  sg_genres : list genre_obj
}.

(* ================================================================== *)
(** ** Transport client *)
(* ================================================================== *)

(** What keeps [requests.get] from handing back a response. *)
Inductive transport_error := ConnectionError | Timeout.

(** The exceptions that leave a function of the script: the
    [HTTPError] of [r.raise_for_status()], the exception of a
    [requests.get] that got no response, and the [TypeError] of a
    subscript on [None]. *)
Inductive exn :=
| HTTPError (status : Z)
| RequestException (t : transport_error)
| TypeError.

Inductive result (A : Type) :=
| Ok (a : A)
| Raise (e : exn).
Arguments Ok {A} _.
Arguments Raise {A} _.

(** What [requests.get] hands back: the status code and the parsed body,
    [None] when [r.json()] raises. *)
Record response (A : Type) := { status_code : Z; json : option A }.
Arguments status_code {A} _.
Arguments json {A} _.

(** One call of [requests.get]: it hands back a response, or it raises
    because none arrived. *)
Inductive outcome (A : Type) :=
| Answered (r : response A)
| Unanswered (t : transport_error).
Arguments Answered {A} _.
Arguments Unanswered {A} _.

(** A server that answers every request. *)
Definition answering {A : Type} (serve : nat -> response A) (attempt : nat) : outcome A :=
  Answered (serve attempt).

Definition RETRY_429_SLEEP : Z := 60.

(** What one call of [_rawg_get] does to the outside world. *)
Inductive effect :=
| Get (attempt : nat)
| Sleep (seconds : Z).

(** [r.raise_for_status()] raises for the 4xx and 5xx statuses. *)
Definition raises_for_status (status : Z) : bool :=
  ((400 <=? status) && (status <? 600))%Z.

(** The [for attempt in range(attempt, attempt + remaining)] loop of
    [_rawg_get]; [serve k] is what the [k]-th [requests.get] does.  The
    call stands outside any [try], so its exception leaves the loop. *)
Fixpoint rawg_get_loop {A : Type} (serve : nat -> outcome A)
    (attempt remaining : nat) : result (option A) * list effect :=
  match remaining with
  | O => (Ok None, [])
  | S remaining' =>
      match serve attempt with
      | Unanswered t => (Raise (RequestException t), [Get attempt])
      | Answered r =>
          let s := status_code r in
          if (s =? 200)%Z then (Ok (json r), [Get attempt])
          else if (s =? 404)%Z then (Ok None, [Get attempt])
          else if (s =? 429)%Z then
            let (res, tr) := rawg_get_loop serve (S attempt) remaining' in
            (res, Get attempt :: Sleep RETRY_429_SLEEP :: tr)
          else if ((s =? 500) || (s =? 502) || (s =? 503) || (s =? 504))%Z then
            let (res, tr) := rawg_get_loop serve (S attempt) remaining' in
            (res, Get attempt :: Sleep (2 * Z.of_nat attempt) :: tr)
          else if raises_for_status s then (Raise (HTTPError s), [Get attempt])
          else
            let (res, tr) := rawg_get_loop serve (S attempt) remaining' in
            (res, Get attempt :: tr)
      end
  end.

(** [_rawg_get(url, params)] with its default [max_retries=3], together
    with the requests it sent and the sleeps it took. *)
Definition _rawg_get_trace {A : Type} (serve : nat -> outcome A)
  : result (option A) * list effect :=
  rawg_get_loop serve 1 3.

Definition _rawg_get {A : Type} (serve : nat -> outcome A) : result (option A) :=
  fst (_rawg_get_trace serve).

Definition is_get (e : effect) : bool :=
  match e with
  | Get _ => true
  | Sleep _ => false
  end.

(** Number of HTTP requests in a trace. *)
Definition requests (tr : list effect) : nat := length (filter is_get tr).

(** The upstream API: for each endpoint and item, what the [k]-th
    attempt of one [_rawg_get] call meets.  The same function answers
    every run: it is the upstream snapshot. *)
Record upstream := {
  up_details : Z -> nat -> outcome details;
  up_screenshots : Z -> Z -> nat -> outcome (page shot_item);
  up_movies : Z -> nat -> outcome (page movie_item);
  up_series : Z -> nat -> outcome (page related_item);
  up_additions : Z -> nat -> outcome (page related_item);
  up_suggested : Z -> nat -> outcome (page suggested_item)
}.

(** [j = _rawg_get(...) or {}] followed by [j.get("results", []) or []]. *)
Definition results_or_empty {A : Type} (j : option (page A)) : list A :=
  match j with
  | Some p => results p
  | None => []
  end.

Definition next_of {A : Type} (j : option (page A)) : option string :=
  match j with
  | Some p => next p
  | None => None
  end.

(* ================================================================== *)
(** ** Resource crawlers *)
(* ================================================================== *)

(** [choose_cover_from] *)
Fixpoint first_short_image (l : list (option short_screenshot)) : option string :=
  match l with
  | [] => None
  | s :: l' =>
      let img := match s with
                 | Some x => ss_image x
                 | None => None
                 end in
      if PyStr.truthy_opt img then normalize_rawg_image img
      else first_short_image l'
  end.

Definition choose_cover_from (d : details) : option string :=
  if PyStr.truthy_opt (d_background_image d)
  then normalize_rawg_image (d_background_image d)
  else if PyStr.truthy_opt (d_background_image_additional d)
  then normalize_rawg_image (d_background_image_additional d)
  else first_short_image (d_short_screenshots d).

(** [fetch_details] *)
Definition fetch_details (up : upstream) (game_id : Z) : result (option details) :=
  _rawg_get (up_details up game_id).

(** A screenshot as [fetch_all_screenshots] returns it. *)
Record image_rec := {
  im_image : option string;
  im_width : option Z;
  im_height : option Z
}.

(** The [for item in results] loop of [fetch_all_screenshots]; the flag
    tells that the loop left through [return out]. *)
Fixpoint collect_page (res : list shot_item) (out : list image_rec)
    (max_images : Z) : list image_rec * bool :=
  match res with
  | [] => (out, false)
  | item :: rest =>
      if negb (PyStr.truthy_opt (sh_image item)) then
        collect_page rest out max_images
      else
        let out' := out ++ [ {| im_image := normalize_rawg_image (sh_image item);
                                im_width := sh_width item;
                                im_height := sh_height item |} ] in
        if (Z.of_nat (length out') >=? max_images)%Z then (out', true)
        else collect_page rest out' max_images
  end.

(** The [while True] loop of [fetch_all_screenshots], with the number of
    HTTP requests sent so far.  [None]: the loop is still running when
    the fuel is used up. *)
Fixpoint screenshots_loop (fuel : nat) (serve : Z -> nat -> outcome (page shot_item))
    (max_images : Z) (pg : Z) (out : list image_rec) (sent : nat)
  : option (result (list image_rec) * nat) :=
  match fuel with
  | O => None
  | S fuel' =>
      let (r, tr) := _rawg_get_trace (serve pg) in
      let sent' := (sent + requests tr)%nat in
      match r with
      | Raise e => Some (Raise e, sent')
      | Ok j =>
          let (out', returned) := collect_page (results_or_empty j) out max_images in
          if returned then Some (Ok out', sent')
          else if negb (PyStr.truthy_opt (next_of j)) then Some (Ok out', sent')
          else screenshots_loop fuel' serve max_images (pg + 1)%Z out' sent'
      end
  end.

Definition fetch_all_screenshots_counting (fuel : nat) (up : upstream)
    (game_id : Z) (max_images : Z) : option (result (list image_rec) * nat) :=
  screenshots_loop fuel (up_screenshots up game_id) max_images 1%Z [] O.

(** [fetch_all_screenshots] *)
Definition fetch_all_screenshots (fuel : nat) (up : upstream)
    (game_id : Z) (max_images : Z) : option (result (list image_rec)) :=
  option_map fst (fetch_all_screenshots_counting fuel up game_id max_images).

(** A video as [fetch_movies] returns it. *)
Record movie_rec := {
  mo_url : string;
  mo_preview : option string;
  mo_name : option string
}.

Definition movie_url (item : movie_item) : option string :=
  match mv_data item with
  | Some data => if PyStr.truthy_opt (md_max data) then md_max data else md_480 data
  | None => None
  end.

Fixpoint movies_of (res : list movie_item) : list movie_rec :=
  match res with
  | [] => []
  | item :: rest =>
      match movie_url item with
      | Some url =>
          if PyStr.truthy url
          then {| mo_url := url; mo_preview := mv_preview item; mo_name := mv_name item |}
               :: movies_of rest
          else movies_of rest
      | None => movies_of rest
      end
  end.

(** [fetch_movies] *)
Definition fetch_movies (up : upstream) (game_id : Z) : result (list movie_rec) :=
  match _rawg_get (up_movies up game_id) with
  | Raise e => Raise e
  | Ok j => Ok (movies_of (results_or_empty j))
  end.

(** A candidate as [fetch_suggestions] returns it. *)
Record suggestion := {
  su_id : option Z;
  su_name : option string;
  su_image : option string;
  su_released : option string;
  su_metacritic : option Z;
  su_platforms : list (option string);
  su_genres : list string
}.

Definition platform_name (p : platform_entry) : option string :=
  match pe_platform p with
  | Some pl => pf_name pl
  | None => None
  end.

Fixpoint truthy_names (l : list (option string)) : list string :=
  match l with
  | [] => []
  | Some s :: l' => if PyStr.truthy s then s :: truthy_names l' else truthy_names l'
  | None :: l' => truthy_names l'
  end.

Definition suggestion_of (item : suggested_item) : suggestion :=
  {| su_id := sg_id item;
     su_name := sg_name item;
     su_image := normalize_rawg_image (sg_background_image item);
     su_released := sg_released item;
     su_metacritic := sg_metacritic item;
     su_platforms := map platform_name (sg_platforms item);
     su_genres := truthy_names (map gn_name (sg_genres item)) |}.

(** [fetch_suggestions] *)
Definition fetch_suggestions (up : upstream) (game_id : Z) (limit : nat)
  : result (list suggestion) :=
  match _rawg_get (up_suggested up game_id) with
  | Raise e => Raise e
  | Ok j => Ok (map suggestion_of (firstn limit (results_or_empty j)))
  end.

(* ================================================================== *)
(** ** The relational store *)
(* ================================================================== *)

(** A row of [games]: [id INTEGER PRIMARY KEY] and the nullable columns. *)
Record game_row := {
  g_id : Z;
  g_slug : option string;
  g_name : option string;
  g_released : option string;
  g_rating : option float;
  g_description : option string;
  g_website : option string;
  g_age_rating : option string;
  g_cover_image : option string;
  g_metascore_number : option Z;
  g_metascore_color : option string
}.

Inductive media_type := image | video.

(** A row of [media]; [UNIQUE(game_id, type, url)]. *)
Record media_row := {
  m_game_id : Z;
  m_type : media_type;
  m_url : string;
  m_preview_url : option string;
  m_position : Z
}.

(** A row of [stores]; [id] is the primary key and [slug] is unique. *)
Record store_row := {
  st_id : Z;
  st_name : option string;
  st_slug : option string;
  st_domain : option string;
  st_logo_url : option string;
  st_hover_image_url : option string
}.

(** A row of [game_suggestions]; [UNIQUE(game_id, position)]. *)
Record suggestion_row := {
  sr_game_id : Z;
  sr_position : Z;
  sr_suggested_id : option Z;
  sr_name : option string;
  sr_image_url : option string;
  sr_platforms_csv : option string;
  sr_metascore_number : option Z;
  sr_metascore_color : option string;
  sr_released : option string;
  sr_genres_csv : option string
}.

(** The tables the pipeline reads and writes. *)
Record db := {
  games : list game_row;
  game_developers : list (Z * string);
  game_publishers : list (Z * string);
  game_tags : list (Z * string);
  game_series_links : list (Z * string * string);
  game_additions_links : list (Z * string * string);
  screenshots : list (Z * string);
  genres : list (Z * option string);
  game_genres : list (Z * Z);
  platforms : list (Z * option string);
  game_platforms : list (Z * Z);
  media : list media_row;
  stores : list store_row;
  game_stores : list (Z * Z * option string);
  game_suggestions : list suggestion_row
}.

(** *** Insert statements *)

(** [INSERT OR IGNORE]: the row is skipped when it conflicts with a stored
    row on the primary key or on a unique index. *)
Definition insert_or_ignore {R : Type} (conflict : R -> R -> bool)
    (r : R) (t : list R) : list R :=
  if existsb (conflict r) t then t else t ++ [r].

(** [cur.executemany("INSERT OR IGNORE ...", rows)] *)
Definition executemany_ignore {R : Type} (conflict : R -> R -> bool)
    (rows : list R) (t : list R) : list R :=
  fold_left (fun t' r => insert_or_ignore conflict r t') rows t.

(** [INSERT OR REPLACE]: the stored rows the new row conflicts with are
    deleted, then the row is inserted. *)
Definition insert_or_replace {R : Type} (conflict : R -> R -> bool)
    (r : R) (t : list R) : list R :=
  filter (fun x => negb (conflict r x)) t ++ [r].

Definition executemany_replace {R : Type} (conflict : R -> R -> bool)
    (rows : list R) (t : list R) : list R :=
  fold_left (fun t' r => insert_or_replace conflict r t') rows t.

(** SQL equality of two nullable values inside a unique index: [NULL]
    conflicts with nothing. *)
Definition sql_eq_str (a b : option string) : bool :=
  match a, b with
  | Some x, Some y => String.eqb x y
  | _, _ => false
  end.

(** *** Uniqueness of each table

    The keys are those of the store as it is when the pipeline runs.
    [games], the lookup tables [genres] and [platforms], the list
    tables and the two link tables [game_series_links] and
    [game_additions_links] exist before [ensure_schema] runs:
    [db_prepare.py] and [db_prepare_BEFORE.py] create them, the lookup
    tables as [(id INTEGER PRIMARY KEY, name TEXT)] and the link tables
    as [(id INTEGER PRIMARY KEY AUTOINCREMENT, game_id, name, url)].  The
    [name TEXT UNIQUE] and the [PRIMARY KEY (game_id, name, url)] that
    [ensure_schema] declares for them are never applied.  The list tables
    have the columns and the key of [db_prepare_BEFORE.py], which are
    those of [ensure_schema]; a store of [db_prepare.py], whose list
    tables have a [developer_id], [publisher_id] or [tag_id] column
    instead of the name, is outside the embedding. *)

Definition same_game (a b : game_row) : bool := (g_id a =? g_id b)%Z.

Definition same_pair (a b : Z * string) : bool :=
  (fst a =? fst b)%Z && String.eqb (snd a) (snd b).

(** The key of a table whose only key is its surrogate row identifier:
    a row the pipeline inserts conflicts with no stored row. *)
Definition no_key {R : Type} (a b : R) : bool := false.

(** [genres] and [platforms]: the primary key [id]. *)
Definition same_vocab (a b : Z * option string) : bool := (fst a =? fst b)%Z.

Definition same_link (a b : Z * Z) : bool :=
  (fst a =? fst b)%Z && (snd a =? snd b)%Z.

Definition media_type_eqb (a b : media_type) : bool :=
  match a, b with
  | image, image => true
  | video, video => true
  | _, _ => false
  end.

Definition same_media (a b : media_row) : bool :=
  (m_game_id a =? m_game_id b)%Z && media_type_eqb (m_type a) (m_type b)
  && String.eqb (m_url a) (m_url b).

Definition same_store (a b : store_row) : bool :=
  (st_id a =? st_id b)%Z || sql_eq_str (st_slug a) (st_slug b).

Definition same_game_store (a b : Z * Z * option string) : bool :=
  (fst (fst a) =? fst (fst b))%Z && (snd (fst a) =? snd (fst b))%Z.

Definition same_suggestion (a b : suggestion_row) : bool :=
  (sr_game_id a =? sr_game_id b)%Z && (sr_position a =? sr_position b)%Z.

(** *** Field updates *)

Definition set_games (d : db) (t : list game_row) : db :=
  {| games := t;
     game_developers := game_developers d; game_publishers := game_publishers d;
     game_tags := game_tags d; game_series_links := game_series_links d;
     game_additions_links := game_additions_links d; screenshots := screenshots d;
     genres := genres d; game_genres := game_genres d; platforms := platforms d;
     game_platforms := game_platforms d; media := media d; stores := stores d;
     game_stores := game_stores d; game_suggestions := game_suggestions d |}.

Definition set_lists (d : db) (devs pubs tags : list (Z * string)) : db :=
  {| games := games d;
     game_developers := devs; game_publishers := pubs; game_tags := tags;
     game_series_links := game_series_links d;
     game_additions_links := game_additions_links d; screenshots := screenshots d;
     genres := genres d; game_genres := game_genres d; platforms := platforms d;
     game_platforms := game_platforms d; media := media d; stores := stores d;
     game_stores := game_stores d; game_suggestions := game_suggestions d |}.

Definition set_genres (d : db) (v : list (Z * option string)) (l : list (Z * Z)) : db :=
  {| games := games d;
     game_developers := game_developers d; game_publishers := game_publishers d;
     game_tags := game_tags d; game_series_links := game_series_links d;
     game_additions_links := game_additions_links d; screenshots := screenshots d;
     genres := v; game_genres := l; platforms := platforms d;
     game_platforms := game_platforms d; media := media d; stores := stores d;
     game_stores := game_stores d; game_suggestions := game_suggestions d |}.

Definition set_platforms (d : db) (v : list (Z * option string)) (l : list (Z * Z)) : db :=
  {| games := games d;
     game_developers := game_developers d; game_publishers := game_publishers d;
     game_tags := game_tags d; game_series_links := game_series_links d;
     game_additions_links := game_additions_links d; screenshots := screenshots d;
     genres := genres d; game_genres := game_genres d; platforms := v;
     game_platforms := l; media := media d; stores := stores d;
     game_stores := game_stores d; game_suggestions := game_suggestions d |}.

Definition set_stores (d : db) (v : list store_row) (l : list (Z * Z * option string)) : db :=
  {| games := games d;
     game_developers := game_developers d; game_publishers := game_publishers d;
     game_tags := game_tags d; game_series_links := game_series_links d;
     game_additions_links := game_additions_links d; screenshots := screenshots d;
     genres := genres d; game_genres := game_genres d; platforms := platforms d;
     game_platforms := game_platforms d; media := media d; stores := v;
     game_stores := l; game_suggestions := game_suggestions d |}.

Definition set_series (d : db) (t : list (Z * string * string)) : db :=
  {| games := games d;
     game_developers := game_developers d; game_publishers := game_publishers d;
     game_tags := game_tags d; game_series_links := t;
     game_additions_links := game_additions_links d; screenshots := screenshots d;
     genres := genres d; game_genres := game_genres d; platforms := platforms d;
     game_platforms := game_platforms d; media := media d; stores := stores d;
     game_stores := game_stores d; game_suggestions := game_suggestions d |}.

Definition set_additions (d : db) (t : list (Z * string * string)) : db :=
  {| games := games d;
     game_developers := game_developers d; game_publishers := game_publishers d;
     game_tags := game_tags d; game_series_links := game_series_links d;
     game_additions_links := t; screenshots := screenshots d;
     genres := genres d; game_genres := game_genres d; platforms := platforms d;
     game_platforms := game_platforms d; media := media d; stores := stores d;
     game_stores := game_stores d; game_suggestions := game_suggestions d |}.

Definition set_media (d : db) (t : list media_row) : db :=
  {| games := games d;
     game_developers := game_developers d; game_publishers := game_publishers d;
     game_tags := game_tags d; game_series_links := game_series_links d;
     game_additions_links := game_additions_links d; screenshots := screenshots d;
     genres := genres d; game_genres := game_genres d; platforms := platforms d;
     game_platforms := game_platforms d; media := t; stores := stores d;
     game_stores := game_stores d; game_suggestions := game_suggestions d |}.

Definition set_screenshots (d : db) (t : list (Z * string)) : db :=
  {| games := games d;
     game_developers := game_developers d; game_publishers := game_publishers d;
     game_tags := game_tags d; game_series_links := game_series_links d;
     game_additions_links := game_additions_links d; screenshots := t;
     genres := genres d; game_genres := game_genres d; platforms := platforms d;
     game_platforms := game_platforms d; media := media d; stores := stores d;
     game_stores := game_stores d; game_suggestions := game_suggestions d |}.

Definition set_suggestions (d : db) (t : list suggestion_row) : db :=
  {| games := games d;
     game_developers := game_developers d; game_publishers := game_publishers d;
     game_tags := game_tags d; game_series_links := game_series_links d;
     game_additions_links := game_additions_links d; screenshots := screenshots d;
     genres := genres d; game_genres := game_genres d; platforms := platforms d;
     game_platforms := game_platforms d; media := media d; stores := stores d;
     game_stores := game_stores d; game_suggestions := t |}.

(** [SELECT ... FROM games WHERE id = ?] followed by [fetchone()] *)
Definition find_game (t : list game_row) (gid : Z) : option game_row :=
  find (fun r => (g_id r =? gid)%Z) t.

(** [UPDATE games SET ... WHERE id = ?] *)
Definition update_game (f : game_row -> game_row) (gid : Z) (t : list game_row)
  : list game_row :=
  map (fun r => if (g_id r =? gid)%Z then f r else r) t.

(** [SELECT 1 FROM <table> WHERE game_id = ? LIMIT 1] followed by
    [fetchone() is None] *)
Definition no_row {R : Type} (game_id : R -> Z) (gid : Z) (t : list R) : bool :=
  negb (existsb (fun r => (game_id r =? gid)%Z) t).

(** Number of rows of a table that belong to an item. *)
Definition count_rows {R : Type} (game_id : R -> Z) (gid : Z) (t : list R) : nat :=
  length (filter (fun r => (game_id r =? gid)%Z) t).

(* ================================================================== *)
(** ** Upsert layer *)
(* ================================================================== *)

(** [if rows: cur.executemany("INSERT OR IGNORE ...", rows)] *)
Definition executemany_if_any {R : Type} (conflict : R -> R -> bool)
    (rows : list R) (t : list R) : list R :=
  match rows with
  | [] => t
  | _ :: _ => executemany_ignore conflict rows t
  end.

(** The [SET] clause of [upsert_game_core]: every column is
    [COALESCE(?, column)]. *)
Definition merge_core (about website age cover released : option string)
    (rating : option float) (slug name : option string) (mscore : option Z)
    (mcolor : option string) (r : game_row) : game_row :=
  {| g_id := g_id r;
     g_slug := COALESCE slug (g_slug r);
     g_name := COALESCE name (g_name r);
     g_released := COALESCE released (g_released r);
     g_rating := COALESCE rating (g_rating r);
     g_description := COALESCE about (g_description r);
     g_website := COALESCE website (g_website r);
     g_age_rating := COALESCE age (g_age_rating r);
     g_cover_image := COALESCE cover (g_cover_image r);
     g_metascore_number := COALESCE mscore (g_metascore_number r);
     g_metascore_color := COALESCE mcolor (g_metascore_color r) |}.

(** [upsert_game_core].  The integers of the details are bound to the
    two statements as they come: the definition is that of the call on
    details whose identifier and metascore SQLite stores (64 bits);
    beyond them the binding raises [OverflowError] and the call writes
    nothing. *)
Definition upsert_game_core (conn : db) (d : details) : db :=
  let gid := d_id d in
  let slug := if PyStr.truthy_opt (d_slug d) then d_slug d else Some (str_of_Z gid) in
  let name := if PyStr.truthy_opt (d_name d) then d_name d else slug in
  let released := PyStr.or_none (d_released d) in
  let rating := if truthy_float (d_rating d) then d_rating d else None in
  let mscore := d_metacritic d in
  let mcolor := metascore_color mscore in
  let inserted :=
    insert_or_ignore same_game
      {| g_id := gid; g_slug := slug; g_name := name; g_released := released;
         g_rating := rating; g_description := None; g_website := None;
         g_age_rating := None; g_cover_image := None;
         g_metascore_number := None; g_metascore_color := None |}
      (games conn) in
  let about := PyStr.or_none (d_description_raw d) in
  let website := PyStr.or_none (d_website d) in
  let age := PyStr.or_none (match d_esrb_rating d with
                            | Some e => esrb_name e
                            | None => None
                            end) in
  let cover := choose_cover_from d in
  set_games conn
    (update_game
       (merge_core about website age cover released rating slug name mscore mcolor)
       gid inserted).

(** [(gid, x.strip())] for every truthy name. *)
Definition name_rows (gid : Z) (l : list named) : list (Z * string) :=
  map (fun n => (gid, PyStr.strip n)) (truthy_names (map nm_name l)).

(** [upsert_lists] *)
Definition upsert_lists (conn : db) (gid : Z) (d : details) : db :=
  set_lists conn
    (executemany_if_any same_pair (name_rows gid (d_developers d)) (game_developers conn))
    (executemany_if_any same_pair (name_rows gid (d_publishers d)) (game_publishers conn))
    (executemany_if_any same_pair (name_rows gid (d_tags d)) (game_tags conn)).

(** The two loops of [upsert_genres_platforms], over the vocabulary table
    and the link table. *)
Fixpoint upsert_genres (gid : Z) (l : list genre_obj)
    (v : list (Z * option string)) (lk : list (Z * Z))
  : list (Z * option string) * list (Z * Z) :=
  match l with
  | [] => (v, lk)
  | g :: rest =>
      match gn_id g, gn_name g with
      | Some gid_raw, Some gname =>
          if negb (gid_raw =? 0)%Z && PyStr.truthy gname then
            upsert_genres gid rest
              (insert_or_ignore same_vocab (gid_raw, Some (PyStr.strip gname)) v)
              (insert_or_ignore same_link (gid, gid_raw) lk)
          else upsert_genres gid rest v lk
      | _, _ => upsert_genres gid rest v lk
      end
  end.

Fixpoint upsert_platforms (gid : Z) (l : list platform_entry)
    (v : list (Z * option string)) (lk : list (Z * Z))
  : list (Z * option string) * list (Z * Z) :=
  match l with
  | [] => (v, lk)
  | p :: rest =>
      match pe_platform p with
      | Some plat =>
          match pf_id plat, pf_name plat with
          | Some pid_raw, Some pname =>
              if negb (pid_raw =? 0)%Z && PyStr.truthy pname then
                upsert_platforms gid rest
                  (insert_or_ignore same_vocab (pid_raw, Some (PyStr.strip pname)) v)
                  (insert_or_ignore same_link (gid, pid_raw) lk)
              else upsert_platforms gid rest v lk
          | _, _ => upsert_platforms gid rest v lk
          end
      | None => upsert_platforms gid rest v lk
      end
  end.

(** [upsert_genres_platforms] *)
Definition upsert_genres_platforms (conn : db) (gid : Z) (d : details) : db :=
  let (gv, gl) := upsert_genres gid (d_genres d) (genres conn) (game_genres conn) in
  let conn1 := set_genres conn gv gl in
  let (pv, pl) := upsert_platforms gid (d_platforms d) (platforms conn1) (game_platforms conn1) in
  set_platforms conn1 pv pl.

(** [store_obj.get("id") or s.get("id")] *)
Definition store_id_of (s : store_entry) : option Z :=
  let inner := match se_store s with
               | Some o => so_id o
               | None => None
               end in
  if truthy_int inner then inner else se_id s.

Definition store_field (f : store_obj -> option string) (s : store_entry) : option string :=
  PyStr.or_none (match se_store s with
                 | Some o => f o
                 | None => None
                 end).

(** The [for s in stores] loop of [upsert_store_links]: the vocabulary
    table and the collected [rows_link]. *)
Fixpoint upsert_stores (gid : Z) (l : list store_entry) (v : list store_row)
    (rows_link : list (Z * Z * option string))
  : list store_row * list (Z * Z * option string) :=
  match l with
  | [] => (v, rows_link)
  | s :: rest =>
      match store_id_of s with
      | Some sid =>
          if negb (sid =? 0)%Z then
            upsert_stores gid rest
              (insert_or_ignore same_store
                 {| st_id := sid; st_name := store_field so_name s;
                    st_slug := store_field so_slug s;
                    st_domain := store_field so_domain s;
                    st_logo_url := None; st_hover_image_url := None |} v)
              (rows_link ++ [(gid, sid, PyStr.or_none (se_url s))])
          else upsert_stores gid rest v rows_link
      | None => upsert_stores gid rest v rows_link
      end
  end.

(** [upsert_store_links] *)
Definition upsert_store_links (conn : db) (gid : Z) (d : details) : db :=
  let (v, rows_link) := upsert_stores gid (d_stores d) (stores conn) [] in
  set_stores conn v (executemany_if_any same_game_store rows_link (game_stores conn)).

(** [(gid, n.strip(), f"https://rawg.io/games/{slug}".rstrip("/"))] for
    every entry with a truthy name and slug. *)
Fixpoint related_rows (gid : Z) (l : list related_item) : list (Z * string * string) :=
  match l with
  | [] => []
  | s :: rest =>
      match rl_name s, rl_slug s with
      | Some n, Some slug =>
          if PyStr.truthy n && PyStr.truthy slug then
            (gid, PyStr.strip n,
             PyStr.rstrip_char "/"%char ("https://rawg.io/games/" ++ slug)%string)
            :: related_rows gid rest
          else related_rows gid rest
      | _, _ => related_rows gid rest
      end
  end.

(** One [try: ... except Exception: pass] block of [upsert_links].  The
    link table has no key of its own, so its [INSERT OR IGNORE] ignores
    nothing. *)
Definition upsert_related (serve : nat -> outcome (page related_item)) (gid : Z)
    (t : list (Z * string * string)) : list (Z * string * string) :=
  match _rawg_get serve with
  | Raise _ => t
  | Ok j => executemany_if_any no_key (related_rows gid (results_or_empty j)) t
  end.

(** [upsert_links] *)
Definition upsert_links (up : upstream) (conn : db) (gid : Z) : db :=
  let conn1 := set_series conn (upsert_related (up_series up gid) gid (game_series_links conn)) in
  set_additions conn1 (upsert_related (up_additions up gid) gid (game_additions_links conn1)).

(* ================================================================== *)
(** ** Media storage *)
(* ================================================================== *)

Definition set_cover (cover : option string) (r : game_row) : game_row :=
  {| g_id := g_id r; g_slug := g_slug r; g_name := g_name r;
     g_released := g_released r; g_rating := g_rating r;
     g_description := g_description r; g_website := g_website r;
     g_age_rating := g_age_rating r; g_cover_image := cover;
     g_metascore_number := g_metascore_number r;
     g_metascore_color := g_metascore_color r |}.

(** [cover_fallback_from_images] *)
Definition cover_fallback_from_images (conn : db) (gid : Z) (images : list image_rec) : db :=
  match find_game (games conn) gid with
  | None => conn
  | Some row =>
      let cur := match g_cover_image row with
                 | Some s => s
                 | None => EmptyString
                 end in
      if PyStr.truthy (PyStr.strip cur) then conn
      else match images with
           | [] => conn
           | first :: _ =>
               set_games conn (update_game (set_cover (im_image first)) gid (games conn))
           end
  end.

(** The [for item in images] loop of [store_media_images]: [rows_media]
    and [rows_legacy]. *)
Fixpoint image_rows (gid : Z) (images : list image_rec) (pos : Z)
  : list media_row * list (Z * string) :=
  match images with
  | [] => ([], [])
  | item :: rest =>
      match im_image item with
      | Some url =>
          if PyStr.truthy url then
            let (rows_media, rows_legacy) := image_rows gid rest (pos + 1)%Z in
            ({| m_game_id := gid; m_type := image; m_url := url;
                m_preview_url := None; m_position := pos |} :: rows_media,
             if (pos <=? 40)%Z then (gid, url) :: rows_legacy else rows_legacy)
          else image_rows gid rest pos
      | None => image_rows gid rest pos
      end
  end.

(** [store_media_images].  [save_images_to_disk] writes files only and its
    exceptions are swallowed; it does not touch the store. *)
Definition store_media_images (conn : db) (gid : Z) (images : list image_rec) : db :=
  match images with
  | [] => conn
  | _ :: _ =>
      let (rows_media, rows_legacy) := image_rows gid images 1%Z in
      let conn1 := set_media conn (executemany_if_any same_media rows_media (media conn)) in
      if no_row fst gid (screenshots conn1) then
        match rows_legacy with
        | [] => conn1
        | _ :: _ => set_screenshots conn1 (screenshots conn1 ++ rows_legacy)
        end
      else conn1
  end.

Fixpoint video_rows (gid : Z) (videos : list movie_rec) (pos : Z) : list media_row :=
  match videos with
  | [] => []
  | v :: rest =>
      if PyStr.truthy (mo_url v) then
        {| m_game_id := gid; m_type := video; m_url := mo_url v;
           m_preview_url := mo_preview v; m_position := pos |}
        :: video_rows gid rest (pos + 1)%Z
      else video_rows gid rest pos
  end.

(** [store_media_videos] *)
Definition store_media_videos (conn : db) (gid : Z) (videos : list movie_rec) : db :=
  match videos with
  | [] => conn
  | _ :: _ =>
      set_media conn (executemany_if_any same_media (video_rows gid videos 1%Z) (media conn))
  end.

(** ["; ".join(l) if l else None] *)
Definition csv (l : list string) : option string :=
  match l with
  | [] => None
  | _ :: _ => Some (PyStr.join "; " l)
  end.

Definition suggestion_row_of (gid pos : Z) (s : suggestion) : suggestion_row :=
  {| sr_game_id := gid;
     sr_position := pos;
     sr_suggested_id := su_id s;
     sr_name := su_name s;
     sr_image_url := su_image s;
     sr_platforms_csv := csv (truthy_names (su_platforms s));
     sr_metascore_number := su_metacritic s;
     sr_metascore_color := metascore_color (su_metacritic s);
     sr_released := su_released s;
     sr_genres_csv := csv (su_genres s) |}.

(** The [for s in suggestions[:8]] loop of [store_suggestions]. *)
Fixpoint suggestion_rows (gid : Z) (l : list suggestion) (pos : Z) : list suggestion_row :=
  match l with
  | [] => []
  | s :: rest => suggestion_row_of gid pos s :: suggestion_rows gid rest (pos + 1)%Z
  end.

(** [store_suggestions] *)
Definition store_suggestions (conn : db) (gid : Z) (suggestions : list suggestion) : db :=
  match suggestions with
  | [] => conn
  | _ :: _ =>
      set_suggestions conn
        (executemany_replace same_suggestion
           (suggestion_rows gid (firstn 8 suggestions) 1%Z)
           (game_suggestions conn))
  end.

(* ================================================================== *)
(** ** Completeness oracle *)
(* ================================================================== *)

Inductive table :=
| T_games | T_game_developers | T_game_publishers | T_game_tags
| T_game_series_links | T_game_additions_links | T_game_genres
| T_game_platforms | T_game_stores.

(** [COALESCE(column, '') = ''] *)
Definition is_blank (o : option string) : bool :=
  match o with
  | Some s => String.eqb s EmptyString
  | None => true
  end.

(** [needs_enrich], with the tables its queries read, in order. *)
Definition needs_enrich_queries (conn : db) (gid : Z) : bool * list table :=
  match find_game (games conn) gid with
  | None => (true, [T_games])
  | Some row =>
      let no_about := is_blank (g_description row) in
      let no_site := is_blank (g_website row) in
      let no_age := is_blank (g_age_rating row) in
      let no_cover := is_blank (g_cover_image row) in
      let no_devs := no_row fst gid (game_developers conn) in
      let no_pubs := no_row fst gid (game_publishers conn) in
      let no_tags := no_row fst gid (game_tags conn) in
      let no_series := no_row (fun r => fst (fst r)) gid (game_series_links conn) in
      let no_adds := no_row (fun r => fst (fst r)) gid (game_additions_links conn) in
      let no_genres := no_row fst gid (game_genres conn) in
      let no_platforms := no_row fst gid (game_platforms conn) in
      let no_stores := no_row (fun r => fst (fst r)) gid (game_stores conn) in
      (existsb (fun b : bool => b)
         [no_about; no_site; no_age; no_cover;
          no_devs; no_pubs; no_tags; no_series; no_adds;
          no_genres; no_platforms; no_stores],
       [T_games; T_game_developers; T_game_publishers; T_game_tags;
        T_game_series_links; T_game_additions_links; T_game_genres;
        T_game_platforms; T_game_stores])
  end.

Definition needs_enrich (conn : db) (gid : Z) : bool :=
  fst (needs_enrich_queries conn gid).

(* ================================================================== *)
(** ** Enrichment controller *)
(* ================================================================== *)

(** The in-place normalisation of the images embedded in the details, at
    the head of [enrich_one]. *)
Definition normalize_short (s : option short_screenshot) : option short_screenshot :=
  match s with
  | Some x =>
      if PyStr.truthy_opt (ss_image x)
      then Some {| ss_image := normalize_rawg_image (ss_image x) |}
      else s
  | None => None
  end.

Definition normalize_embedded (d : details) : details :=
  {| d_id := d_id d; d_slug := d_slug d; d_name := d_name d;
     d_released := d_released d; d_rating := d_rating d;
     d_metacritic := d_metacritic d;
     d_description_raw := d_description_raw d; d_website := d_website d;
     d_esrb_rating := d_esrb_rating d;
     d_background_image := normalize_rawg_image (d_background_image d);
     d_background_image_additional :=
       normalize_rawg_image (d_background_image_additional d);
     d_short_screenshots := map normalize_short (d_short_screenshots d);
     d_developers := d_developers d; d_publishers := d_publishers d;
     d_tags := d_tags d; d_genres := d_genres d;
     d_platforms := d_platforms d; d_stores := d_stores d |}.

(** The part of [enrich_one] that runs once the screenshots are fetched. *)
Definition enrich_media (up : upstream) (conn : db) (gid : Z)
    (images : list image_rec) : db * result bool :=
  let conn1 := cover_fallback_from_images conn gid images in
  let conn2 := store_media_images conn1 gid images in
  match fetch_movies up gid with
  | Raise e => (conn2, Raise e)
  | Ok videos =>
      let conn3 := store_media_videos conn2 gid videos in
      let conn4 := match fetch_suggestions up gid 8 with
                   | Ok sugg => store_suggestions conn3 gid sugg
                   | Raise _ => conn3
                   end in
      (conn4, Ok true)
  end.

(** The writes of [enrich_one] that come from the details and from the
    series and additions. *)
Definition enrich_core (up : upstream) (conn : db) (gid : Z) (d : details) : db :=
  let d' := normalize_embedded d in
  let conn1 := upsert_game_core conn d' in
  let conn2 := upsert_lists conn1 gid d' in
  let conn3 := upsert_genres_platforms conn2 gid d' in
  let conn4 := upsert_store_links conn3 gid d' in
  upsert_links up conn4 gid.

(** [enrich_one].  The result carries the store as the call leaves it:
    with the returned flag, or with the exception that escapes.  Every
    statement that can raise comes right after a [conn.commit()], so the
    store at that point is the committed one.  A details record always
    has its [id], so [if not details] is the test for [None].
    [None]: the screenshots loop is still running when the fuel is used
    up. *)
Definition enrich_one (fuel : nat) (max_images : Z) (up : upstream)
    (conn : db) (gid : Z) : option (db * result bool) :=
  match fetch_details up gid with
  | Raise e => Some (conn, Raise e)
  | Ok None => Some (conn, Ok false)
  | Ok (Some d) =>
      let conn1 := enrich_core up conn gid d in
      match fetch_all_screenshots fuel up gid max_images with
      | None => None
      | Some (Raise e) => Some (conn1, Raise e)
      | Some (Ok images) => Some (enrich_media up conn1 gid images)
      end
  end.

(** [ids_in_db] *)
Definition ids_in_db (conn : db) : list Z := map g_id (games conn).

Definition mem_Z (x : Z) (l : list Z) : bool := existsb (Z.eqb x) l.

Fixpoint insert_sorted (x : Z) (l : list Z) : list Z :=
  match l with
  | [] => [x]
  | y :: l' => if (x <=? y)%Z then x :: l else y :: insert_sorted x l'
  end.

(** [SELECT id FROM games ORDER BY id ASC] *)
Definition all_ids (conn : db) : list Z :=
  fold_right insert_sorted [] (map g_id (games conn)).

(** The single-ID mode of [main], from the identifiers read from the
    command line: one line per identifier, enriched or not.  After a
    successful [enrich_one] the row of the identifier is read back and
    subscripted for the line: when [games] has no such row, [fetchone()]
    is [None] and the subscript raises [TypeError].  An exception that
    escapes ends the run. *)
Fixpoint main_ids (fuel : nat) (max_images : Z) (up : upstream) (conn : db)
    (ids : list Z) (printed : list (Z * bool))
  : option (db * result (list (Z * bool))) :=
  match ids with
  | [] => Some (conn, Ok printed)
  | gid :: rest =>
      match enrich_one fuel max_images up conn gid with
      | None => None
      | Some (conn', Raise e) => Some (conn', Raise e)
      | Some (conn', Ok true) =>
          match find_game (games conn') gid with
          | None => Some (conn', Raise TypeError)
          | Some _ => main_ids fuel max_images up conn' rest (printed ++ [(gid, true)])
          end
      | Some (conn', Ok false) =>
          main_ids fuel max_images up conn' rest (printed ++ [(gid, false)])
      end
  end.

(** The counters of the summary. *)
Record summary := {
  ins_ok : nat;
  ins_fail : nat;
  en_ok : nat;
  en_skip : nat
}.

(** The orphan-insert loop of [main]. *)
Fixpoint insert_pass (fuel : nat) (max_images : Z) (up : upstream) (conn : db)
    (to_insert : list Z) (ok fail : nat) : option (db * result (nat * nat)) :=
  match to_insert with
  | [] => Some (conn, Ok (ok, fail))
  | gid :: rest =>
      match enrich_one fuel max_images up conn gid with
      | None => None
      | Some (conn', Raise e) => Some (conn', Raise e)
      | Some (conn', Ok true) => insert_pass fuel max_images up conn' rest (S ok) fail
      | Some (conn', Ok false) => insert_pass fuel max_images up conn' rest ok (S fail)
      end
  end.

(** The completeness-sweep loop of [main]. *)
Fixpoint sweep_pass (fuel : nat) (max_images : Z) (up : upstream) (conn : db)
    (ids : list Z) (ok skip : nat) : option (db * result (nat * nat)) :=
  match ids with
  | [] => Some (conn, Ok (ok, skip))
  | gid :: rest =>
      if needs_enrich conn gid then
        match enrich_one fuel max_images up conn gid with
        | None => None
        | Some (conn', Raise e) => Some (conn', Raise e)
        | Some (conn', Ok true) => sweep_pass fuel max_images up conn' rest (S ok) skip
        | Some (conn', Ok false) => sweep_pass fuel max_images up conn' rest ok (S skip)
        end
      else sweep_pass fuel max_images up conn rest ok skip
  end.

(** The full mode of [main], from the sorted identifiers that
    [find_folder_ids] returns.  The [time.sleep(0.2)] between items and
    the printed lines other than the summary counters are left out. *)
Definition main (fuel : nat) (max_images : Z) (up : upstream) (conn : db)
    (folder_ids : list Z) : option (db * result summary) :=
  let db_ids := ids_in_db conn in
  let to_insert := filter (fun gid => negb (mem_Z gid db_ids)) folder_ids in
  match insert_pass fuel max_images up conn to_insert 0 0 with
  | None => None
  | Some (conn1, Raise e) => Some (conn1, Raise e)
  | Some (conn1, Ok (iok, ifail)) =>
      match sweep_pass fuel max_images up conn1 (all_ids conn1) 0 0 with
      | None => None
      | Some (conn2, Raise e) => Some (conn2, Raise e)
      | Some (conn2, Ok (eok, eskip)) =>
          Some (conn2, Ok {| ins_ok := iok; ins_fail := ifail;
                             en_ok := eok; en_skip := eskip |})
      end
  end.

(* ================================================================== *)
(** ** Row counts of the relation tables *)
(* ================================================================== *)

(** The number of rows an item has in each link, media, store and
    suggestion table. *)
Record link_counts := {
  n_developers : nat;
  n_publishers : nat;
  n_tags : nat;
  n_genres : nat;
  n_platforms : nat;
  n_series : nat;
  n_additions : nat;
  n_stores : nat;
  n_media : nat;
  n_screenshots : nat;
  n_suggestions : nat
}.

Definition row_counts (conn : db) (gid : Z) : link_counts :=
  {| n_developers := count_rows fst gid (game_developers conn);
     n_publishers := count_rows fst gid (game_publishers conn);
     n_tags := count_rows fst gid (game_tags conn);
     n_genres := count_rows fst gid (game_genres conn);
     n_platforms := count_rows fst gid (game_platforms conn);
     n_series := count_rows (fun r => fst (fst r)) gid (game_series_links conn);
     n_additions := count_rows (fun r => fst (fst r)) gid (game_additions_links conn);
     n_stores := count_rows (fun r => fst (fst r)) gid (game_stores conn);
     n_media := count_rows m_game_id gid (media conn);
     n_screenshots := count_rows fst gid (screenshots conn);
     n_suggestions := count_rows sr_game_id gid (game_suggestions conn) |}.

(** The rows one [try] block of [upsert_links] has to insert: none when
    the request raises. *)
Definition related_batch (serve : nat -> outcome (page related_item)) (gid : Z)
  : list (Z * string * string) :=
  match _rawg_get serve with
  | Ok j => related_rows gid (results_or_empty j)
  | Raise _ => []
  end.

(** The link rows that one run of [enrich_one] on [gid] inserts for the
    item [g] from an endpoint: the rows of the batch, when the details
    are found and [g] is the item of the run. *)
Definition links_inserted (up : upstream) (gid g : Z)
    (serve : Z -> nat -> outcome (page related_item)) : nat :=
  match fetch_details up gid with
  | Ok (Some _) => if (g =? gid)%Z then length (related_batch (serve gid) gid) else 0%nat
  | _ => 0%nat
  end.

(** Row counts with [s] more series rows and [a] more additions rows. *)
Definition plus_links (c : link_counts) (s a : nat) : link_counts :=
  {| n_developers := n_developers c;
     n_publishers := n_publishers c;
     n_tags := n_tags c;
     n_genres := n_genres c;
     n_platforms := n_platforms c;
     n_series := n_series c + s;
     n_additions := n_additions c + a;
     n_stores := n_stores c;
     n_media := n_media c;
     n_screenshots := n_screenshots c;
     n_suggestions := n_suggestions c |}.

(* ================================================================== *)
(** ** Vocabulary of the statements *)
(* ================================================================== *)


(** A table holds no row of the item. *)
Definition has_no_row {R : Type} (game_id : R -> Z) (gid : Z) (t : list R) : Prop :=
  forall r, In r t -> game_id r <> gid.


(** The statuses [_rawg_get] sleeps on and retries. *)
Definition retryable (s : Z) : bool :=
  ((s =? 429) || (s =? 500) || (s =? 502) || (s =? 503) || (s =? 504))%Z.

(** The row keys [(gid, p)] with [lo <= p < lo + n]. *)
Definition in_positions (gid lo : Z) (n : nat) (r : suggestion_row) : bool :=
  ((sr_game_id r =? gid) && (lo <=? sr_position r)
   && (sr_position r <? lo + Z.of_nat n))%Z.

(** *** Sample data *)

Definition empty_db : db :=
  {| games := []; game_developers := []; game_publishers := []; game_tags := [];
     game_series_links := []; game_additions_links := []; screenshots := [];
     genres := []; game_genres := []; platforms := []; game_platforms := [];
     media := []; stores := []; game_stores := []; game_suggestions := [] |}.

Definition sample_game (gid : Z) (website : option string) : game_row :=
  {| g_id := gid; g_slug := Some "sample"; g_name := Some "Sample";
     g_released := Some "2020-01-01"; g_rating := None;
     g_description := Some "A game."; g_website := website;
     g_age_rating := Some "Teen";
     g_cover_image := Some "https://media.rawg.io/media/games/a.jpg";
     g_metascore_number := Some 82%Z; g_metascore_color := Some "green" |}.

Definition sample_details (gid : Z) (website : option string) : details :=
  {| d_id := gid; d_slug := Some "sample"; d_name := Some "Sample";
     d_released := Some "2020-01-01"; d_rating := None;
     d_metacritic := Some 82%Z; d_description_raw := None;
     d_website := website; d_esrb_rating := None;
     d_background_image := None; d_background_image_additional := None;
     d_short_screenshots := []; d_developers := []; d_publishers := [];
     d_tags := []; d_genres := [ {| gn_id := Some 4%Z; gn_name := Some "Action" |} ];
     d_platforms := []; d_stores := [] |}.



(** A server that answers every attempt with the same status and body. *)
Definition always {A : Type} (status : Z) (body : option A) (attempt : nat) : outcome A :=
  Answered {| status_code := status; json := body |}.

(** A store with one complete item. *)
Definition db_one_game : db := set_games empty_db [sample_game 1 (Some "https://old.example")].


(** *** A simulated screenshots sub-resource *)

Definition has_image (item : shot_item) : Prop :=
  PyStr.truthy_opt (sh_image item) = true.

(** [serve] is a sub-resource of [n] pages of [page_size] entries: page
    [k] of [1..n] answers the first attempt with a 200 that carries
    [page_size] entries, each with an image, and a next indicator exactly
    when [k < n]. *)
Definition simulated_pages (serve : Z -> nat -> outcome (page shot_item))
    (n page_size : nat) : Prop :=
  forall k : nat, (1 <= k <= n)%nat ->
    exists p, serve (Z.of_nat k) 1%nat
              = Answered {| status_code := 200; json := Some p |} /\
              length (results p) = page_size /\
              Forall has_image (results p) /\
              PyStr.truthy_opt (next p) = (k <? n)%nat.

Definition sample_shot : shot_item :=
  {| sh_image := Some "https://media.rawg.io/media/screenshots/a.jpg";
     sh_width := Some 1920%Z; sh_height := Some 1080%Z |}.

(** Pages [1..n] of [page_size] copies of [sample_shot]; 404 beyond. *)
Definition sample_pages (n page_size : nat) (pg : Z) (attempt : nat)
  : outcome (page shot_item) :=
  if ((1 <=? pg) && (pg <=? Z.of_nat n))%Z then
    Answered
      {| status_code := 200;
         json := Some {| results := repeat sample_shot page_size;
                         next := if (pg <? Z.of_nat n)%Z then Some "next" else None |} |}
  else Answered {| status_code := 404; json := None |}.

Definition no_details (gid : Z) (attempt : nat) : outcome details :=
  Answered {| status_code := 404; json := None |}.

Definition no_page {A : Type} (gid : Z) (attempt : nat) : outcome (page A) :=
  Answered {| status_code := 404; json := None |}.

(** An upstream that only has screenshots. *)
Definition screenshots_only (n page_size : nat) : upstream :=
  {| up_details := no_details;
     up_screenshots := fun _ => sample_pages n page_size;
     up_movies := no_page; up_series := no_page; up_additions := no_page;
     up_suggested := no_page |}.

(** Every row of [rows] meets a conflicting row in the table [t]: an
    [INSERT OR IGNORE] of these rows changes nothing. *)
Definition covered {R : Type} (conflict : R -> R -> bool) (rows t : list R) : Prop :=
  forall r, In r rows -> existsb (conflict r) t = true.

(** *** A sample upstream *)

Definition ok {A : Type} (body : A) (attempt : nat) : outcome A :=
  Answered {| status_code := 200; json := Some body |}.

Definition rich_details (gid : Z) : details :=
  {| d_id := gid; d_slug := Some "sample"; d_name := Some "Sample";
     d_released := Some "2020-01-01"; d_rating := Some 4.5%float;
     d_metacritic := Some 82%Z; d_description_raw := Some "A game.";
     d_website := Some "https://sample.example";
     d_esrb_rating := Some {| esrb_name := Some "Teen" |};
     d_background_image :=
       Some "https://media.rawg.io/media/crop/600/400/games/abc/cover.jpg";
     d_background_image_additional := None;
     d_short_screenshots := [];
     d_developers := [ {| nm_name := Some " Studio " |}; {| nm_name := Some "Studio" |} ];
     d_publishers := [ {| nm_name := Some "House" |} ];
     d_tags := [ {| nm_name := Some "Solo" |}; {| nm_name := None |} ];
     d_genres := [ {| gn_id := Some 4%Z; gn_name := Some "Action" |} ];
     d_platforms := [ {| pe_platform := Some {| pf_id := Some 4%Z; pf_name := Some "PC" |} |} ];
     d_stores := [ {| se_id := Some 90%Z; se_url := Some "https://shop.example/sample";
                      se_store := Some {| so_id := Some 1%Z; so_name := Some "Steam";
                                          so_slug := Some "steam";
                                          so_domain := Some "store.steampowered.com" |} |} ] |}.

Definition sample_movies : page movie_item :=
  {| results := [ {| mv_data := Some {| md_max := Some "https://media.rawg.io/v/max.mp4";
                                        md_480 := Some "https://media.rawg.io/v/480.mp4" |};
                     mv_preview := Some "https://media.rawg.io/v/thumb.jpg";
                     mv_name := Some "Trailer" |} ];
     next := None |}.

Definition sample_related : page related_item :=
  {| results := [ {| rl_name := Some "Sample 2"; rl_slug := Some "sample-2" |} ];
     next := None |}.

Definition sample_suggested_item (gid : Z) (name : string) : suggested_item :=
  {| sg_id := Some gid; sg_name := Some name;
     sg_background_image := Some "https://media.rawg.io/media/resize/640/-/games/s.jpg";
     sg_released := Some "2019-05-05"; sg_metacritic := Some 61%Z;
     sg_platforms := [ {| pe_platform := Some {| pf_id := Some 4%Z; pf_name := Some "PC" |} |} ];
     sg_genres := [ {| gn_id := Some 4%Z; gn_name := Some "Action" |} ] |}.

Definition sample_suggested : page suggested_item :=
  {| results := [ sample_suggested_item 11 "Alike"; sample_suggested_item 12 "Akin" ];
     next := None |}.

(** Every item has the same rich record: details, two pages of two
    screenshots, a movie, a series entry, a suggestion list; the
    additions are answered with 503. *)
Definition sample_upstream : upstream :=
  {| up_details := fun gid => ok (rich_details gid);
     up_screenshots := fun _ => sample_pages 2 2;
     up_movies := fun _ => ok sample_movies;
     up_series := fun _ => ok sample_related;
     up_additions := fun _ => always 503 None;
     up_suggested := fun _ => ok sample_suggested |}.

(** The store after one enrichment of item 1001 from an empty store. *)
Definition enriched_once : db :=
  match enrich_one 5 50 sample_upstream empty_db 1001 with
  | Some (conn, _) => conn
  | None => empty_db
  end.

(** As [sample_upstream], but the details of item 1 are answered with
    403 Forbidden. *)
Definition forbidden_first : upstream :=
  {| up_details := fun gid => if (gid =? 1)%Z then always 403 None
                              else ok (rich_details gid);
     up_screenshots := up_screenshots sample_upstream;
     up_movies := up_movies sample_upstream;
     up_series := up_series sample_upstream;
     up_additions := up_additions sample_upstream;
     up_suggested := up_suggested sample_upstream |}.

(** As [sample_upstream], but the details of item 1 are not found. *)
Definition missing_first : upstream :=
  {| up_details := fun gid => if (gid =? 1)%Z then always 404 None
                              else ok (rich_details gid);
     up_screenshots := up_screenshots sample_upstream;
     up_movies := up_movies sample_upstream;
     up_series := up_series sample_upstream;
     up_additions := up_additions sample_upstream;
     up_suggested := up_suggested sample_upstream |}.

(** The statuses [_rawg_get] has no branch for and [raise_for_status]
    raises on. *)
Definition unexpected_status (s : Z) : Prop :=
  (400 <= s < 600)%Z /\ s <> 404%Z /\ retryable s = false.

(** How an attempt makes [_rawg_get] raise [e]: it is answered with an
    unexpected status, of which [e] is the [HTTPError], or it is not
    answered, and [e] is the exception of [requests.get]. *)
Definition raised_at {A : Type} (o : outcome A) (e : exn) : Prop :=
  match o with
  | Answered r => unexpected_status (status_code r) /\ e = HTTPError (status_code r)
  | Unanswered t => e = RequestException t
  end.

(** A server that never answers. *)
Definition unreachable {A : Type} (attempt : nat) : outcome A := Unanswered ConnectionError.


(* ================================================================== *)
(** ** Further vocabulary: transport traces *)
(* ================================================================== *)

(** Seconds slept in a trace. *)
Fixpoint slept (tr : list effect) : Z :=
  match tr with
  | [] => 0
  | Get _ :: tr' => slept tr'
  | Sleep s :: tr' => (s + slept tr')%Z
  end.

(** The sleep [_rawg_get] takes after a retryable status at an attempt. *)
Definition backoff (status : Z) (attempt : nat) : Z :=
  if (status =? 429)%Z then RETRY_429_SLEEP else (2 * Z.of_nat attempt)%Z.

(** A status below 400 other than 200: no branch of [_rawg_get] handles
    it and [raise_for_status] lets it pass. *)
Definition unhandled_success (s : Z) : Prop := (s < 400)%Z /\ s <> 200%Z.

(** Two 503 and then a 200 that carries the sample movies. *)
Definition flaky_movies (attempt : nat) : response (page movie_item) :=
  if (attempt <? 3)%nat then {| status_code := 503; json := None |}
  else {| status_code := 200; json := Some sample_movies |}.

(* ================================================================== *)
(** ** Further vocabulary: URLs and images *)
(* ================================================================== *)

(** The character [c] does not occur in [s]. *)
Fixpoint free_of (c : ascii) (s : string) : bool :=
  match s with
  | EmptyString => true
  | String a s' => negb (Ascii.eqb a c) && free_of c s'
  end.

(** A path segment: a string without a slash. *)
Definition segment (s : string) : Prop := free_of "/"%char s = true.

(** [(s or {}).get("image")] for an entry of [short_screenshots]. *)
Definition short_image (s : option short_screenshot) : option string :=
  match s with
  | Some x => ss_image x
  | None => None
  end.

(** An image as the crawler hands it on: its URL is present, non-empty
    and already in normal form. *)
Definition canonical_image (i : image_rec) : Prop :=
  PyStr.truthy_opt (im_image i) = true /\
  normalize_rawg_image (im_image i) = im_image i.

(** The URLs [store_media_images] uses: those of the images whose
    [image] is present and non-empty, in order. *)
Definition image_urls (images : list image_rec) : list string :=
  truthy_names (map im_image images).

(* ================================================================== *)
(** ** Further vocabulary: what a run keeps *)
(* ================================================================== *)

(** A text column holds a non-empty value. *)
Definition filled (o : option string) : Prop :=
  exists w, o = Some w /\ w <> EmptyString.

(** Every column that is filled in [r] is filled in [r'], which is a row
    of the same item. *)
Definition no_less_filled (r r' : game_row) : Prop :=
  g_id r' = g_id r /\
  (filled (g_slug r) -> filled (g_slug r')) /\
  (filled (g_name r) -> filled (g_name r')) /\
  (filled (g_released r) -> filled (g_released r')) /\
  (filled (g_description r) -> filled (g_description r')) /\
  (filled (g_website r) -> filled (g_website r')) /\
  (filled (g_age_rating r) -> filled (g_age_rating r')) /\
  (filled (g_cover_image r) -> filled (g_cover_image r')) /\
  (filled (g_metascore_color r) -> filled (g_metascore_color r')) /\
  (g_rating r <> None -> g_rating r' <> None) /\
  (g_metascore_number r <> None -> g_metascore_number r' <> None).

(** The items of [t] are all still in [t'], with no filled column
    emptied. *)
Definition games_kept (t t' : list game_row) : Prop :=
  forall g r, find_game t g = Some r ->
    exists r', find_game t' g = Some r' /\ no_less_filled r r'.

(** An integer that SQLite stores: a signed integer of 64 bits.  Binding
    a Python [int] outside this range to a statement raises
    [OverflowError] before the statement runs. *)
Definition sqlite_integer (z : Z) : Prop := (- 2 ^ 63 <= z < 2 ^ 63)%Z.

(** The integers that [upsert_game_core] binds from the details are
    integers SQLite stores. *)
Definition binds (d : details) : Prop :=
  sqlite_integer (d_id d) /\
  forall n, d_metacritic d = Some n -> sqlite_integer n.

(** A store with the item 1001 known by name only. *)
Definition db_bare_item : db := set_games empty_db [sample_game 1001 None].

(** [details.get("slug") or str(gid)] and [details.get("name") or slug] *)
Definition slug_of (d : details) : string :=
  match d_slug d with
  | Some s => if PyStr.truthy s then s else str_of_Z (d_id d)
  | None => str_of_Z (d_id d)
  end.

Definition name_of (d : details) : string :=
  match d_name d with
  | Some s => if PyStr.truthy s then s else slug_of d
  | None => slug_of d
  end.

(** A metascore in the range the colour is defined on. *)
Definition in_score_range (n : Z) : Prop := (0 <= n <= 100)%Z.

(** Details that carry nothing but an identifier and a metascore. *)
Definition score_only (gid : Z) (score : option Z) : details :=
  {| d_id := gid; d_slug := None; d_name := None; d_released := None;
     d_rating := None; d_metacritic := score; d_description_raw := None;
     d_website := None; d_esrb_rating := None; d_background_image := None;
     d_background_image_additional := None; d_short_screenshots := [];
     d_developers := []; d_publishers := []; d_tags := []; d_genres := [];
     d_platforms := []; d_stores := [] |}.

(** A complete store: [enriched_once] with an addition for its item. *)
Definition db_complete : db :=
  set_additions enriched_once [(1001, "Sample DLC", "https://rawg.io/games/sample-dlc")%Z].

(** An upstream service that answers every request with 500. *)
Definition broken_upstream : upstream :=
  {| up_details := fun _ => always 500 None;
     up_screenshots := fun _ _ => always 500 None;
     up_movies := fun _ => always 500 None;
     up_series := fun _ => always 500 None;
     up_additions := fun _ => always 500 None;
     up_suggested := fun _ => always 500 None |}.

(** The upstream with another answer on the suggestions endpoint. *)
Definition with_suggested (up : upstream)
    (s : Z -> nat -> outcome (page suggested_item)) : upstream :=
  {| up_details := up_details up;
     up_screenshots := up_screenshots up;
     up_movies := up_movies up;
     up_series := up_series up;
     up_additions := up_additions up;
     up_suggested := s |}.

(** The store with its suggestion table left out. *)
Definition without_suggestions (conn : db) : db := set_suggestions conn [].

(** The last character of [s] is [c]. *)
Fixpoint ends_with (c : ascii) (s : string) : bool :=
  match s with
  | EmptyString => false
  | String a EmptyString => Ascii.eqb a c
  | String _ s' => ends_with c s'
  end.

(** The shape of a link URL built by [upsert_links]: the games base, or
    the base, a slash and a non-empty path that does not end in a
    slash. *)
Definition link_url (url : string) : Prop :=
  url = "https://rawg.io/games" \/
  exists path, url = ("https://rawg.io/games/" ++ path)%string /\
               path <> EmptyString /\ ends_with "/"%char path = false.

(** The names of the entries of a list that are present and non-empty. *)
Definition raw_names (l : list named) : list string := truthy_names (map nm_name l).

(** An upstream whose details for item 5 carry the identifier 6, as for
    a merged or redirected item. *)
Definition redirected_upstream : upstream :=
  {| up_details := fun _ => ok (rich_details 6);
     up_screenshots := up_screenshots sample_upstream;
     up_movies := up_movies sample_upstream;
     up_series := up_series sample_upstream;
     up_additions := up_additions sample_upstream;
     up_suggested := up_suggested sample_upstream |}.

(* ================================================================== *)
(** ** The older normaliser of [fetch_games.py] *)
(* ================================================================== *)

(** [normalize_rawg_image] of [fetch_games.py]: the guard looks for
    ["/media/"] alone, and the [games] segment is looked up with
    ["games" in parts] before [parts.index("games")]. *)
Definition listing_normalize_rawg_image (url : option string) : option string :=
  match url with
  | None => None
  | Some u =>
      if negb (PyStr.truthy u) || negb (PyStr.contains "/media/" u) then url
      else match PyStr.split_first "/media/" u with
           | Some (_, tail) =>
               let parts := PyStr.split "/"%char tail in
               let parts' :=
                 match parts with
                 | p0 :: _ =>
                     if String.eqb p0 "crop" || String.eqb p0 "resize" then
                       match PyStr.index "games" parts with
                       | Some gi => skipn gi parts
                       | None => parts
                       end
                     else parts
                 | [] => parts
                 end in
               Some ("https://media.rawg.io/media/" ++ PyStr.join "/" parts')%string
           | None => url
           end
  end.

(* ================================================================== *)
(** ** Images on disk *)
(* ================================================================== *)

(** The files of the directory [screenshots/<game_id>/], by name, with
    their contents. *)
Definition directory := list (string * string).

(** [target.exists()] and the content of the file. *)
Definition read_file (name : string) (dir : directory) : option string :=
  option_map snd (find (fun f => String.eqb (fst f) name) dir).

Definition file_exists (name : string) (dir : directory) : bool :=
  existsb (fun f => String.eqb (fst f) name) dir.

(** [open(target, "wb")] followed by the writes and the close: the file
    is created, or replaced, with the content. *)
Definition write_file (name content : string) (dir : directory) : directory :=
  filter (fun f => negb (String.eqb (fst f) name)) dir ++ [(name, content)].

(** What happens to one download: the request fails or is answered with
    an error status before the file is opened; or the file is opened and
    these chunks arrive, after which the stream ends ([true]) or raises
    ([false]). *)
Inductive download :=
| Refused
| Streamed (chunks : list string) (complete : bool).

(** [f"{n:03d}"] for a number that is not negative. *)
Definition pad3 (n : Z) : string :=
  let s := str_of_Z n in
  (PyStr.join "" (repeat "0" (3 - String.length s)) ++ s)%string.

(** The file name of the image at index [idx], counted from 1. *)
Definition file_name (idx : nat) : string :=
  if (idx =? 1)%nat then "cover.jpg"
  else ("screenshot_" ++ pad3 (Z.of_nat idx - 1) ++ ".jpg")%string.

(** The bytes written to the file: empty chunks are skipped, which does
    not change the content. *)
Definition written (chunks : list string) : string := PyStr.join "" chunks.

(** The file a download leaves when the target did not exist: none when
    nothing was opened, and none when the stream raised before any byte
    was written, because the handler removes the empty file. *)
Definition left_by (d : download) : option string :=
  match d with
  | Refused => None
  | Streamed chunks true => Some (written chunks)
  | Streamed chunks false =>
      if String.eqb (written chunks) EmptyString then None
      else Some (written chunks)
  end.

(** The body of the loop of [save_images_to_disk] for one image. *)
Definition save_image (fetch : string -> download) (dir : directory)
    (idx : nat) (item : image_rec) : directory :=
  match im_image item with
  | Some url =>
      if PyStr.truthy url then
        let target := file_name idx in
        if file_exists target dir then dir
        else match left_by (fetch url) with
             | Some content => write_file target content dir
             | None => dir
             end
      else dir
  | None => dir
  end.

Fixpoint save_images_from (fetch : string -> download) (dir : directory)
    (idx : nat) (images : list image_rec) : directory :=
  match images with
  | [] => dir
  | item :: rest => save_images_from fetch (save_image fetch dir idx item) (S idx) rest
  end.

(** [save_images_to_disk], on the files of the item's directory, which
    [mkdir(parents=True, exist_ok=True)] has made sure exists. *)
Definition save_images_to_disk (fetch : string -> download) (dir : directory)
    (images : list image_rec) : directory :=
  save_images_from fetch dir 1 images.

(** A download service: the first URL is served whole, the second breaks
    after some bytes, the third breaks before any byte, the others are
    refused. *)
Definition sample_fetch (url : string) : download :=
  if String.eqb url "u1" then Streamed ["JPEG"; ""; "DATA"] true
  else if String.eqb url "u2" then Streamed ["JP"] false
  else if String.eqb url "u3" then Streamed [""] false
  else Refused.

Definition sample_images : list image_rec :=
  map (fun u => {| im_image := u; im_width := None; im_height := None |})
      [Some "u1"; None; Some "u2"; Some "u3"; Some "u4"].
(* ================================================================== *)
(** * Properties *)
(* ================================================================== *)

(** ** Strings *)

Lemma startswith_app (p s : string) :
  PyStr.startswith p s = true -> exists t, s = (p ++ t)%string.
Proof.
  revert s; induction p as [|a p IH]; intros s H.
  - exists s; reflexivity.
  - destruct s as [|b s]; simpl in H; [discriminate|].
    apply andb_true_iff in H as [Hab Hps].
    apply Ascii.eqb_eq in Hab; subst b.
    destruct (IH _ Hps) as [t ->].
    exists t; reflexivity.
Qed.

Lemma contains_split_first (sep s : string) :
  PyStr.contains sep s = true -> PyStr.split_first sep s <> None.
Proof.
  induction s as [|c s IH]; simpl; intros H.
  - rewrite orb_false_r in H. rewrite H. discriminate.
  - destruct (PyStr.startswith sep (String c s)) eqn:E; [discriminate|].
    simpl in H. specialize (IH H).
    destruct (PyStr.split_first sep s) as [[b a]|]; [discriminate|contradiction].
Qed.

Lemma contains_prefix_media (t : string) :
  PyStr.contains "/media/" (MEDIA_PREFIX ++ t) = true.
Proof. reflexivity. Qed.

Lemma contains_media (u : string) :
  PyStr.contains MEDIA_PREFIX u = true -> PyStr.contains "/media/" u = true.
Proof.
  induction u as [|c u IH]; intros H.
  - discriminate H.
  - cbn [PyStr.contains] in H.
    apply orb_true_iff in H as [H|H].
    + apply startswith_app in H as [t ->]. apply contains_prefix_media.
    + cbn [PyStr.contains]. rewrite (IH H). apply orb_true_r.
Qed.

(** The [IndexError] branch of [normalize_rawg_image] is dead. *)
Lemma split_first_media_defined (u : string) :
  PyStr.contains MEDIA_PREFIX u = true -> PyStr.split_first "/media/" u <> None.
Proof. intros H. apply contains_split_first, contains_media, H. Qed.

Lemma split_first_prefix (t : string) :
  PyStr.split_first "/media/" (MEDIA_PREFIX ++ t)
  = Some ("https://media.rawg.io", t).
Proof. reflexivity. Qed.

Lemma contains_prefix (t : string) :
  PyStr.contains MEDIA_PREFIX (MEDIA_PREFIX ++ t) = true.
Proof. reflexivity. Qed.

Lemma join_cons (sep x : string) (p : string) (ps : list string) :
  PyStr.join sep (x :: p :: ps) = (x ++ sep ++ PyStr.join sep (p :: ps))%string.
Proof. reflexivity. Qed.

(** ["/".join(t.split("/")) == t] *)
Lemma join_split (c : ascii) (t : string) :
  PyStr.join (String c EmptyString) (PyStr.split c t) = t.
Proof.
  unfold PyStr.split.
  induction t as [|a t IH]; [reflexivity|].
  cbn [PyStr.split_pieces].
  destruct (PyStr.split_pieces c t) as [p ps].
  destruct (Ascii.eqb a c) eqn:E.
  - apply Ascii.eqb_eq in E; subst a.
    rewrite join_cons, IH. reflexivity.
  - destruct ps as [|q ps].
    + cbn in IH |- *. now rewrite IH.
    + rewrite join_cons in IH |- *. rewrite <- IH. reflexivity.
Qed.

Lemma index_skipn (x : string) (l : list string) (i : nat) :
  PyStr.index x l = Some i -> exists rest, skipn i l = x :: rest.
Proof.
  revert i; induction l as [|y l IH]; intros i H; [discriminate|].
  cbn in H. destruct (String.eqb y x) eqn:E.
  - injection H as <-. apply String.eqb_eq in E; subst y. now exists l.
  - destruct (PyStr.index x l) as [j|]; [|discriminate].
    injection H as <-. destruct (IH j eq_refl) as [rest Hr].
    exists rest. exact Hr.
Qed.

(** A tail that starts with the [games] segment is left alone. *)
Lemma strip_transform_games (rest : list string) :
  strip_transform (PyStr.join "/" ("games" :: rest)) = PyStr.join "/" ("games" :: rest).
Proof.
  unfold strip_transform, PyStr.split.
  destruct rest as [|y l].
  - reflexivity.
  - rewrite join_cons.
    set (X := PyStr.join "/" (y :: l)).
    cbn [PyStr.split_pieces String.append].
    destruct (PyStr.split_pieces "/" X) as [p ps].
    reflexivity.
Qed.

Lemma strip_transform_cases (t : string) :
  strip_transform t = t \/
  exists rest, strip_transform t = PyStr.join "/" ("games" :: rest).
Proof.
  unfold strip_transform.
  destruct (PyStr.split "/" t) as [|p0 ps] eqn:Hs; [now left|].
  destruct (String.eqb p0 "crop" || String.eqb p0 "resize"); [|now left].
  destruct (PyStr.index "games" (p0 :: ps)) as [gi|] eqn:Hi.
  - right. destruct (index_skipn _ _ _ Hi) as [rest ->]. now exists rest.
  - left. rewrite <- Hs. apply (join_split "/"%char).
Qed.

Lemma strip_transform_idempotent (t : string) :
  strip_transform (strip_transform t) = strip_transform t.
Proof.
  destruct (strip_transform_cases t) as [H|[rest H]].
  - rewrite H. exact H.
  - rewrite H. apply strip_transform_games.
Qed.

Lemma normalize_canonical (t : string) :
  normalize_rawg_image (Some (MEDIA_PREFIX ++ t)%string)
  = Some (MEDIA_PREFIX ++ strip_transform t)%string.
Proof.
  unfold normalize_rawg_image.
  rewrite contains_prefix, split_first_prefix. reflexivity.
Qed.

(** ** C4: metascore colour *)

(** C4. [metascore_color] is a total function that partitions the
    scores: green exactly on [75,100], yellow exactly on [50,74], red
    exactly on [0,49], nothing outside [0,100] and nothing for a missing
    score; every score of [0,100] gets exactly one of the three colours. *)
Theorem metascore_color_partition :
  metascore_color None = None /\
  (forall n : Z,
      (metascore_color (Some n) = Some "green" <-> (75 <= n <= 100)%Z) /\
      (metascore_color (Some n) = Some "yellow" <-> (50 <= n <= 74)%Z) /\
      (metascore_color (Some n) = Some "red" <-> (0 <= n <= 49)%Z) /\
      (metascore_color (Some n) = None <-> (n < 0 \/ 100 < n)%Z)) /\
  (forall n : Z, (0 <= n <= 100)%Z ->
      exists c, metascore_color (Some n) = Some c /\
                (c = "green" \/ c = "yellow" \/ c = "red")).
Proof.
  split; [reflexivity|]. split.
  - intros n. unfold metascore_color.
    destruct (75 <=? n)%Z eqn:A1; destruct (n <=? 100)%Z eqn:A2;
    destruct (50 <=? n)%Z eqn:B1; destruct (n <=? 74)%Z eqn:B2;
    destruct (0 <=? n)%Z eqn:C1; destruct (n <=? 49)%Z eqn:C2;
    cbn [andb];
    repeat match goal with
           | H : (_ <=? _)%Z = true |- _ => apply Z.leb_le in H
           | H : (_ <=? _)%Z = false |- _ => apply Z.leb_gt in H
           end;
    try lia;
    repeat split; intros; try discriminate; try lia.
  - intros n Hn. unfold metascore_color.
    destruct (75 <=? n)%Z eqn:A1; destruct (n <=? 100)%Z eqn:A2; cbn [andb];
      try (eexists; split; [reflexivity|tauto]);
    (destruct (50 <=? n)%Z eqn:B1; destruct (n <=? 74)%Z eqn:B2; cbn [andb];
      try (eexists; split; [reflexivity|tauto]));
    (destruct (0 <=? n)%Z eqn:C1; destruct (n <=? 49)%Z eqn:C2; cbn [andb];
      try (eexists; split; [reflexivity|tauto]));
    repeat match goal with
           | H : (_ <=? _)%Z = true |- _ => apply Z.leb_le in H
           | H : (_ <=? _)%Z = false |- _ => apply Z.leb_gt in H
           end; lia.
Qed.

(** ** C5: image URL normaliser *)

(** C5. [normalize_rawg_image] is idempotent on every input, maps [None]
    to [None], and returns unchanged every URL that is empty or does not
    contain the media prefix. *)
Theorem normalize_rawg_image_idempotent :
  (forall u : option string,
      normalize_rawg_image (normalize_rawg_image u) = normalize_rawg_image u) /\
  normalize_rawg_image None = None /\
  normalize_rawg_image (Some EmptyString) = Some EmptyString /\
  (forall u : string,
      PyStr.contains MEDIA_PREFIX u = false ->
      normalize_rawg_image (Some u) = Some u).
Proof.
  split; [|split; [reflexivity|split; [reflexivity|]]].
  - intros [u|]; [|reflexivity].
    unfold normalize_rawg_image at 2 3.
    destruct (negb (PyStr.truthy u) || negb (PyStr.contains MEDIA_PREFIX u)) eqn:G.
    + unfold normalize_rawg_image. now rewrite G.
    + destruct (PyStr.split_first "/media/" u) as [[b tail]|] eqn:S.
      * rewrite normalize_canonical, strip_transform_idempotent. reflexivity.
      * unfold normalize_rawg_image. now rewrite G, S.
  - intros u H. unfold normalize_rawg_image. rewrite H.
    now rewrite orb_true_r.
Qed.

Lemma metascore_color_partition_witness :
  metascore_color (Some 82%Z) = Some "green" /\
  exists c, metascore_color (Some 50%Z) = Some c /\
            (c = "green" \/ c = "yellow" \/ c = "red").
Proof.
  destruct metascore_color_partition as [_ [H K]]. split.
  - apply (proj1 (H 82%Z)). lia.
  - apply (K 50%Z). lia.
Defined.

Lemma normalize_rawg_image_idempotent_witness :
  normalize_rawg_image (Some "https://cdn.example/img/a.jpg")
  = Some "https://cdn.example/img/a.jpg".
Proof.
  destruct normalize_rawg_image_idempotent as [_ [_ [_ H]]].
  apply H. reflexivity.
Defined.

(** The normaliser on the two transformed shapes, on a canonical URL and
    on a transformed URL without a [games] segment. *)
Example normalize_crop :
  normalize_rawg_image (Some "https://media.rawg.io/media/crop/600/400/games/abc/x.jpg")
  = Some "https://media.rawg.io/media/games/abc/x.jpg".
Proof. reflexivity. Qed.

Example normalize_resize :
  normalize_rawg_image (Some "https://media.rawg.io/media/resize/640/-/games/abc/x.jpg")
  = Some "https://media.rawg.io/media/games/abc/x.jpg".
Proof. reflexivity. Qed.

Example normalize_canonical_url :
  normalize_rawg_image (Some "https://media.rawg.io/media/games/abc/x.jpg")
  = Some "https://media.rawg.io/media/games/abc/x.jpg".
Proof. reflexivity. Qed.

Example normalize_no_games_segment :
  normalize_rawg_image (Some "https://media.rawg.io/media/crop/600/400/screenshots/x.jpg")
  = Some "https://media.rawg.io/media/crop/600/400/screenshots/x.jpg".
Proof. reflexivity. Qed.

Example strip_example : PyStr.strip "  Studio 	" = "Studio".
Proof. reflexivity. Qed.

(** ** C7: the 404 result of the transport client *)

Lemma rawg_get_loop_retryable {A : Type} (serve : nat -> response A) :
  (forall k, retryable (status_code (serve k)) = true) ->
  forall remaining attempt,
    fst (rawg_get_loop (answering serve) attempt remaining) = Ok None.
Proof.
  intros H. induction remaining as [|n IH]; intros attempt; [reflexivity|].
  cbn [rawg_get_loop answering]. specialize (H attempt). unfold retryable in H.
  specialize (IH (S attempt)).
  destruct (rawg_get_loop (answering serve) (S attempt) n) as [res tr]. cbn [fst] in IH.
  destruct (status_code (serve attempt) =? 200)%Z eqn:E200.
  { apply Z.eqb_eq in E200. rewrite E200 in H. discriminate H. }
  destruct (status_code (serve attempt) =? 404)%Z eqn:E404.
  { apply Z.eqb_eq in E404. rewrite E404 in H. discriminate H. }
  destruct (status_code (serve attempt) =? 429)%Z eqn:E429; [exact IH|].
  cbn [orb] in H. rewrite H. exact IH.
Qed.

(** An exception leaves the loop at the attempt that caused it, which is
    the last request of the call. *)
Lemma rawg_get_loop_raised {A : Type} (serve : nat -> outcome A) :
  forall remaining attempt e tr,
    rawg_get_loop serve attempt remaining = (Raise e, tr) ->
    exists k, (attempt <= k < attempt + remaining)%nat /\
              raised_at (serve k) e /\
              requests tr = (k - attempt + 1)%nat.
Proof.
  induction remaining as [|n IH]; intros attempt e tr H; [discriminate H|].
  cbn [rawg_get_loop] in H.
  assert (Later : forall tr',
             rawg_get_loop serve (S attempt) n = (Raise e, tr') ->
             exists k, (attempt <= k < attempt + S n)%nat /\
                       raised_at (serve k) e /\
                       S (requests tr') = (k - attempt + 1)%nat).
  { intros tr' H'. destruct (IH _ _ _ H') as [k [Hk [Hs Hn]]].
    exists k. split; [lia|]. split; [exact Hs|]. lia. }
  destruct (serve attempt) as [r|t] eqn:Es.
  - destruct (status_code r =? 200)%Z eqn:E200; [discriminate H|].
    destruct (status_code r =? 404)%Z eqn:E404; [discriminate H|].
    destruct (status_code r =? 429)%Z eqn:E429.
    { destruct (rawg_get_loop serve (S attempt) n) as [res tr'] eqn:Er.
      injection H as -> <-. exact (Later tr' eq_refl). }
    destruct ((status_code r =? 500) || (status_code r =? 502)
              || (status_code r =? 503) || (status_code r =? 504))%Z eqn:E5.
    { destruct (rawg_get_loop serve (S attempt) n) as [res tr'] eqn:Er.
      injection H as -> <-. exact (Later tr' eq_refl). }
    destruct (raises_for_status (status_code r)) eqn:Er.
    + injection H as <- <-. exists attempt. split; [lia|]. split.
      * rewrite Es. cbn [raised_at]. split; [|reflexivity].
        unfold raises_for_status in Er. unfold unexpected_status, retryable.
        apply andb_true_iff in Er as [Lo Hi].
        apply Z.leb_le in Lo. apply Z.ltb_lt in Hi. apply Z.eqb_neq in E404.
        rewrite E429. cbn [orb]. now rewrite E5.
      * cbn. lia.
    + destruct (rawg_get_loop serve (S attempt) n) as [res tr'] eqn:Er'.
      injection H as -> <-. exact (Later tr' eq_refl).
  - injection H as <- <-. exists attempt. split; [lia|]. split.
    + rewrite Es. reflexivity.
    + cbn. lia.
Qed.

(** C7, as the code has it.  A 404 ends [_rawg_get] at once: at whatever
    attempt it arrives, that request is the last one and no sleep follows
    it.  The caller receives [None], which is also what it receives when
    every attempt met a 429 or 5xx status and when a 200 carried a body
    that does not parse.  The call ends differently, with an exception,
    only when one of its attempts was answered with an unexpected status,
    whose [HTTPError] it is, or was not answered at all. *)
Theorem rawg_get_404_not_retried :
  forall (A : Type) (serve : nat -> response A),
    (forall attempt remaining,
        status_code (serve attempt) = 404%Z ->
        rawg_get_loop (answering serve) attempt (S remaining)
        = (Ok None, [Get attempt])) /\
    (status_code (serve 1%nat) = 404%Z ->
        _rawg_get_trace (answering serve) = (Ok None, [Get 1%nat]) /\
        requests (snd (_rawg_get_trace (answering serve))) = 1%nat) /\
    ((forall k, retryable (status_code (serve k)) = true) ->
        _rawg_get (answering serve) = Ok None) /\
    (status_code (serve 1%nat) = 200%Z -> json (serve 1%nat) = None ->
        _rawg_get (answering serve) = Ok None) /\
    (forall (attempts : nat -> outcome A) (e : exn),
        _rawg_get attempts = Raise e ->
        exists k, (1 <= k <= 3)%nat /\ raised_at (attempts k) e).
Proof.
  intros A serve. split; [|split; [|split; [|split]]].
  - intros attempt remaining H. cbn [rawg_get_loop answering]. rewrite H. reflexivity.
  - intros H. unfold _rawg_get_trace. cbn [rawg_get_loop answering]. rewrite H.
    split; reflexivity.
  - intros H. unfold _rawg_get, _rawg_get_trace. now apply rawg_get_loop_retryable.
  - intros H J. unfold _rawg_get, _rawg_get_trace. cbn [rawg_get_loop answering].
    rewrite H. cbn. now rewrite J.
  - intros attempts e H. unfold _rawg_get, _rawg_get_trace in H.
    destruct (rawg_get_loop attempts 1 3) as [res tr] eqn:E. cbn [fst] in H. subst res.
    destruct (rawg_get_loop_raised attempts _ _ _ _ E) as [k [Hk [Hr _]]].
    exists k. split; [lia|exact Hr].
Qed.

Lemma rawg_get_404_not_retried_witness :
  _rawg_get_trace (always (A:=details) 404 None) = (Ok None, [Get 1%nat]) /\
  _rawg_get (always (A:=details) 503 None) = Ok None /\
  (exists k, (1 <= k <= 3)%nat /\
             raised_at (always (A:=details) 403 None k) (HTTPError 403)) /\
  (exists k, (1 <= k <= 3)%nat /\
             raised_at (unreachable (A:=details) k) (RequestException ConnectionError)).
Proof.
  destruct (rawg_get_404_not_retried details
              (fun _ => {| status_code := 404; json := None |})) as [_ [H [_ [_ R]]]].
  destruct (rawg_get_404_not_retried details
              (fun _ => {| status_code := 503; json := None |})) as [_ [_ [K _]]].
  split; [|split; [|split]].
  - exact (proj1 (H eq_refl)).
  - exact (K (fun k => eq_refl)).
  - apply (R (always 403 None)). reflexivity.
  - apply (R unreachable). reflexivity.
Defined.

(** C7, as stated, fails: the result of a 404 is the very value the
    caller gets when the retries are used up on 503 and when a 200 has
    an unparseable body. *)
Lemma rawg_get_404_indistinguishable :
  _rawg_get (always (A:=details) 404 None) = _rawg_get (always (A:=details) 503 None) /\
  _rawg_get (always (A:=details) 404 None) = _rawg_get (always (A:=details) 429 None) /\
  _rawg_get (always (A:=details) 404 None) = _rawg_get (always (A:=details) 200 None).
Proof. repeat split; reflexivity. Qed.

(** ** C3 and C10: completeness oracle *)


Lemma no_row_iff {R : Type} (game_id : R -> Z) (gid : Z) (t : list R) :
  no_row game_id gid t = true <-> has_no_row game_id gid t.
Proof.
  unfold no_row, has_no_row. rewrite negb_true_iff. split.
  - intros H r Hin Heq.
    assert (E : existsb (fun r => (game_id r =? gid)%Z) t = true).
    { apply existsb_exists. exists r. split; [exact Hin|now apply Z.eqb_eq]. }
    congruence.
  - intros H. destruct (existsb _ t) eqn:E; [|reflexivity].
    apply existsb_exists in E as [r [Hin Heq]]. apply Z.eqb_eq in Heq.
    now destruct (H r Hin).
Qed.

Lemma find_game_none (t : list game_row) (gid : Z) :
  find_game t gid = None <-> has_no_row g_id gid t.
Proof.
  unfold find_game, has_no_row. split.
  - intros H r Hin Heq.
    pose proof (find_none _ _ H r Hin) as F. cbn in F.
    apply Z.eqb_neq in F. contradiction.
  - intros H. destruct (find _ t) as [r|] eqn:E; [|reflexivity].
    apply find_some in E as [Hin Heq]. apply Z.eqb_eq in Heq.
    now destruct (H r Hin).
Qed.





(** ** C1: merge of the scalar fields *)

Lemma find_game_exists (t : list game_row) (gid : Z) (r : game_row) (new : game_row) :
  find_game t gid = Some r -> g_id new = gid ->
  insert_or_ignore same_game new t = t.
Proof.
  intros H Hid. unfold insert_or_ignore.
  apply find_some in H as [Hin Heq].
  assert (E : existsb (same_game new) t = true).
  { apply existsb_exists. exists r. split; [exact Hin|].
    unfold same_game. rewrite Hid. apply Z.eqb_eq in Heq. now apply Z.eqb_eq. }
  now rewrite E.
Qed.

Lemma find_game_update (f : game_row -> game_row) (t : list game_row) (gid : Z) (r : game_row) :
  (forall x, g_id (f x) = g_id x) ->
  find_game t gid = Some r ->
  find_game (update_game f gid t) gid = Some (f r).
Proof.
  intros Hf. unfold find_game, update_game.
  induction t as [|x t IH]; [discriminate|].
  cbn [find map]. destruct (g_id x =? gid)%Z eqn:E.
  - intros H. injection H as <-. rewrite Hf, E. reflexivity.
  - rewrite E. exact IH.
Qed.







(** ** C9: suggestion rows *)

Lemma filter_filter {A : Type} (f g : A -> bool) (l : list A) :
  filter f (filter g l) = filter (fun x => g x && f x) l.
Proof.
  induction l as [|x l IH]; [reflexivity|].
  cbn. destruct (g x); cbn; [destruct (f x)|]; now rewrite IH.
Qed.

Lemma filter_all {A : Type} (f : A -> bool) (l : list A) :
  (forall x, f x = true) -> filter f l = l.
Proof.
  intros H. induction l as [|x l IH]; [reflexivity|].
  cbn. now rewrite H, IH.
Qed.

Lemma suggestion_rows_outside (gid : Z) (l : list suggestion) (lo pos : Z) (n : nat) :
  (lo + Z.of_nat n <= pos)%Z ->
  filter (fun x => negb (in_positions gid lo n x)) (suggestion_rows gid l pos)
  = suggestion_rows gid l pos.
Proof.
  revert pos. induction l as [|s l IH]; intros pos H; [reflexivity|].
  cbn [suggestion_rows filter].
  unfold in_positions at 1. cbn [suggestion_row_of sr_game_id sr_position].
  replace (pos <? lo + Z.of_nat n)%Z with false by (symmetry; apply Z.ltb_ge; lia).
  rewrite andb_false_r. cbn [negb]. rewrite IH by lia. reflexivity.
Qed.

(** The rows of one [executemany] of [store_suggestions] replace exactly
    the positions they carry. *)
Lemma executemany_replace_suggestions (gid : Z) (l : list suggestion) (pos : Z)
    (t : list suggestion_row) :
  executemany_replace same_suggestion (suggestion_rows gid l pos) t
  = filter (fun x => negb (in_positions gid pos (length l) x)) t
    ++ suggestion_rows gid l pos.
Proof.
  revert pos t. induction l as [|s l IH]; intros pos t.
  - cbn [suggestion_rows executemany_replace fold_left length].
    rewrite filter_all, app_nil_r; [reflexivity|].
    intros x. unfold in_positions. cbn.
    destruct (sr_game_id x =? gid)%Z; cbn; [|reflexivity].
    destruct (pos <=? sr_position x)%Z eqn:A; cbn; [|reflexivity].
    apply Z.leb_le in A.
    replace (sr_position x <? pos + 0)%Z with false by (symmetry; apply Z.ltb_ge; lia).
    reflexivity.
  - cbn [suggestion_rows executemany_replace fold_left].
    fold (executemany_replace same_suggestion (suggestion_rows gid l (pos + 1))
            (insert_or_replace same_suggestion (suggestion_row_of gid pos s) t)).
    rewrite IH. unfold insert_or_replace.
    rewrite filter_app, filter_filter.
    cbn [filter]. unfold in_positions at 2.
    cbn [suggestion_row_of sr_game_id sr_position].
    replace (pos + 1 <=? pos)%Z with false by (symmetry; apply Z.leb_gt; lia).
    rewrite andb_false_r. cbn [andb negb].
    rewrite <- app_assoc. cbn [app]. f_equal.
    apply filter_ext. intros x.
    unfold same_suggestion, in_positions.
    cbn [suggestion_row_of sr_game_id sr_position length].
    rewrite (Z.eqb_sym gid).
    destruct (sr_game_id x =? gid)%Z; cbn [andb negb]; [|reflexivity].
    destruct (pos =? sr_position x)%Z eqn:E1;
    destruct (pos + 1 <=? sr_position x)%Z eqn:E2;
    destruct (sr_position x <? pos + 1 + Z.of_nat (length l))%Z eqn:E3;
    destruct (pos <=? sr_position x)%Z eqn:E4;
    destruct (sr_position x <? pos + Z.of_nat (S (length l)))%Z eqn:E5;
    cbn; try reflexivity; exfalso;
    repeat match goal with
           | H : (_ =? _)%Z = true |- _ => apply Z.eqb_eq in H
           | H : (_ =? _)%Z = false |- _ => apply Z.eqb_neq in H
           | H : (_ <=? _)%Z = true |- _ => apply Z.leb_le in H
           | H : (_ <=? _)%Z = false |- _ => apply Z.leb_gt in H
           | H : (_ <? _)%Z = true |- _ => apply Z.ltb_lt in H
           | H : (_ <? _)%Z = false |- _ => apply Z.ltb_ge in H
           end; lia.
Qed.




(** ** C6: pagination of the screenshots *)

Lemma collect_page_full (res : list shot_item) (C : Z) :
  Forall has_image res ->
  forall out : list image_rec,
    (Z.of_nat (length out) < C)%Z ->
    let r := collect_page res out C in
    if (Z.of_nat (length out + length res) <? C)%Z
    then snd r = false /\ length (fst r) = (length out + length res)%nat
    else snd r = true /\ Z.of_nat (length (fst r)) = C.
Proof.
  induction 1 as [|item rest Hi Hrest IH]; intros out Hlt; cbn zeta.
  - cbn [collect_page length fst snd]. rewrite Nat.add_0_r.
    replace (Z.of_nat (length out) <? C)%Z with true by (symmetry; apply Z.ltb_lt; lia).
    split; reflexivity.
  - cbn [collect_page]. unfold has_image in Hi. rewrite Hi. cbn [negb].
    set (x := {| im_image := normalize_rawg_image (sh_image item);
                 im_width := sh_width item; im_height := sh_height item |}).
    assert (L : length (out ++ [x]) = S (length out)).
    { rewrite length_app. cbn. lia. }
    destruct (Z.of_nat (length (out ++ [x])) >=? C)%Z eqn:G.
    + cbn [fst snd].
      replace (Z.of_nat (length out + length (item :: rest)) <? C)%Z with false
        by (symmetry; apply Z.ltb_ge; cbn [length]; lia).
      split; [reflexivity|]. lia.
    + assert (Hlt' : (Z.of_nat (length (out ++ [x])) < C)%Z) by lia.
      specialize (IH (out ++ [x]) Hlt'). cbn zeta in IH.
      rewrite L in IH.
      replace (length out + length (item :: rest))%nat
        with (S (length out) + length rest)%nat by (cbn [length]; lia).
      destruct (Z.of_nat (S (length out) + length rest) <? C)%Z; exact IH.
Qed.

Lemma ceil_div_between (C ps k : Z) :
  (0 < ps)%Z -> ((k - 1) * ps < C)%Z -> (C <= k * ps)%Z ->
  ((C + ps - 1) / ps = k)%Z.
Proof.
  intros Hps Hlo Hhi. symmetry.
  apply (Z.div_unique_pos _ _ k (C + ps - 1 - ps * k)); lia.
Qed.

Lemma screenshots_loop_simulated (serve : Z -> nat -> outcome (page shot_item))
    (n ps : nat) (C : Z) :
  (1 <= ps)%nat -> simulated_pages serve n ps ->
  forall (fuel j : nat) (out : list image_rec),
    (j < n)%nat -> (n - j <= fuel)%nat ->
    length out = (j * ps)%nat ->
    (Z.of_nat (j * ps) < C)%Z ->
    exists imgs sent,
      screenshots_loop fuel serve C (Z.of_nat (S j)) out j = Some (Ok imgs, sent) /\
      Z.of_nat (length imgs) = Z.min (Z.of_nat (n * ps)) C /\
      Z.of_nat sent = ((Z.min (Z.of_nat (n * ps)) C + Z.of_nat ps - 1) / Z.of_nat ps)%Z.
Proof.
  intros Hps Hsim.
  induction fuel as [|fuel IH]; intros j out Hj Hfuel Hlen Hlt; [lia|].
  destruct (Hsim (S j)) as [p [Hresp [Hsize [Himg Hnext]]]]; [lia|].
  cbn [screenshots_loop]. unfold _rawg_get_trace. cbn [rawg_get_loop].
  rewrite Hresp. cbn [status_code json Z.eqb Pos.eqb requests filter is_get length
                      results_or_empty next_of].
  assert (Hout : (Z.of_nat (length out) < C)%Z) by (rewrite Hlen; exact Hlt).
  pose proof (collect_page_full (results p) C Himg out Hout) as Hc. cbn zeta in Hc.
  destruct (collect_page (results p) out C) as [out' returned]. cbn [fst snd] in Hc.
  rewrite Hsize, Hlen in Hc.
  assert (Hkps : (j * ps + ps = S j * ps)%nat) by nia.
  rewrite Hkps in Hc.
  assert (Hmono : (S j * ps <= n * ps)%nat) by nia.
  replace (j + 1)%nat with (S j) by lia.
  destruct (Z.of_nat (S j * ps) <? C)%Z eqn:Hfull.
  - apply Z.ltb_lt in Hfull. destruct Hc as [-> Hl].
    rewrite Hnext.
    destruct (S j <? n)%nat eqn:Hkn; cbn [negb].
    + apply Nat.ltb_lt in Hkn.
      replace (Z.of_nat (S j) + 1)%Z with (Z.of_nat (S (S j))) by lia.
      apply IH; try assumption; lia.
    + apply Nat.ltb_ge in Hkn. assert (S j = n) by lia. subst n.
      exists out', (S j). split; [reflexivity|].
      rewrite Z.min_l by lia. split; [now rewrite Hl|].
      symmetry. apply ceil_div_between; nia.
  - apply Z.ltb_ge in Hfull. destruct Hc as [-> Hl].
    exists out', (S j). split; [reflexivity|].
    rewrite Z.min_r by lia. split; [exact Hl|].
    symmetry. apply ceil_div_between; nia.
Qed.

(** C6, for caps of at least one image.  Over a sub-resource of [n >= 1]
    pages of [page_size >= 1] entries that all carry an image, and with a
    cap [C >= 1], [fetch_all_screenshots] returns, for any fuel of at
    least [n], exactly [min(n*page_size, C)] images after exactly
    [ceil(min(n*page_size, C) / page_size)] HTTP requests, which is [n]
    requests when the pages hold no more than the cap. *)
Theorem fetch_all_screenshots_pagination :
  forall (up : upstream) (gid : Z) (n page_size : nat) (C : Z) (fuel : nat),
    (1 <= n)%nat -> (1 <= page_size)%nat -> (1 <= C)%Z ->
    simulated_pages (up_screenshots up gid) n page_size ->
    (n <= fuel)%nat ->
    exists imgs sent,
      fetch_all_screenshots_counting fuel up gid C = Some (Ok imgs, sent) /\
      fetch_all_screenshots fuel up gid C = Some (Ok imgs) /\
      Z.of_nat (length imgs) = Z.min (Z.of_nat (n * page_size)) C /\
      Z.of_nat sent
      = ((Z.min (Z.of_nat (n * page_size)) C + Z.of_nat page_size - 1)
         / Z.of_nat page_size)%Z /\
      ((Z.of_nat (n * page_size) <= C)%Z -> sent = n).
Proof.
  intros up gid n ps C fuel Hn Hps HC Hsim Hfuel.
  destruct (screenshots_loop_simulated _ n ps C Hps Hsim fuel 0 [])
    as [imgs [sent [Hrun [Hlen Hsent]]]]; try (cbn; lia).
  exists imgs, sent.
  unfold fetch_all_screenshots, fetch_all_screenshots_counting.
  change (Z.of_nat 1) with 1%Z in Hrun. rewrite Hrun. cbn [option_map fst].
  repeat split; try assumption.
  intros Hle. rewrite Z.min_l in Hsent by exact Hle.
  assert (E : ((Z.of_nat (n * ps) + Z.of_nat ps - 1) / Z.of_nat ps = Z.of_nat n)%Z).
  { apply ceil_div_between; nia. }
  lia.
Qed.

Lemma sample_pages_simulated (n page_size : nat) :
  simulated_pages (sample_pages n page_size) n page_size.
Proof.
  intros k Hk. unfold sample_pages.
  replace ((1 <=? Z.of_nat k) && (Z.of_nat k <=? Z.of_nat n))%Z with true
    by (symmetry; apply andb_true_iff; split; apply Z.leb_le; lia).
  eexists. split; [reflexivity|]. cbn [results next].
  split; [apply repeat_length|]. split.
  - apply Forall_forall. intros x Hx. apply repeat_spec in Hx. subst x. reflexivity.
  - destruct (k <? n)%nat eqn:E.
    + apply Nat.ltb_lt in E.
      replace (Z.of_nat k <? Z.of_nat n)%Z with true by (symmetry; apply Z.ltb_lt; lia).
      reflexivity.
    + apply Nat.ltb_ge in E.
      replace (Z.of_nat k <? Z.of_nat n)%Z with false by (symmetry; apply Z.ltb_ge; lia).
      reflexivity.
Qed.

Lemma fetch_all_screenshots_pagination_witness :
  exists imgs sent,
    fetch_all_screenshots_counting 3 (screenshots_only 3 4) 1 5 = Some (Ok imgs, sent) /\
    length imgs = 5%nat /\ sent = 2%nat.
Proof.
  destruct (fetch_all_screenshots_pagination (screenshots_only 3 4) 1 3 4 5 3)
    as [imgs [sent [Hrun [_ [Hlen [Hsent _]]]]]]; try lia.
  - apply sample_pages_simulated.
  - exists imgs, sent. split; [exact Hrun|].
    change (Z.min (Z.of_nat (3 * 4)) 5) with 5%Z in Hlen, Hsent.
    change ((5 + Z.of_nat 4 - 1) / Z.of_nat 4)%Z with 2%Z in Hsent.
    lia.
Defined.

(** C6, as stated, fails at a cap of zero: one page of one entry yields
    one image after one request, where the claim wants none of either. *)
Lemma fetch_all_screenshots_cap_zero :
  simulated_pages (up_screenshots (screenshots_only 1 1) 1) 1 1 /\
  exists imgs,
    fetch_all_screenshots_counting 1 (screenshots_only 1 1) 1 0 = Some (Ok imgs, 1%nat) /\
    length imgs = 1%nat /\
    Z.of_nat (length imgs) <> Z.min (Z.of_nat (1 * 1)) 0.
Proof.
  split; [apply sample_pages_simulated|].
  eexists. split; [reflexivity|]. split; [reflexivity|]. cbn. lia.
Qed.

(** ** C2: what a second enrichment adds *)

Section InsertOrIgnore.

Context {R : Type}.
Variable conflict : R -> R -> bool.
Hypothesis conflict_refl : forall r, conflict r r = true.

Lemma insert_or_ignore_keeps (x r : R) (t : list R) :
  existsb (conflict x) t = true ->
  existsb (conflict x) (insert_or_ignore conflict r t) = true.
Proof.
  intros H. unfold insert_or_ignore.
  destruct (existsb (conflict r) t); [exact H|].
  rewrite existsb_app, H. reflexivity.
Qed.

Lemma insert_or_ignore_present (r : R) (t : list R) :
  existsb (conflict r) (insert_or_ignore conflict r t) = true.
Proof.
  unfold insert_or_ignore.
  destruct (existsb (conflict r) t) eqn:E; [exact E|].
  rewrite existsb_app. cbn. rewrite conflict_refl. apply orb_true_r.
Qed.

Lemma executemany_ignore_keeps (x : R) (rows t : list R) :
  existsb (conflict x) t = true ->
  existsb (conflict x) (executemany_ignore conflict rows t) = true.
Proof.
  unfold executemany_ignore. revert t.
  induction rows as [|r rows IH]; intros t H; [exact H|].
  cbn [fold_left]. apply IH, insert_or_ignore_keeps, H.
Qed.

Lemma executemany_ignore_covers (rows t : list R) :
  covered conflict rows (executemany_ignore conflict rows t).
Proof.
  unfold executemany_ignore. revert t.
  induction rows as [|r rows IH]; intros t x Hin; [destruct Hin|].
  cbn [fold_left]. destruct Hin as [<-|Hin].
  - apply (executemany_ignore_keeps r rows), insert_or_ignore_present.
  - apply IH, Hin.
Qed.

Lemma covered_keeps (rows rows' t : list R) :
  covered conflict rows t -> covered conflict rows (executemany_ignore conflict rows' t).
Proof. intros H r Hin. apply executemany_ignore_keeps, H, Hin. Qed.

Lemma executemany_ignore_covered (rows t : list R) :
  covered conflict rows t -> executemany_ignore conflict rows t = t.
Proof.
  unfold executemany_ignore. revert t.
  induction rows as [|r rows IH]; intros t H; [reflexivity|].
  cbn [fold_left]. unfold insert_or_ignore at 2.
  rewrite (H r (or_introl eq_refl)).
  apply IH. intros x Hin. apply H. now right.
Qed.

(** Running the same [executemany] again inserts nothing. *)
Lemma executemany_ignore_idempotent (rows t : list R) :
  executemany_ignore conflict rows (executemany_ignore conflict rows t)
  = executemany_ignore conflict rows t.
Proof. apply executemany_ignore_covered, executemany_ignore_covers. Qed.

(** The same holds after a second batch went into the table. *)
Lemma executemany_ignore_idempotent_after (rows rows' t : list R) :
  executemany_ignore conflict rows
    (executemany_ignore conflict rows' (executemany_ignore conflict rows t))
  = executemany_ignore conflict rows' (executemany_ignore conflict rows t).
Proof. apply executemany_ignore_covered, covered_keeps, executemany_ignore_covers. Qed.

Lemma executemany_if_any_eq (rows t : list R) :
  executemany_if_any conflict rows t = executemany_ignore conflict rows t.
Proof. destruct rows; reflexivity. Qed.

End InsertOrIgnore.

Lemma same_pair_refl (r : Z * string) : same_pair r r = true.
Proof. unfold same_pair. now rewrite Z.eqb_refl, String.eqb_refl. Qed.

(** On a table without a key the rows are appended. *)
Lemma executemany_no_key {R : Type} (rows t : list R) :
  executemany_ignore no_key rows t = t ++ rows.
Proof.
  unfold executemany_ignore. revert t.
  induction rows as [|r rows IH]; intros t; [now rewrite app_nil_r|].
  cbn [fold_left]. unfold insert_or_ignore at 2.
  replace (existsb (no_key r) t) with false
    by (symmetry; clear; induction t; [reflexivity|assumption]).
  rewrite IH, <- app_assoc. reflexivity.
Qed.

Lemma same_vocab_refl (r : Z * option string) : same_vocab r r = true.
Proof. unfold same_vocab. now rewrite Z.eqb_refl. Qed.

Lemma same_link_refl (r : Z * Z) : same_link r r = true.
Proof. unfold same_link. now rewrite !Z.eqb_refl. Qed.

Lemma same_media_refl (r : media_row) : same_media r r = true.
Proof.
  unfold same_media. rewrite Z.eqb_refl, String.eqb_refl.
  now destruct (m_type r).
Qed.

Lemma same_store_refl (r : store_row) : same_store r r = true.
Proof. unfold same_store. now rewrite Z.eqb_refl. Qed.

Lemma same_game_store_refl (r : Z * Z * option string) : same_game_store r r = true.
Proof. unfold same_game_store. now rewrite !Z.eqb_refl. Qed.

(** *** Closed forms of the upserts *)

(** The genres a details record contributes: identifier and trimmed
    name of every entry with a truthy identifier and name. *)
Lemma upsert_genres_closed (gid : Z) (l : list genre_obj) :
  exists vrows lrows,
    forall v lk,
      upsert_genres gid l v lk
      = (executemany_ignore same_vocab vrows v, executemany_ignore same_link lrows lk).
Proof.
  induction l as [|g l [vrows [lrows IH]]].
  - exists [], []. reflexivity.
  - cbn [upsert_genres].
    destruct (gn_id g) as [i|]; [|now exists vrows, lrows].
    destruct (gn_name g) as [nm|]; [|now exists vrows, lrows].
    destruct (negb (i =? 0)%Z && PyStr.truthy nm); [|now exists vrows, lrows].
    exists ((i, Some (PyStr.strip nm)) :: vrows), ((gid, i) :: lrows).
    intros v lk. rewrite IH. reflexivity.
Qed.

Lemma upsert_platforms_closed (gid : Z) (l : list platform_entry) :
  exists vrows lrows,
    forall v lk,
      upsert_platforms gid l v lk
      = (executemany_ignore same_vocab vrows v, executemany_ignore same_link lrows lk).
Proof.
  induction l as [|p l [vrows [lrows IH]]].
  - exists [], []. reflexivity.
  - cbn [upsert_platforms].
    destruct (pe_platform p) as [plat|]; [|now exists vrows, lrows].
    destruct (pf_id plat) as [i|]; [|now exists vrows, lrows].
    destruct (pf_name plat) as [nm|]; [|now exists vrows, lrows].
    destruct (negb (i =? 0)%Z && PyStr.truthy nm); [|now exists vrows, lrows].
    exists ((i, Some (PyStr.strip nm)) :: vrows), ((gid, i) :: lrows).
    intros v lk. rewrite IH. reflexivity.
Qed.

Lemma upsert_stores_closed (gid : Z) (l : list store_entry) :
  exists vrows lrows,
    forall v rows_link,
      upsert_stores gid l v rows_link
      = (executemany_ignore same_store vrows v, rows_link ++ lrows).
Proof.
  induction l as [|s l [vrows [lrows IH]]].
  - exists [], []. intros v rows_link. now rewrite app_nil_r.
  - cbn [upsert_stores].
    destruct (store_id_of s) as [sid|]; [|now exists vrows, lrows].
    destruct (negb (sid =? 0)%Z); [|now exists vrows, lrows].
    eexists (_ :: vrows), (_ :: lrows).
    intros v rows_link. rewrite IH, <- app_assoc. reflexivity.
Qed.

Lemma set_games_same (conn : db) : set_games conn (games conn) = conn.
Proof. now destruct conn. Qed.

Lemma set_suggestions_same (conn : db) :
  set_suggestions conn (game_suggestions conn) = conn.
Proof. now destruct conn. Qed.

Lemma set_media_same (conn : db) : set_media conn (media conn) = conn.
Proof. now destruct conn. Qed.

Lemma set_screenshots_same (conn : db) : set_screenshots conn (screenshots conn) = conn.
Proof. now destruct conn. Qed.

Lemma cover_fallback_closed (conn : db) (gid : Z) (images : list image_rec) :
  cover_fallback_from_images conn gid images
  = set_games conn (games (cover_fallback_from_images conn gid images)).
Proof.
  unfold cover_fallback_from_images.
  destruct (find_game (games conn) gid) as [row|]; [|now rewrite set_games_same].
  destruct (PyStr.truthy _); [now rewrite set_games_same|].
  destruct images; [now rewrite set_games_same|].
  now destruct conn.
Qed.

(** The legacy mirror of [store_media_images], on the [screenshots]
    table alone. *)
Lemma store_media_images_closed (conn : db) (gid : Z) (images : list image_rec) :
  store_media_images conn gid images
  = set_screenshots
      (set_media conn
         (executemany_ignore same_media (fst (image_rows gid images 1)) (media conn)))
      (if no_row fst gid (screenshots conn)
       then screenshots conn ++ snd (image_rows gid images 1)
       else screenshots conn).
Proof.
  unfold store_media_images.
  destruct images as [|i l].
  - cbn [image_rows fst snd executemany_ignore fold_left].
    rewrite app_nil_r. destruct (no_row _ _ _); now destruct conn.
  - destruct (image_rows gid (i :: l) 1) as [rm rl]. cbn [fst snd].
    rewrite executemany_if_any_eq.
    cbn [screenshots set_media].
    destruct (no_row fst gid (screenshots conn)).
    + destruct rl; [|reflexivity].
      rewrite app_nil_r. now destruct conn.
    + now destruct conn.
Qed.

Lemma store_media_videos_closed (conn : db) (gid : Z) (videos : list movie_rec) :
  store_media_videos conn gid videos
  = set_media conn
      (executemany_ignore same_media (video_rows gid videos 1) (media conn)).
Proof.
  unfold store_media_videos. destruct videos as [|v l].
  - cbn. now rewrite set_media_same.
  - now rewrite executemany_if_any_eq.
Qed.

Lemma store_suggestions_closed (conn : db) (gid : Z) (l : list suggestion) :
  store_suggestions conn gid l
  = set_suggestions conn
      (executemany_replace same_suggestion (suggestion_rows gid (firstn 8 l) 1)
         (game_suggestions conn)).
Proof.
  unfold store_suggestions. destruct l; [|reflexivity].
  cbn. now rewrite set_suggestions_same.
Qed.

(** *** Idempotence of the single tables *)

Lemma image_rows_legacy_gid (gid : Z) (images : list image_rec) (pos : Z) :
  forall r, In r (snd (image_rows gid images pos)) -> fst r = gid.
Proof.
  revert pos. induction images as [|i l IH]; intros pos r Hin; [destruct Hin|].
  cbn [image_rows] in Hin.
  destruct (im_image i) as [url|]; [|exact (IH _ _ Hin)].
  destruct (PyStr.truthy url); [|exact (IH _ _ Hin)].
  specialize (IH (pos + 1)%Z r).
  destruct (image_rows gid l (pos + 1)) as [rm rl]. cbn [snd] in *.
  destruct (pos <=? 40)%Z; [|exact (IH Hin)].
  destruct Hin as [<-|Hin]; [reflexivity|exact (IH Hin)].
Qed.

Lemma legacy_idempotent (gid : Z) (rl t : list (Z * string)) :
  (forall r, In r rl -> fst r = gid) ->
  let t1 := if no_row fst gid t then t ++ rl else t in
  (if no_row fst gid t1 then t1 ++ rl else t1) = t1.
Proof.
  intros Hgid. cbn zeta.
  destruct (no_row fst gid t) eqn:E; [|now rewrite E].
  destruct rl as [|x rl].
  - rewrite !app_nil_r, E. reflexivity.
  - assert (F : no_row fst gid (t ++ x :: rl) = false).
    { unfold no_row. rewrite existsb_app. cbn [existsb].
      rewrite (Hgid x (or_introl eq_refl)), Z.eqb_refl.
      cbn. now rewrite orb_true_r. }
    now rewrite F.
Qed.

Lemma suggestion_rows_inside (gid : Z) (l : list suggestion) (lo pos : Z) (n : nat) :
  (lo <= pos)%Z -> (pos + Z.of_nat (length l) <= lo + Z.of_nat n)%Z ->
  filter (fun x => negb (in_positions gid lo n x)) (suggestion_rows gid l pos) = [].
Proof.
  revert pos. induction l as [|s l IH]; intros pos Hlo Hhi; [reflexivity|].
  cbn [suggestion_rows filter length] in *.
  unfold in_positions at 1. cbn [suggestion_row_of sr_game_id sr_position].
  rewrite Z.eqb_refl.
  replace (lo <=? pos)%Z with true by (symmetry; apply Z.leb_le; lia).
  replace (pos <? lo + Z.of_nat n)%Z with true by (symmetry; apply Z.ltb_lt; lia).
  cbn [andb negb]. apply IH; lia.
Qed.

Lemma executemany_replace_idempotent (gid : Z) (l : list suggestion) (t : list suggestion_row) :
  executemany_replace same_suggestion (suggestion_rows gid l 1)
    (executemany_replace same_suggestion (suggestion_rows gid l 1) t)
  = executemany_replace same_suggestion (suggestion_rows gid l 1) t.
Proof.
  rewrite !executemany_replace_suggestions.
  rewrite filter_app, filter_filter, suggestion_rows_inside by lia.
  rewrite app_nil_r. f_equal.
  apply filter_ext. intros x. now destruct (in_positions gid 1 (length l) x).
Qed.

(** Every run appends its batch to the link table. *)
Lemma upsert_related_app (serve : nat -> outcome (page related_item)) (gid : Z)
    (t : list (Z * string * string)) :
  upsert_related serve gid t = t ++ related_batch serve gid.
Proof.
  unfold upsert_related, related_batch.
  destruct (_rawg_get serve) as [j|e]; [|now rewrite app_nil_r].
  destruct (related_rows gid (results_or_empty j)) as [|r rows] eqn:E;
    [now rewrite app_nil_r|].
  cbn [executemany_if_any]. apply executemany_no_key.
Qed.

Lemma related_rows_count (gid g : Z) (l : list related_item) :
  count_rows (fun r : Z * string * string => fst (fst r)) g (related_rows gid l)
  = if (g =? gid)%Z then length (related_rows gid l) else 0%nat.
Proof.
  unfold count_rows. induction l as [|s l IH]; [now destruct (g =? gid)%Z|].
  cbn [related_rows].
  destruct (rl_name s) as [n|]; [|exact IH].
  destruct (rl_slug s) as [slug|]; [|exact IH].
  destruct (PyStr.truthy n && PyStr.truthy slug); [|exact IH].
  cbn [filter fst length]. rewrite (Z.eqb_sym gid g).
  destruct (g =? gid)%Z; cbn [length]; now rewrite IH.
Qed.

Lemma related_batch_count (serve : nat -> outcome (page related_item)) (gid g : Z) :
  count_rows (fun r : Z * string * string => fst (fst r)) g (related_batch serve gid)
  = if (g =? gid)%Z then length (related_batch serve gid) else 0%nat.
Proof.
  unfold related_batch. destruct (_rawg_get serve) as [j|e].
  - apply related_rows_count.
  - now destruct (g =? gid)%Z.
Qed.

(** The rows of an item in a link table after one more run. *)
Lemma upsert_related_count (serve : nat -> outcome (page related_item)) (gid g : Z)
    (t : list (Z * string * string)) :
  count_rows (fun r : Z * string * string => fst (fst r)) g (upsert_related serve gid t)
  = (count_rows (fun r : Z * string * string => fst (fst r)) g t
     + if (g =? gid)%Z then length (related_batch serve gid) else 0)%nat.
Proof.
  rewrite upsert_related_app. unfold count_rows at 1.
  rewrite filter_app, length_app. fold (count_rows (fun r : Z * string * string => fst (fst r)) g t).
  f_equal. apply related_batch_count.
Qed.

Lemma plus_links_none (c : link_counts) : plus_links c 0 0 = c.
Proof. destruct c. unfold plus_links. cbn. now rewrite !Nat.add_0_r. Qed.

(** *** Every step writes through one table setter *)

Lemma upsert_game_core_closed (conn : db) (d : details) :
  exists t, upsert_game_core conn d = set_games conn t.
Proof. unfold upsert_game_core. eexists. reflexivity. Qed.

Lemma cover_fallback_games_only (conn : db) (gid : Z) (images : list image_rec) :
  exists t, cover_fallback_from_images conn gid images = set_games conn t.
Proof. eexists. apply cover_fallback_closed. Qed.

Lemma upsert_genres_platforms_closed (gid : Z) (d : details) :
  exists gv gl pv pl,
    forall conn,
      upsert_genres_platforms conn gid d
      = set_platforms
          (set_genres conn (executemany_ignore same_vocab gv (genres conn))
             (executemany_ignore same_link gl (game_genres conn)))
          (executemany_ignore same_vocab pv (platforms conn))
          (executemany_ignore same_link pl (game_platforms conn)).
Proof.
  destruct (upsert_genres_closed gid (d_genres d)) as [gv [gl Hg]].
  destruct (upsert_platforms_closed gid (d_platforms d)) as [pv [pl Hp]].
  exists gv, gl, pv, pl. intros conn.
  unfold upsert_genres_platforms. rewrite Hg, Hp. reflexivity.
Qed.

Lemma upsert_store_links_closed (gid : Z) (d : details) :
  exists sv sl,
    forall conn,
      upsert_store_links conn gid d
      = set_stores conn (executemany_ignore same_store sv (stores conn))
          (executemany_ignore same_game_store sl (game_stores conn)).
Proof.
  destruct (upsert_stores_closed gid (d_stores d)) as [sv [sl Hs]].
  exists sv, sl. intros conn.
  unfold upsert_store_links. rewrite Hs, executemany_if_any_eq. reflexivity.
Qed.

Ltac db_simpl :=
  cbv beta iota zeta delta
      [games game_developers game_publishers game_tags game_series_links
       game_additions_links screenshots genres game_genres platforms
       game_platforms media stores game_stores game_suggestions
       set_games set_lists set_genres set_platforms set_stores set_series
       set_additions set_media set_screenshots set_suggestions].

(** What the writes that come from the details do to each relation
    table: an [INSERT OR IGNORE] of rows fixed by the details, or
    nothing. *)
Lemma enrich_core_tables (up : upstream) (gid : Z) (d : details) :
  exists devs pubs tags gl pl sl,
    forall c,
      game_developers (enrich_core up c gid d)
        = executemany_ignore same_pair devs (game_developers c) /\
      game_publishers (enrich_core up c gid d)
        = executemany_ignore same_pair pubs (game_publishers c) /\
      game_tags (enrich_core up c gid d)
        = executemany_ignore same_pair tags (game_tags c) /\
      game_genres (enrich_core up c gid d)
        = executemany_ignore same_link gl (game_genres c) /\
      game_platforms (enrich_core up c gid d)
        = executemany_ignore same_link pl (game_platforms c) /\
      game_stores (enrich_core up c gid d)
        = executemany_ignore same_game_store sl (game_stores c) /\
      game_series_links (enrich_core up c gid d)
        = upsert_related (up_series up gid) gid (game_series_links c) /\
      game_additions_links (enrich_core up c gid d)
        = upsert_related (up_additions up gid) gid (game_additions_links c) /\
      media (enrich_core up c gid d) = media c /\
      screenshots (enrich_core up c gid d) = screenshots c /\
      game_suggestions (enrich_core up c gid d) = game_suggestions c.
Proof.
  destruct (upsert_genres_platforms_closed gid (normalize_embedded d))
    as [gv [gl [pv [pl Hgp]]]].
  destruct (upsert_store_links_closed gid (normalize_embedded d)) as [sv [sl Hsl]].
  exists (name_rows gid (d_developers (normalize_embedded d))),
         (name_rows gid (d_publishers (normalize_embedded d))),
         (name_rows gid (d_tags (normalize_embedded d))), gl, pl, sl.
  intros c. unfold enrich_core. cbv zeta. rewrite Hgp, Hsl.
  destruct (upsert_game_core_closed c (normalize_embedded d)) as [t ->].
  unfold upsert_lists, upsert_links. rewrite !executemany_if_any_eq.
  destruct c. db_simpl. repeat split; reflexivity.
Qed.

(** What the media and suggestion writes do to each relation table: an
    idempotent change of [media], [screenshots] and [game_suggestions],
    nothing elsewhere. *)
Lemma enrich_media_tables (up : upstream) (gid : Z) (images : list image_rec) :
  exists (M : list media_row -> list media_row)
         (L : list (Z * string) -> list (Z * string))
         (S : list suggestion_row -> list suggestion_row),
    (forall t, M (M t) = M t) /\ (forall t, L (L t) = L t) /\
    (forall t, S (S t) = S t) /\
    forall c,
      media (fst (enrich_media up c gid images)) = M (media c) /\
      screenshots (fst (enrich_media up c gid images)) = L (screenshots c) /\
      game_suggestions (fst (enrich_media up c gid images)) = S (game_suggestions c) /\
      game_developers (fst (enrich_media up c gid images)) = game_developers c /\
      game_publishers (fst (enrich_media up c gid images)) = game_publishers c /\
      game_tags (fst (enrich_media up c gid images)) = game_tags c /\
      game_genres (fst (enrich_media up c gid images)) = game_genres c /\
      game_platforms (fst (enrich_media up c gid images)) = game_platforms c /\
      game_stores (fst (enrich_media up c gid images)) = game_stores c /\
      game_series_links (fst (enrich_media up c gid images)) = game_series_links c /\
      game_additions_links (fst (enrich_media up c gid images)) = game_additions_links c.
Proof.
  set (L := fun t : list (Z * string) =>
              if no_row fst gid t then t ++ snd (image_rows gid images 1) else t).
  assert (HL : forall t, L (L t) = L t).
  { intros t. apply legacy_idempotent, image_rows_legacy_gid. }
  unfold enrich_media.
  destruct (fetch_movies up gid) as [videos|e].
  - exists (fun t => executemany_ignore same_media (video_rows gid videos 1)
                       (executemany_ignore same_media (fst (image_rows gid images 1)) t)),
           L.
    destruct (fetch_suggestions up gid 8) as [sugg|e].
    + exists (executemany_replace same_suggestion (suggestion_rows gid (firstn 8 sugg) 1)).
      split; [|split; [exact HL|split]].
      * intros t.
        rewrite (executemany_ignore_idempotent_after same_media same_media_refl
                   (fst (image_rows gid images 1)) (video_rows gid videos 1)).
        apply executemany_ignore_idempotent, same_media_refl.
      * intros t. apply executemany_replace_idempotent.
      * intros c. cbn [fst].
        rewrite store_suggestions_closed, store_media_videos_closed,
                store_media_images_closed.
        destruct (cover_fallback_games_only c gid images) as [t ->].
        destruct c. db_simpl. repeat split; reflexivity.
    + exists (fun t => t).
      split; [|split; [exact HL|split]].
      * intros t.
        rewrite (executemany_ignore_idempotent_after same_media same_media_refl
                   (fst (image_rows gid images 1)) (video_rows gid videos 1)).
        apply executemany_ignore_idempotent, same_media_refl.
      * reflexivity.
      * intros c. cbn [fst].
        rewrite store_media_videos_closed, store_media_images_closed.
        destruct (cover_fallback_games_only c gid images) as [t ->].
        destruct c. db_simpl. repeat split; reflexivity.
  - exists (executemany_ignore same_media (fst (image_rows gid images 1))), L,
           (fun t => t).
    split; [|split; [exact HL|split]].
    + intros t. apply executemany_ignore_idempotent, same_media_refl.
    + reflexivity.
    + intros c. cbn [fst].
      rewrite store_media_images_closed.
      destruct (cover_fallback_games_only c gid images) as [t ->].
      destruct c. db_simpl. repeat split; reflexivity.
Qed.

Ltac use_tables H c :=
  let D := fresh in
  destruct (H c) as (?D & ?D & ?D & ?D & ?D & ?D & ?D & ?D & ?D & ?D & ?D).

Ltac rewrite_tables :=
  repeat match goal with
         | E : _ = _ |- _ => rewrite E
         end.

Ltac insert_twice :=
  rewrite ?upsert_related_count,
          ?(executemany_ignore_idempotent same_pair same_pair_refl),
          ?(executemany_ignore_idempotent same_link same_link_refl),
          ?(executemany_ignore_idempotent same_game_store same_game_store_refl).

(** The relation tables after a second run of the writes of
    [enrich_one], when the run ends before the screenshots are stored
    and when it goes through. *)
Lemma enrich_core_twice (up : upstream) (gid : Z) (d : details) (conn : db) (g : Z) :
  row_counts (enrich_core up (enrich_core up conn gid d) gid d) g
  = plus_links (row_counts (enrich_core up conn gid d) g)
      (if (g =? gid)%Z then length (related_batch (up_series up gid) gid) else 0)
      (if (g =? gid)%Z then length (related_batch (up_additions up gid) gid) else 0).
Proof.
  destruct (enrich_core_tables up gid d) as (devs & pubs & tags & gl & pl & sl & H).
  use_tables H (enrich_core up conn gid d). use_tables H conn. clear H.
  unfold row_counts, plus_links.
  cbn [n_developers n_publishers n_tags n_genres n_platforms n_series n_additions
       n_stores n_media n_screenshots n_suggestions].
  rewrite_tables. insert_twice. reflexivity.
Qed.

Lemma enrich_media_twice (up : upstream) (gid : Z) (d : details) (conn : db)
    (images : list image_rec) (g : Z) :
  row_counts
    (fst (enrich_media up
            (enrich_core up (fst (enrich_media up (enrich_core up conn gid d) gid images))
               gid d) gid images)) g
  = plus_links (row_counts (fst (enrich_media up (enrich_core up conn gid d) gid images)) g)
      (if (g =? gid)%Z then length (related_batch (up_series up gid) gid) else 0)
      (if (g =? gid)%Z then length (related_batch (up_additions up gid) gid) else 0).
Proof.
  destruct (enrich_core_tables up gid d) as (devs & pubs & tags & gl & pl & sl & H).
  destruct (enrich_media_tables up gid images) as (M & L & S & HM & HL & HS & K).
  use_tables K (enrich_core up (fst (enrich_media up (enrich_core up conn gid d)
                                       gid images)) gid d).
  use_tables H (fst (enrich_media up (enrich_core up conn gid d) gid images)).
  use_tables K (enrich_core up conn gid d).
  use_tables H conn. clear H K.
  unfold row_counts, plus_links.
  cbn [n_developers n_publishers n_tags n_genres n_platforms n_series n_additions
       n_stores n_media n_screenshots n_suggestions].
  rewrite_tables. rewrite HM, HL, HS. insert_twice. reflexivity.
Qed.

Lemma enrich_media_result (up : upstream) (gid : Z) (c c' : db) (images : list image_rec) :
  snd (enrich_media up c gid images) = snd (enrich_media up c' gid images).
Proof.
  unfold enrich_media. destruct (fetch_movies up gid); reflexivity.
Qed.

(** What a second run changes, for every upstream, store and item.
    When a run of [enrich_one] ends, with a result or with an escaping
    exception, a second run against the same upstream from the store the
    first run left ends the same way, and the list, genre, platform,
    store, media, legacy screenshot and suggestion tables hold, for every
    item, as many rows after the second run as after the first.  The two
    link tables do not: the second run inserts every series and
    additions row of the item again. *)
Lemma enrich_one_rerun_row_counts :
  forall (fuel : nat) (max_images : Z) (up : upstream) (conn conn1 : db)
         (gid : Z) (r : result bool),
    enrich_one fuel max_images up conn gid = Some (conn1, r) ->
    exists conn2,
      enrich_one fuel max_images up conn1 gid = Some (conn2, r) /\
      (forall g,
          row_counts conn2 g
          = plus_links (row_counts conn1 g)
              (links_inserted up gid g (up_series up))
              (links_inserted up gid g (up_additions up))) /\
      (forall d, fetch_details up gid = Ok (Some d) ->
                 related_batch (up_series up gid) gid <> [] ->
                 (n_series (row_counts conn1 gid) < n_series (row_counts conn2 gid))%nat).
Proof.
  intros fuel C up conn conn1 gid r H.
  assert (G : exists conn2,
             enrich_one fuel C up conn1 gid = Some (conn2, r) /\
             forall g,
               row_counts conn2 g
               = plus_links (row_counts conn1 g)
                   (links_inserted up gid g (up_series up))
                   (links_inserted up gid g (up_additions up))).
  { unfold enrich_one, links_inserted in *.
    destruct (fetch_details up gid) as [[d|]|e].
    - destruct (fetch_all_screenshots fuel up gid C) as [[images|e]|]; [| |discriminate].
      + destruct (enrich_media up (enrich_core up conn gid d) gid images) as [c1 r1] eqn:E1.
        injection H as <- <-.
        destruct (enrich_media up (enrich_core up c1 gid d) gid images) as [c2 r2] eqn:E2.
        exists c2. split.
        * f_equal. f_equal.
          pose proof (enrich_media_result up gid (enrich_core up c1 gid d)
                        (enrich_core up conn gid d) images) as S.
          rewrite E1, E2 in S. exact S.
        * intros g.
          pose proof (enrich_media_twice up gid d conn images g) as T.
          rewrite E1 in T. cbn [fst] in T. rewrite E2 in T. exact T.
      + injection H as <- <-. eexists. split; [reflexivity|].
        intros g. apply enrich_core_twice.
    - injection H as <- <-. exists conn. split; [reflexivity|].
      intros g. now rewrite plus_links_none.
    - injection H as <- <-. exists conn. split; [reflexivity|].
      intros g. now rewrite plus_links_none. }
  destruct G as [conn2 [Hrun Hcount]].
  exists conn2. split; [exact Hrun|]. split; [exact Hcount|].
  intros d Hd Hb. rewrite (Hcount gid). unfold links_inserted. rewrite Hd, Z.eqb_refl.
  cbn [plus_links n_series].
  destruct (related_batch (up_series up gid) gid); [contradiction|]. cbn [length]. lia.
Qed.

(** C2, where the code departs from it.  On the sample upstream, whose
    series endpoint lists one game, three runs of [enrich_one] on item
    1001 from the empty store all end with [True]; the item has one
    series row after the first run, two after the second and three after
    the third, while its ten other counts are the same after each
    run. *)
Theorem enrich_one_rerun_duplicates_links :
  exists conn2 conn3,
    enrich_one 5 50 sample_upstream empty_db 1001 = Some (enriched_once, Ok true) /\
    enrich_one 5 50 sample_upstream enriched_once 1001 = Some (conn2, Ok true) /\
    enrich_one 5 50 sample_upstream conn2 1001 = Some (conn3, Ok true) /\
    row_counts enriched_once 1001
    = {| n_developers := 1; n_publishers := 1; n_tags := 1; n_genres := 1;
         n_platforms := 1; n_series := 1; n_additions := 0; n_stores := 1;
         n_media := 2; n_screenshots := 4; n_suggestions := 2 |} /\
    row_counts conn2 1001 = plus_links (row_counts enriched_once 1001) 1 0 /\
    row_counts conn3 1001 = plus_links (row_counts enriched_once 1001) 2 0 /\
    game_series_links conn3
    = [(1001, "Sample 2", "https://rawg.io/games/sample-2");
       (1001, "Sample 2", "https://rawg.io/games/sample-2");
       (1001, "Sample 2", "https://rawg.io/games/sample-2")]%Z.
Proof.
  assert (E1 : enrich_one 5 50 sample_upstream empty_db 1001 = Some (enriched_once, Ok true))
    by (vm_compute; reflexivity).
  destruct (enrich_one_rerun_row_counts 5 50 sample_upstream empty_db enriched_once
              1001 (Ok true) E1) as [conn2 [E2 [C2 _]]].
  destruct (enrich_one_rerun_row_counts 5 50 sample_upstream enriched_once conn2
              1001 (Ok true) E2) as [conn3 [E3 [C3 _]]].
  exists conn2, conn3.
  split; [exact E1|]. split; [exact E2|]. split; [exact E3|].
  split; [vm_compute; reflexivity|].
  split; [exact (C2 1001%Z)|].
  split.
  - rewrite (C3 1001%Z), (C2 1001%Z). vm_compute. reflexivity.
  - assert (F2 : exists c, enrich_one 5 50 sample_upstream enriched_once 1001
                           = Some (c, Ok true) /\
                           exists c', enrich_one 5 50 sample_upstream c 1001
                                      = Some (c', Ok true) /\
                                      game_series_links c'
                                      = [(1001, "Sample 2", "https://rawg.io/games/sample-2");
                                         (1001, "Sample 2", "https://rawg.io/games/sample-2");
                                         (1001, "Sample 2", "https://rawg.io/games/sample-2")]%Z).
    { eexists. split; [vm_compute; reflexivity|].
      eexists. split; vm_compute; reflexivity. }
    destruct F2 as [c [F2 [c' [F3 L]]]].
    rewrite E2 in F2. injection F2 as <-.
    rewrite E3 in F3. injection F3 as <-. exact L.
Qed.

(** The sample run stores rows in every relation table but the
    additions. *)
Example enriched_once_counts :
  row_counts enriched_once 1001
  = {| n_developers := 1; n_publishers := 1; n_tags := 1; n_genres := 1;
       n_platforms := 1; n_series := 1; n_additions := 0; n_stores := 1;
       n_media := 2; n_screenshots := 4; n_suggestions := 2 |}.
Proof. vm_compute. reflexivity. Qed.

(** ** C8: an unexpected status during the details fetch *)

Lemma rawg_get_unexpected {A : Type} (serve : nat -> outcome A) (r : response A) :
  serve 1%nat = Answered r ->
  unexpected_status (status_code r) ->
  _rawg_get serve = Raise (HTTPError (status_code r)).
Proof.
  intros Hs [Hr [H404 Hretry]].
  unfold _rawg_get, _rawg_get_trace. cbn [rawg_get_loop]. rewrite Hs.
  unfold retryable in Hretry.
  destruct (status_code r =? 200)%Z eqn:E200; [apply Z.eqb_eq in E200; lia|].
  destruct (status_code r =? 404)%Z eqn:E404; [apply Z.eqb_eq in E404; lia|].
  destruct (status_code r =? 429)%Z eqn:E429; [discriminate Hretry|].
  cbn [orb] in Hretry. rewrite Hretry.
  unfold raises_for_status.
  replace (400 <=? status_code r)%Z with true by (symmetry; apply Z.leb_le; lia).
  replace (status_code r <? 600)%Z with true by (symmetry; apply Z.ltb_lt; lia).
  reflexivity.
Qed.

(** An unexpected status on the details of one item ends a run over a
    list of identifiers: the exception leaves [enrich_one] and [main],
    and the identifiers after it are not processed. *)
Lemma main_ids_halts_on_unexpected_status (fuel : nat) (max_images : Z) (up : upstream)
    (conn : db) (gid : Z) (rest : list Z) (printed : list (Z * bool))
    (r : response details) :
  up_details up gid 1%nat = Answered r ->
  unexpected_status (status_code r) ->
  main_ids fuel max_images up conn (gid :: rest) printed
  = Some (conn, Raise (HTTPError (status_code r))).
Proof.
  intros Hs H. cbn [main_ids]. unfold enrich_one, fetch_details.
  now rewrite (rawg_get_unexpected _ r Hs H).
Qed.

(** C8, where the code departs from it.  With a 403 on the details of
    item 1, the run over the identifiers 1 and 2 ends with the escaping
    [HTTPError], in the single-ID mode and in the full mode; item 2 is
    never fetched, although it is enriched when the details of item 1 are
    a 404 instead, and although the same 503 on its additions is skipped
    without ending anything.  Writes made before the exception stay. *)
Theorem main_halts_on_forbidden_details :
  main_ids 5 50 forbidden_first empty_db [1; 2]%Z []
    = Some (empty_db, Raise (HTTPError 403)) /\
  main 5 50 forbidden_first empty_db [1; 2]%Z
    = Some (empty_db, Raise (HTTPError 403)) /\
  (exists conn,
      main_ids 5 50 missing_first empty_db [1; 2]%Z []
        = Some (conn, Ok [(1, false); (2, true)]%Z) /\
      row_counts conn 2 = row_counts enriched_once 1001) /\
  (exists conn,
      main_ids 5 50 forbidden_first empty_db [2; 1]%Z []
        = Some (conn, Raise (HTTPError 403)) /\
      row_counts conn 2 = row_counts enriched_once 1001).
Proof.
  split; [|split; [|split]].
  - apply (main_ids_halts_on_unexpected_status 5 50 forbidden_first empty_db 1 [2%Z] []
             {| status_code := 403; json := None |}); [reflexivity|].
    unfold unexpected_status. cbn. repeat split; first [lia | discriminate | reflexivity].
  - vm_compute. reflexivity.
  - eexists. split; vm_compute; reflexivity.
  - eexists. split; vm_compute; reflexivity.
Qed.

(* ================================================================== *)
(** * Further properties of the code *)
(* ================================================================== *)

(** ** Transport client *)

Lemma requests_cons_get (a : nat) (tr : list effect) :
  requests (Get a :: tr) = S (requests tr).
Proof. reflexivity. Qed.

Lemma requests_cons_sleep (s : Z) (tr : list effect) :
  requests (Sleep s :: tr) = requests tr.
Proof. reflexivity. Qed.

Lemma rawg_get_loop_bounds {A : Type} (serve : nat -> outcome A) :
  forall remaining attempt,
    (requests (snd (rawg_get_loop serve attempt remaining)) <= remaining)%nat /\
    (0 <= slept (snd (rawg_get_loop serve attempt remaining))
     <= Z.of_nat remaining * Z.max 60 (2 * Z.of_nat (attempt + remaining)))%Z.
Proof.
  induction remaining as [|n IH]; intros attempt.
  - cbn. lia.
  - cbn [rawg_get_loop].
    specialize (IH (S attempt)).
    destruct (rawg_get_loop serve (S attempt) n) as [res tr]. cbn [snd] in IH.
    replace (S attempt + n)%nat with (attempt + S n)%nat in IH by lia.
    destruct IH as [IHr IHs].
    destruct (serve attempt) as [r|t].
    + repeat match goal with
             | |- context [if ?b then _ else _] => destruct b
             end;
        cbn [snd slept]; rewrite ?requests_cons_get, ?requests_cons_sleep;
        try (change (requests (@nil effect)) with 0%nat);
        unfold RETRY_429_SLEEP; split; try lia; nia.
    + cbn [snd slept]. rewrite requests_cons_get.
      change (requests (@nil effect)) with 0%nat. split; [lia|nia].
Qed.

(** X1. Whatever the server answers, and whether it answers or not, one
    call of [_rawg_get] sends at least one and at most three requests and
    sleeps at most 180 seconds in total. *)
Theorem rawg_get_request_budget :
  forall (A : Type) (serve : nat -> outcome A),
    (1 <= requests (snd (_rawg_get_trace serve)) <= 3)%nat /\
    (0 <= slept (snd (_rawg_get_trace serve)) <= 180)%Z.
Proof.
  intros A serve. unfold _rawg_get_trace.
  destruct (rawg_get_loop_bounds serve 3 1) as [Hr Hs].
  split; [split; [|exact Hr]|].
  - change (rawg_get_loop serve 1 3)
      with (match serve 1%nat with
            | Unanswered t => (Raise (RequestException t), [Get 1%nat])
            | Answered r =>
                let s := status_code r in
                if (s =? 200)%Z then (Ok (json r), [Get 1%nat])
                else if (s =? 404)%Z then (Ok None, [Get 1%nat])
                else if (s =? 429)%Z then
                  let (res, tr) := rawg_get_loop serve 2 2 in
                  (res, Get 1%nat :: Sleep RETRY_429_SLEEP :: tr)
                else if ((s =? 500) || (s =? 502) || (s =? 503) || (s =? 504))%Z then
                  let (res, tr) := rawg_get_loop serve 2 2 in
                  (res, Get 1%nat :: Sleep (2 * Z.of_nat 1) :: tr)
                else if raises_for_status s then (Raise (HTTPError s), [Get 1%nat])
                else
                  let (res, tr) := rawg_get_loop serve 2 2 in
                  (res, Get 1%nat :: tr)
            end).
    destruct (rawg_get_loop serve 2 2) as [res tr].
    destruct (serve 1%nat) as [r|t]; [|cbn; lia].
    cbv zeta.
    repeat match goal with
           | |- context [if ?b then _ else _] => destruct b
           end; cbn [snd]; rewrite ?requests_cons_get; lia.
  - change (Z.of_nat 3 * Z.max 60 (2 * Z.of_nat (1 + 3)))%Z with 180%Z in Hs. exact Hs.
Qed.

Lemma rawg_get_loop_retry_step {A : Type} (serve : nat -> response A)
    (attempt remaining : nat) :
  retryable (status_code (serve attempt)) = true ->
  rawg_get_loop (answering serve) attempt (S remaining)
  = (fst (rawg_get_loop (answering serve) (S attempt) remaining),
     Get attempt :: Sleep (backoff (status_code (serve attempt)) attempt)
       :: snd (rawg_get_loop (answering serve) (S attempt) remaining)).
Proof.
  intros H. cbn [rawg_get_loop answering]. unfold retryable in H. unfold backoff.
  destruct (rawg_get_loop (answering serve) (S attempt) remaining) as [res tr].
  cbn [fst snd].
  destruct (status_code (serve attempt) =? 200)%Z eqn:E200.
  { apply Z.eqb_eq in E200. rewrite E200 in H. discriminate H. }
  destruct (status_code (serve attempt) =? 404)%Z eqn:E404.
  { apply Z.eqb_eq in E404. rewrite E404 in H. discriminate H. }
  destruct (status_code (serve attempt) =? 429)%Z eqn:E429; [reflexivity|].
  cbn [orb] in H. rewrite H. reflexivity.
Qed.

Lemma rawg_get_loop_success {A : Type} (serve : nat -> response A) :
  forall (k attempt remaining : nat),
    (k < remaining)%nat ->
    (forall j, (j < k)%nat -> retryable (status_code (serve (attempt + j)%nat)) = true) ->
    status_code (serve (attempt + k)%nat) = 200%Z ->
    fst (rawg_get_loop (answering serve) attempt remaining)
    = Ok (json (serve (attempt + k)%nat)) /\
    requests (snd (rawg_get_loop (answering serve) attempt remaining)) = S k.
Proof.
  induction k as [|k IH]; intros attempt remaining Hk Hretry H200.
  - destruct remaining as [|n]; [lia|].
    rewrite Nat.add_0_r in H200 |- *.
    cbn [rawg_get_loop answering]. rewrite H200. cbn. split; reflexivity.
  - destruct remaining as [|n]; [lia|].
    rewrite rawg_get_loop_retry_step.
    2:{ specialize (Hretry 0%nat). rewrite Nat.add_0_r in Hretry. apply Hretry. lia. }
    cbn [fst snd]. rewrite requests_cons_get, requests_cons_sleep.
    destruct (IH (S attempt) n) as [Hres Hreq]; [lia| |
      replace (S attempt + k)%nat with (attempt + S k)%nat by lia; exact H200|].
    + intros j Hj. replace (S attempt + j)%nat with (attempt + S j)%nat by lia.
      apply Hretry. lia.
    + replace (S attempt + k)%nat with (attempt + S k)%nat in Hres by lia.
      split; [exact Hres|]. now rewrite Hreq.
Qed.

(** X2. Against a server that answers every request: when the attempts
    before the [k]-th, for [k] of 1 to 3, meet a 429 or a 5xx of the
    retry list and the [k]-th is answered with 200, [_rawg_get] returns
    the body of that answer after exactly [k] requests. *)
Theorem rawg_get_succeeds_after_retries :
  forall (A : Type) (serve : nat -> response A) (k : nat),
    (1 <= k <= 3)%nat ->
    (forall j, (1 <= j < k)%nat -> retryable (status_code (serve j)) = true) ->
    status_code (serve k) = 200%Z ->
    _rawg_get (answering serve) = Ok (json (serve k)) /\
    requests (snd (_rawg_get_trace (answering serve))) = k.
Proof.
  intros A serve k Hk Hretry H200.
  unfold _rawg_get, _rawg_get_trace.
  destruct (rawg_get_loop_success serve (k - 1) 1 3) as [Hres Hreq]; try lia.
  - intros j Hj. apply Hretry. lia.
  - replace (1 + (k - 1))%nat with k by lia. exact H200.
  - replace (1 + (k - 1))%nat with k in Hres by lia.
    split; [exact Hres|]. rewrite Hreq. lia.
Qed.

Lemma rawg_get_succeeds_after_retries_witness :
  _rawg_get (answering flaky_movies) = Ok (Some sample_movies) /\
  requests (snd (_rawg_get_trace (answering flaky_movies))) = 3%nat.
Proof.
  apply (rawg_get_succeeds_after_retries _ flaky_movies 3).
  - lia.
  - intros j Hj. assert (j = 1 \/ j = 2)%nat as [-> | ->] by lia; reflexivity.
  - reflexivity.
Defined.

(** X3. [_rawg_get] raises in two ways only, each at one of its three
    attempts, which is then its last request: the [HTTPError] of an
    answer whose status is a 4xx or 5xx other than 404, 429, 500, 502,
    503 and 504, and the exception of a [requests.get] that got no
    response.  A request that fails is not retried.  When no attempt
    does either, the call returns a value. *)
Theorem rawg_get_raises_only_unexpected :
  forall (A : Type) (serve : nat -> outcome A),
    (forall e, _rawg_get serve = Raise e ->
       exists k, (1 <= k <= 3)%nat /\ raised_at (serve k) e /\
                 requests (snd (_rawg_get_trace serve)) = k) /\
    (forall t, serve 1%nat = Unanswered t ->
       _rawg_get_trace serve = (Raise (RequestException t), [Get 1%nat])) /\
    ((forall k e, ~ raised_at (serve k) e) ->
       exists r, _rawg_get serve = Ok r).
Proof.
  intros A serve.
  assert (R : forall e, _rawg_get serve = Raise e ->
       exists k, (1 <= k <= 3)%nat /\ raised_at (serve k) e /\
                 requests (snd (_rawg_get_trace serve)) = k).
  { intros e H. unfold _rawg_get, _rawg_get_trace in *.
    destruct (rawg_get_loop serve 1 3) as [res tr] eqn:E. cbn [fst snd] in *. subst res.
    destruct (rawg_get_loop_raised serve _ _ _ _ E) as [k [Hk [Hr Hn]]].
    exists k. split; [lia|]. split; [exact Hr|]. lia. }
  split; [exact R|]. split.
  - intros t Ht. unfold _rawg_get_trace. cbn [rawg_get_loop]. now rewrite Ht.
  - intros Hnone. destruct (_rawg_get serve) as [r|e] eqn:E; [now exists r|].
    destruct (R e eq_refl) as [k [_ [Hu _]]]. now destruct (Hnone k e).
Qed.

Lemma rawg_get_raises_only_unexpected_witness :
  (exists k, (1 <= k <= 3)%nat /\
             raised_at (unreachable (A:=details) k) (RequestException ConnectionError) /\
             requests (snd (_rawg_get_trace (unreachable (A:=details)))) = k) /\
  _rawg_get_trace (unreachable (A:=details))
    = (Raise (RequestException ConnectionError), [Get 1%nat]) /\
  exists r, _rawg_get (always (A:=details) 301 None) = Ok r.
Proof.
  split; [|split].
  - apply (proj1 (rawg_get_raises_only_unexpected details unreachable)). reflexivity.
  - apply (proj1 (proj2 (rawg_get_raises_only_unexpected details unreachable))).
    reflexivity.
  - apply (proj2 (proj2 (rawg_get_raises_only_unexpected details (always 301 None)))).
    intros k e [[H _] _]. cbn in H. lia.
Defined.

(** X4. Against a server that answers every request: when all three
    attempts meet a 429 or a 5xx of the retry list, [_rawg_get] returns
    [None] after three requests and three sleeps:
    60 seconds after a 429, twice the attempt number after a 5xx, the
    sleep after the last attempt included. *)
Theorem rawg_get_exhausted_schedule :
  forall (A : Type) (serve : nat -> response A),
    (forall k, retryable (status_code (serve k)) = true) ->
    _rawg_get_trace (answering serve)
    = (Ok None,
       [Get 1; Sleep (backoff (status_code (serve 1%nat)) 1);
        Get 2; Sleep (backoff (status_code (serve 2%nat)) 2);
        Get 3; Sleep (backoff (status_code (serve 3%nat)) 3)]).
Proof.
  intros A serve H. unfold _rawg_get_trace.
  rewrite !rawg_get_loop_retry_step by apply H. reflexivity.
Qed.

Lemma rawg_get_exhausted_schedule_witness :
  _rawg_get_trace (always (A:=details) 429 None)
  = (Ok None, [Get 1; Sleep 60; Get 2; Sleep 60; Get 3; Sleep 60]) /\
  _rawg_get_trace (always (A:=details) 502 None)
  = (Ok None, [Get 1; Sleep 2; Get 2; Sleep 4; Get 3; Sleep 6]).
Proof.
  split.
  - apply (rawg_get_exhausted_schedule details
             (fun _ => {| status_code := 429; json := None |})).
    intros k. reflexivity.
  - apply (rawg_get_exhausted_schedule details
             (fun _ => {| status_code := 502; json := None |})).
    intros k. reflexivity.
Defined.

(** X5. A status below 400 other than 200 (a 204, a 3xx) is neither a
    success nor an error for [_rawg_get]: when all attempts are answered
    with one, it
    sends its three requests one after the other without sleeping and
    returns [None]. *)
Theorem rawg_get_other_success_statuses :
  forall (A : Type) (serve : nat -> response A),
    (forall k, unhandled_success (status_code (serve k))) ->
    _rawg_get_trace (answering serve) = (Ok None, [Get 1; Get 2; Get 3]).
Proof.
  intros A serve H. unfold _rawg_get_trace.
  assert (Step : forall a n,
             rawg_get_loop (answering serve) a (S n)
             = (fst (rawg_get_loop (answering serve) (S a) n),
                Get a :: snd (rawg_get_loop (answering serve) (S a) n))).
  { intros a n. cbn [rawg_get_loop answering].
    destruct (H a) as [Hlt Hne].
    destruct (rawg_get_loop (answering serve) (S a) n) as [res tr]. cbn [fst snd].
    replace (status_code (serve a) =? 200)%Z with false by (symmetry; apply Z.eqb_neq; lia).
    replace (status_code (serve a) =? 404)%Z with false by (symmetry; apply Z.eqb_neq; lia).
    replace (status_code (serve a) =? 429)%Z with false by (symmetry; apply Z.eqb_neq; lia).
    replace (status_code (serve a) =? 500)%Z with false by (symmetry; apply Z.eqb_neq; lia).
    replace (status_code (serve a) =? 502)%Z with false by (symmetry; apply Z.eqb_neq; lia).
    replace (status_code (serve a) =? 503)%Z with false by (symmetry; apply Z.eqb_neq; lia).
    replace (status_code (serve a) =? 504)%Z with false by (symmetry; apply Z.eqb_neq; lia).
    cbn [orb]. unfold raises_for_status.
    replace (400 <=? status_code (serve a))%Z with false by (symmetry; apply Z.leb_gt; lia).
    reflexivity. }
  rewrite !Step. reflexivity.
Qed.

Lemma rawg_get_other_success_statuses_witness :
  _rawg_get_trace (always (A:=details) 204 None) = (Ok None, [Get 1; Get 2; Get 3]).
Proof.
  apply (rawg_get_other_success_statuses details
           (fun _ => {| status_code := 204; json := None |})).
  intros k. split; cbn; [lia|discriminate].
Defined.

(** ** Image URL normaliser and cover choice *)

Lemma split_pieces_segment (c : ascii) (x s : string) :
  free_of c x = true ->
  PyStr.split_pieces c (x ++ String c s)
  = (x, fst (PyStr.split_pieces c s) :: snd (PyStr.split_pieces c s)).
Proof.
  induction x as [|a x IH]; intros H.
  - cbn [String.append PyStr.split_pieces].
    destruct (PyStr.split_pieces c s) as [p ps]. now rewrite Ascii.eqb_refl.
  - cbn [free_of] in H. apply andb_true_iff in H as [Ha Hx].
    cbn [String.append PyStr.split_pieces]. rewrite (IH Hx).
    apply negb_true_iff in Ha. now rewrite Ha.
Qed.

Lemma split_segment (c : ascii) (x : string) :
  free_of c x = true -> PyStr.split c x = [x].
Proof.
  unfold PyStr.split. induction x as [|a x IH]; intros H; [reflexivity|].
  cbn [free_of] in H. apply andb_true_iff in H as [Ha Hx].
  cbn [PyStr.split_pieces]. specialize (IH Hx).
  destruct (PyStr.split_pieces c x) as [p ps].
  apply negb_true_iff in Ha. rewrite Ha. now injection IH as -> ->.
Qed.

(** [sep.join(l).split(sep) == l] for a non-empty list of pieces that do
    not contain the separator. *)
Lemma split_join (c : ascii) (l : list string) :
  l <> [] -> Forall (fun x => free_of c x = true) l ->
  PyStr.split c (PyStr.join (String c EmptyString) l) = l.
Proof.
  induction l as [|x l IH]; intros Hne Hall; [contradiction|].
  inversion Hall as [|? ? Hx Hl]; subst.
  destruct l as [|y l].
  - cbn [PyStr.join]. now apply split_segment.
  - rewrite join_cons. cbn [String.append].
    unfold PyStr.split. rewrite (split_pieces_segment c x _ Hx).
    f_equal. specialize (IH ltac:(discriminate) Hl). unfold PyStr.split in IH.
    destruct (PyStr.split_pieces c (PyStr.join (String c "") (y :: l))) as [p ps].
    exact IH.
Qed.

Lemma index_after (x : string) (segs more : list string) :
  ~ In x segs -> PyStr.index x (segs ++ x :: more) = Some (length segs).
Proof.
  induction segs as [|y segs IH]; intros H.
  - cbn. now rewrite String.eqb_refl.
  - cbn [app PyStr.index length].
    assert (Hy : String.eqb y x = false).
    { apply String.eqb_neq. intros ->. apply H. now left. }
    rewrite Hy, IH; [reflexivity|]. intros Hin. apply H. now right.
Qed.

Lemma skipn_length_app {A : Type} (l l' : list A) : skipn (length l) (l ++ l') = l'.
Proof. induction l as [|x l IH]; [reflexivity|exact IH]. Qed.

(** X6. The rewrite the docstring of [normalize_rawg_image] describes.
    For a media URL whose path after [/media/] starts with [crop] or
    [resize], goes on with any segments other than [games] and then has
    a [games] segment, the result is the media prefix followed by the
    path from that [games] segment on. *)
Theorem normalize_rawg_image_drops_transform :
  forall (kind : string) (segs more : list string),
    kind = "crop" \/ kind = "resize" ->
    Forall segment (segs ++ more) ->
    ~ In "games" segs ->
    normalize_rawg_image
      (Some (MEDIA_PREFIX ++ PyStr.join "/" (kind :: segs ++ "games" :: more))%string)
    = Some (MEDIA_PREFIX ++ PyStr.join "/" ("games" :: more))%string.
Proof.
  intros kind segs more Hkind Hseg Hgames.
  rewrite normalize_canonical. do 2 f_equal.
  assert (Hk : segment kind) by (destruct Hkind as [-> | ->]; reflexivity).
  assert (Hkg : String.eqb kind "games" = false) by (destruct Hkind as [-> | ->]; reflexivity).
  assert (Hc : (String.eqb kind "crop" || String.eqb kind "resize") = true)
    by (destruct Hkind as [-> | ->]; reflexivity).
  unfold strip_transform.
  rewrite (split_join "/"%char (kind :: segs ++ "games" :: more)); [|discriminate|].
  - rewrite Hc. cbn [PyStr.index]. rewrite Hkg, (index_after _ _ _ Hgames).
    cbn [skipn]. now rewrite skipn_length_app.
  - constructor; [exact Hk|].
    apply Forall_app in Hseg as [Hs Hm].
    apply Forall_app. split; [exact Hs|]. constructor; [reflexivity|exact Hm].
Qed.

Lemma normalize_rawg_image_drops_transform_witness :
  normalize_rawg_image
    (Some "https://media.rawg.io/media/resize/640/-/games/abc/x.jpg")
  = Some "https://media.rawg.io/media/games/abc/x.jpg".
Proof.
  apply (normalize_rawg_image_drops_transform "resize" ["640"; "-"] ["abc"; "x.jpg"]).
  - now right.
  - repeat constructor.
  - intros [H|[H|[]]]; discriminate H.
Defined.

Lemma normalize_truthy (u : option string) :
  PyStr.truthy_opt (normalize_rawg_image u) = PyStr.truthy_opt u.
Proof.
  destruct u as [u|]; [|reflexivity]. unfold normalize_rawg_image.
  destruct (negb (PyStr.truthy u) || negb (PyStr.contains MEDIA_PREFIX u)) eqn:G;
    [reflexivity|].
  destruct (PyStr.split_first "/media/" u) as [[b tail]|]; [|reflexivity].
  apply orb_false_iff in G as [G _]. apply negb_false_iff in G.
  cbn [PyStr.truthy_opt]. rewrite G. reflexivity.
Qed.

Lemma normalize_twice (u : option string) :
  normalize_rawg_image (normalize_rawg_image u) = normalize_rawg_image u.
Proof.
  destruct u as [u|]; [|reflexivity].
  unfold normalize_rawg_image at 2 3.
  destruct (negb (PyStr.truthy u) || negb (PyStr.contains MEDIA_PREFIX u)) eqn:G.
  - unfold normalize_rawg_image. now rewrite G.
  - destruct (PyStr.split_first "/media/" u) as [[b tail]|] eqn:S.
    + rewrite normalize_canonical, strip_transform_idempotent. reflexivity.
    + unfold normalize_rawg_image. now rewrite G, S.
Qed.

(** X7. [normalize_rawg_image] keeps a URL present and non-empty exactly
    when it was, and every non-empty URL that contains the media prefix
    comes back starting with the media prefix. *)
Theorem normalize_rawg_image_keeps_presence :
  (forall u : option string,
      PyStr.truthy_opt (normalize_rawg_image u) = PyStr.truthy_opt u) /\
  (forall u : string,
      u <> EmptyString -> PyStr.contains MEDIA_PREFIX u = true ->
      exists t, normalize_rawg_image (Some u) = Some (MEDIA_PREFIX ++ t)%string).
Proof.
  split; [exact normalize_truthy|].
  intros u Hne Hc. unfold normalize_rawg_image. rewrite Hc.
  assert (T : PyStr.truthy u = true).
  { unfold PyStr.truthy. apply negb_true_iff. now apply String.eqb_neq. }
  rewrite T. cbn [negb orb].
  destruct (PyStr.split_first "/media/" u) as [[b tail]|] eqn:S.
  - eexists. reflexivity.
  - now destruct (split_first_media_defined u Hc).
Qed.

Lemma normalize_rawg_image_keeps_presence_witness :
  exists t,
    normalize_rawg_image (Some "http://mirror.example/media/x?https://media.rawg.io/media/")
    = Some (MEDIA_PREFIX ++ t)%string.
Proof.
  apply (proj2 normalize_rawg_image_keeps_presence); [discriminate|reflexivity].
Defined.

Lemma first_short_image_none (l : list (option short_screenshot)) :
  first_short_image l = None <->
  Forall (fun s => PyStr.truthy_opt (short_image s) = false) l.
Proof.
  induction l as [|s l IH].
  - split; [constructor|reflexivity].
  - cbn [first_short_image]. fold (short_image s).
    destruct (PyStr.truthy_opt (short_image s)) eqn:T.
    + split.
      * intros H.
        pose proof (normalize_truthy (short_image s)) as K.
        rewrite H, T in K. discriminate K.
      * intros H. inversion H; subst. congruence.
    + rewrite IH. split.
      * intros H. now constructor.
      * intros H. now inversion H.
Qed.

Lemma first_short_image_truthy (l : list (option short_screenshot)) (c : string) :
  first_short_image l = Some c -> c <> EmptyString.
Proof.
  induction l as [|s l IH]; [discriminate|].
  cbn [first_short_image]. fold (short_image s).
  destruct (PyStr.truthy_opt (short_image s)) eqn:T; [|exact IH].
  intros H ->.
  pose proof (normalize_truthy (short_image s)) as K.
  rewrite H, T in K. discriminate K.
Qed.

Lemma choose_cover_nonempty (d : details) (c : string) :
  choose_cover_from d = Some c -> c <> EmptyString.
Proof.
  unfold choose_cover_from.
  pose proof (normalize_truthy (d_background_image d)) as K1.
  pose proof (normalize_truthy (d_background_image_additional d)) as K2.
  destruct (PyStr.truthy_opt (d_background_image d)).
  - intros H ->. rewrite H in K1. discriminate K1.
  - destruct (PyStr.truthy_opt (d_background_image_additional d)).
    + intros H ->. rewrite H in K2. discriminate K2.
    + apply first_short_image_truthy.
Qed.

(** X8. [choose_cover_from] finds no cover exactly when the background
    image, the additional background image and the image of every short
    screenshot are all missing or empty; a cover it returns is never the
    empty string. *)
Theorem choose_cover_from_none_iff :
  forall d : details,
    (choose_cover_from d = None <->
       PyStr.truthy_opt (d_background_image d) = false /\
       PyStr.truthy_opt (d_background_image_additional d) = false /\
       Forall (fun s => PyStr.truthy_opt (short_image s) = false)
         (d_short_screenshots d)) /\
    (forall c, choose_cover_from d = Some c -> c <> EmptyString).
Proof.
  intros d. unfold choose_cover_from.
  pose proof (normalize_truthy (d_background_image d)) as K1.
  pose proof (normalize_truthy (d_background_image_additional d)) as K2.
  destruct (PyStr.truthy_opt (d_background_image d)) eqn:T1.
  - split.
    + split; [intros H; rewrite H in K1; discriminate K1|intros [H _]; discriminate H].
    + intros c H ->. rewrite H in K1. discriminate K1.
  - destruct (PyStr.truthy_opt (d_background_image_additional d)) eqn:T2.
    + split.
      * split; [intros H; rewrite H in K2; discriminate K2
               |intros [_ [H _]]; discriminate H].
      * intros c H ->. rewrite H in K2. discriminate K2.
    + split.
      * rewrite first_short_image_none. tauto.
      * apply first_short_image_truthy.
Qed.

Lemma choose_cover_from_none_iff_witness :
  choose_cover_from (sample_details 1 None) = None.
Proof.
  apply (proj1 (choose_cover_from_none_iff (sample_details 1 None))).
  repeat split. constructor.
Defined.

(** ** Screenshot crawler *)

Lemma collect_page_invariant (res : list shot_item) (C : Z) :
  forall out : list image_rec,
    (Z.of_nat (length out) < C)%Z ->
    (snd (collect_page res out C) = true ->
       Z.of_nat (length (fst (collect_page res out C))) = C) /\
    (snd (collect_page res out C) = false ->
       (Z.of_nat (length (fst (collect_page res out C))) < C)%Z) /\
    (Forall canonical_image out -> Forall canonical_image (fst (collect_page res out C))).
Proof.
  induction res as [|item rest IH]; intros out Hlt.
  - cbn. repeat split; [discriminate|intros _; exact Hlt|auto].
  - cbn [collect_page].
    destruct (PyStr.truthy_opt (sh_image item)) eqn:T; cbn [negb]; [|apply IH, Hlt].
    set (x := {| im_image := normalize_rawg_image (sh_image item);
                 im_width := sh_width item; im_height := sh_height item |}).
    assert (L : length (out ++ [x]) = S (length out)) by (rewrite length_app; cbn; lia).
    assert (Gx : canonical_image x).
    { split; cbn [im_image x].
      - now rewrite normalize_truthy.
      - apply normalize_twice. }
    destruct (Z.of_nat (length (out ++ [x])) >=? C)%Z eqn:G.
    + cbn [fst snd]. repeat split.
      * intros _. lia.
      * discriminate.
      * intros H. apply Forall_app. split; [exact H|now constructor].
    + assert (Hlt' : (Z.of_nat (length (out ++ [x])) < C)%Z) by lia.
      destruct (IH (out ++ [x]) Hlt') as [A [B D]].
      repeat split; [exact A|exact B|].
      intros H. apply D. apply Forall_app. split; [exact H|now constructor].
Qed.

Lemma screenshots_loop_invariant (serve : Z -> nat -> outcome (page shot_item)) (C : Z) :
  forall (fuel : nat) (pg : Z) (out : list image_rec) (sent : nat)
         (imgs : list image_rec) (n : nat),
    (Z.of_nat (length out) < C)%Z ->
    screenshots_loop fuel serve C pg out sent = Some (Ok imgs, n) ->
    (Z.of_nat (length imgs) <= C)%Z /\
    (Forall canonical_image out -> Forall canonical_image imgs).
Proof.
  induction fuel as [|fuel IH]; intros pg out sent imgs n Hlt H; [discriminate H|].
  cbn [screenshots_loop] in H.
  destruct (_rawg_get_trace (serve pg)) as [r tr].
  destruct r as [j|e]; [|discriminate H].
  destruct (collect_page_invariant (results_or_empty j) C out Hlt) as [A [B D]].
  destruct (collect_page (results_or_empty j) out C) as [out' returned].
  cbn [fst snd] in A, B, D.
  destruct returned.
  - injection H as <- <-. split; [specialize (A eq_refl); lia|exact D].
  - specialize (B eq_refl).
    destruct (negb (PyStr.truthy_opt (next_of j))).
    + injection H as <- <-. split; [lia|exact D].
    + destruct (IH _ _ _ _ _ B H) as [E F]. split; [exact E|].
      intros G. apply F, D, G.
Qed.

(** X9. With a cap of at least one image, [fetch_all_screenshots] never
    returns more images than the cap, whatever the upstream serves and
    however its pages are linked. *)
Theorem fetch_all_screenshots_respects_cap :
  forall (fuel : nat) (up : upstream) (gid : Z) (max_images : Z)
         (imgs : list image_rec),
    (1 <= max_images)%Z ->
    fetch_all_screenshots fuel up gid max_images = Some (Ok imgs) ->
    (Z.of_nat (length imgs) <= max_images)%Z.
Proof.
  intros fuel up gid C imgs HC H.
  unfold fetch_all_screenshots, fetch_all_screenshots_counting in H.
  destruct (screenshots_loop fuel (up_screenshots up gid) C 1 [] 0) as [[r n]|] eqn:E;
    [|discriminate H].
  cbn in H. injection H as ->.
  destruct (screenshots_loop_invariant (up_screenshots up gid) C fuel 1%Z [] 0%nat
              imgs n) as [A _]; [cbn; lia|exact E|exact A].
Qed.

Lemma fetch_all_screenshots_respects_cap_witness :
  exists imgs,
    fetch_all_screenshots 3 (screenshots_only 3 4) 1 5 = Some (Ok imgs) /\
    (Z.of_nat (length imgs) <= 5)%Z.
Proof.
  eexists. split; [reflexivity|].
  apply (fetch_all_screenshots_respects_cap 3 (screenshots_only 3 4) 1 5);
    [lia|reflexivity].
Defined.

Lemma collect_page_canonical (res : list shot_item) (C : Z) :
  forall out : list image_rec,
    Forall canonical_image out -> Forall canonical_image (fst (collect_page res out C)).
Proof.
  induction res as [|item rest IH]; intros out H; [exact H|].
  cbn [collect_page].
  destruct (PyStr.truthy_opt (sh_image item)) eqn:T; cbn [negb]; [|apply IH, H].
  set (x := {| im_image := normalize_rawg_image (sh_image item);
               im_width := sh_width item; im_height := sh_height item |}).
  assert (Gx : canonical_image x).
  { split; cbn [im_image x].
    - now rewrite normalize_truthy.
    - apply normalize_twice. }
  assert (H' : Forall canonical_image (out ++ [x])).
  { apply Forall_app. split; [exact H|now constructor]. }
  destruct (Z.of_nat (length (out ++ [x])) >=? C)%Z; [exact H'|apply IH, H'].
Qed.

Lemma screenshots_loop_canonical (serve : Z -> nat -> outcome (page shot_item)) (C : Z) :
  forall (fuel : nat) (pg : Z) (out : list image_rec) (sent : nat)
         (imgs : list image_rec) (n : nat),
    Forall canonical_image out ->
    screenshots_loop fuel serve C pg out sent = Some (Ok imgs, n) ->
    Forall canonical_image imgs.
Proof.
  induction fuel as [|fuel IH]; intros pg out sent imgs n Hout H; [discriminate H|].
  cbn [screenshots_loop] in H.
  destruct (_rawg_get_trace (serve pg)) as [r tr].
  destruct r as [j|e]; [|discriminate H].
  pose proof (collect_page_canonical (results_or_empty j) C out Hout) as D.
  destruct (collect_page (results_or_empty j) out C) as [out' returned].
  cbn [fst] in D.
  destruct returned; [injection H as <- <-; exact D|].
  destruct (negb (PyStr.truthy_opt (next_of j))); [injection H as <- <-; exact D|].
  exact (IH _ _ _ _ _ D H).
Qed.

Lemma fetched_images_canonical (fuel : nat) (up : upstream) (gid : Z) (max_images : Z)
    (imgs : list image_rec) :
  fetch_all_screenshots fuel up gid max_images = Some (Ok imgs) ->
  Forall canonical_image imgs.
Proof.
  intros H.
  unfold fetch_all_screenshots, fetch_all_screenshots_counting in H.
  destruct (screenshots_loop fuel (up_screenshots up gid) max_images 1 [] 0)
    as [[r n]|] eqn:E; [|discriminate H].
  cbn in H. injection H as ->.
  apply (screenshots_loop_canonical _ max_images _ _ _ _ _ _ (Forall_nil _) E).
Qed.

Lemma canonical_image_urls (imgs : list image_rec) :
  Forall canonical_image imgs -> map Some (image_urls imgs) = map im_image imgs.
Proof.
  unfold image_urls. induction 1 as [|i l [Hi _] Hl IH]; [reflexivity|].
  cbn [map truthy_names]. destruct (im_image i) as [u|]; [|discriminate Hi].
  cbn in Hi. rewrite Hi. cbn [map]. now rewrite IH.
Qed.

(** X10. Every image [fetch_all_screenshots] returns has a URL that is
    present, non-empty and a fixed point of [normalize_rawg_image]:
    entries without an image are dropped and the others are stored in
    normal form.  So [store_media_images] skips none of them: the URLs it
    uses are the URLs of the returned images, one for one. *)
Theorem fetch_all_screenshots_canonical :
  forall (fuel : nat) (up : upstream) (gid : Z) (max_images : Z)
         (imgs : list image_rec),
    fetch_all_screenshots fuel up gid max_images = Some (Ok imgs) ->
    Forall canonical_image imgs /\
    map Some (image_urls imgs) = map im_image imgs.
Proof.
  intros fuel up gid C imgs H.
  pose proof (fetched_images_canonical fuel up gid C imgs H) as K.
  split; [exact K|]. now apply canonical_image_urls.
Qed.

Lemma fetch_all_screenshots_canonical_witness :
  exists imgs,
    fetch_all_screenshots 3 (screenshots_only 3 4) 1 5 = Some (Ok imgs) /\
    Forall canonical_image imgs.
Proof.
  eexists. split; [reflexivity|].
  apply (fetch_all_screenshots_canonical 3 (screenshots_only 3 4) 1 5). reflexivity.
Defined.

(** ** Media storage *)

Lemma insert_or_ignore_origin {R : Type} (conflict : R -> R -> bool) (x r : R) (t : list R) :
  In r (insert_or_ignore conflict x t) -> In r t \/ r = x.
Proof.
  unfold insert_or_ignore. destruct (existsb (conflict x) t); [now left|].
  intros H. apply in_app_or in H as [H|[H|[]]]; [now left|now right].
Qed.

Lemma insert_or_ignore_incl {R : Type} (conflict : R -> R -> bool) (x r : R) (t : list R) :
  In r t -> In r (insert_or_ignore conflict x t).
Proof.
  unfold insert_or_ignore. destruct (existsb (conflict x) t); [auto|].
  intros H. apply in_or_app. now left.
Qed.

(** An [executemany] of [INSERT OR IGNORE] keeps every stored row and
    adds only rows of its batch. *)
Lemma executemany_ignore_origin {R : Type} (conflict : R -> R -> bool) (rows t : list R) (r : R) :
  In r (executemany_ignore conflict rows t) -> In r t \/ In r rows.
Proof.
  unfold executemany_ignore. revert t.
  induction rows as [|x rows IH]; intros t H; [now left|].
  cbn [fold_left] in H. destruct (IH _ H) as [K|K].
  - destruct (insert_or_ignore_origin _ _ _ _ K) as [L| ->]; [now left|right; now left].
  - right. now right.
Qed.

Lemma executemany_ignore_incl {R : Type} (conflict : R -> R -> bool) (rows t : list R) (r : R) :
  In r t -> In r (executemany_ignore conflict rows t).
Proof.
  unfold executemany_ignore. revert t.
  induction rows as [|x rows IH]; intros t H; [exact H|].
  cbn [fold_left]. apply IH, insert_or_ignore_incl, H.
Qed.

Lemma image_rows_urls (gid : Z) (images : list image_rec) (pos : Z) :
  map m_url (fst (image_rows gid images pos)) = image_urls images.
Proof.
  unfold image_urls. revert pos.
  induction images as [|i l IH]; intros pos; [reflexivity|].
  cbn [image_rows map truthy_names].
  destruct (im_image i) as [url|]; [|apply IH].
  destruct (PyStr.truthy url); [|apply IH].
  specialize (IH (pos + 1)%Z).
  destruct (image_rows gid l (pos + 1)) as [rm rl]. cbn [fst map m_url] in *.
  now rewrite IH.
Qed.

Lemma image_rows_member (gid : Z) (images : list image_rec) (pos : Z) (r : media_row) :
  In r (fst (image_rows gid images pos)) ->
  m_game_id r = gid /\ m_type r = image /\ m_preview_url r = None /\
  exists k, nth_error (image_urls images) k = Some (m_url r) /\
            m_position r = (pos + Z.of_nat k)%Z.
Proof.
  unfold image_urls. revert pos.
  induction images as [|i l IH]; intros pos H; [destruct H|].
  cbn [image_rows map truthy_names] in *.
  destruct (im_image i) as [url|]; [|exact (IH _ H)].
  destruct (PyStr.truthy url); [|exact (IH _ H)].
  specialize (IH (pos + 1)%Z).
  destruct (image_rows gid l (pos + 1)) as [rm rl]. cbn [fst] in *.
  destruct H as [<-|H].
  - cbn. repeat split. exists 0%nat. split; [reflexivity|lia].
  - destruct (IH H) as [A [B [D [k [E F]]]]].
    repeat split; try assumption. exists (S k). split; [exact E|lia].
Qed.

Lemma image_rows_legacy (gid : Z) (images : list image_rec) (pos : Z) :
  snd (image_rows gid images pos)
  = map (pair gid) (firstn (Z.to_nat (41 - pos)) (image_urls images)).
Proof.
  unfold image_urls. revert pos.
  induction images as [|i l IH]; intros pos.
  - cbn. now rewrite firstn_nil.
  - cbn [image_rows map truthy_names].
    destruct (im_image i) as [url|]; [|apply IH].
    destruct (PyStr.truthy url); [|apply IH].
    specialize (IH (pos + 1)%Z).
    destruct (image_rows gid l (pos + 1)) as [rm rl]. cbn [snd] in *.
    destruct (pos <=? 40)%Z eqn:E.
    + apply Z.leb_le in E.
      replace (Z.to_nat (41 - pos)) with (S (Z.to_nat (41 - (pos + 1)))) by lia.
      cbn [firstn map]. now rewrite IH.
    + apply Z.leb_gt in E.
      replace (Z.to_nat (41 - pos)) with 0%nat by lia.
      rewrite IH. replace (Z.to_nat (41 - (pos + 1))) with 0%nat by lia. reflexivity.
Qed.

Lemma count_rows_none {R : Type} (game_id : R -> Z) (gid : Z) (t : list R) :
  has_no_row game_id gid t -> count_rows game_id gid t = 0%nat.
Proof.
  unfold has_no_row, count_rows. induction t as [|x t IH]; intros H; [reflexivity|].
  cbn [filter].
  assert (E : (game_id x =? gid)%Z = false).
  { apply Z.eqb_neq. apply H. now left. }
  rewrite E. apply IH. intros r Hin. apply H. now right.
Qed.

(** X11. The legacy mirror of [store_media_images]: when the
    [screenshots] table holds no row of the item, it receives the first
    40 non-empty image URLs of the list, in order; when it holds one, it
    is left as it is, and so is every other item's part of it. *)
Theorem store_media_images_legacy_mirror :
  forall (conn : db) (gid : Z) (images : list image_rec),
    (has_no_row fst gid (screenshots conn) ->
       screenshots (store_media_images conn gid images)
       = screenshots conn ++ map (pair gid) (firstn 40 (image_urls images))) /\
    (~ has_no_row fst gid (screenshots conn) ->
       screenshots (store_media_images conn gid images) = screenshots conn) /\
    (count_rows fst gid (screenshots (store_media_images conn gid images))
     <= Nat.max 40 (count_rows fst gid (screenshots conn)))%nat.
Proof.
  intros conn gid images.
  rewrite store_media_images_closed.
  cbn [screenshots set_screenshots].
  rewrite image_rows_legacy. change (Z.to_nat (41 - 1)) with 40%nat.
  destruct (no_row fst gid (screenshots conn)) eqn:E.
  - apply no_row_iff in E as E'.
    split; [reflexivity|]. split; [intros H; now destruct H|].
    unfold count_rows. rewrite filter_app, length_app.
    pose proof (count_rows_none fst gid (screenshots conn) E') as Z0.
    unfold count_rows in Z0. rewrite Z0.
    pose proof (filter_length_le (fun r : Z * string => (fst r =? gid)%Z)
                  (map (pair gid) (firstn 40 (image_urls images)))) as F.
    rewrite length_map in F.
    pose proof (firstn_le_length 40 (image_urls images)) as G. lia.
  - split; [|split; [reflexivity|lia]].
    intros H. apply no_row_iff in H. congruence.
Qed.

Lemma store_media_images_legacy_mirror_witness :
  screenshots (store_media_images empty_db 9
                 [ {| im_image := Some "u1"; im_width := None; im_height := None |};
                   {| im_image := None; im_width := None; im_height := None |};
                   {| im_image := Some "u2"; im_width := None; im_height := None |} ])
  = [(9, "u1"); (9, "u2")]%Z.
Proof.
  rewrite (proj1 (store_media_images_legacy_mirror empty_db 9 _)).
  - reflexivity.
  - intros r [].
Defined.

(** X12. What [store_media_images] does to the [media] table: every
    stored row is kept; a row it adds is an image row of the item without
    preview, whose URL is one of the non-empty URLs of the list and whose
    position is the 1-based rank of that URL among them; and after the
    call every non-empty URL of the list has an image row of the item. *)
Theorem store_media_images_media_rows :
  forall (conn : db) (gid : Z) (images : list image_rec),
    (forall r, In r (media conn) -> In r (media (store_media_images conn gid images))) /\
    (forall r, In r (media (store_media_images conn gid images)) ->
       In r (media conn) \/
       (m_game_id r = gid /\ m_type r = image /\ m_preview_url r = None /\
        exists k, nth_error (image_urls images) k = Some (m_url r) /\
                  m_position r = (1 + Z.of_nat k)%Z)) /\
    (forall u, In u (image_urls images) ->
       exists r, In r (media (store_media_images conn gid images)) /\
                 m_game_id r = gid /\ m_type r = image /\ m_url r = u).
Proof.
  intros conn gid images.
  rewrite store_media_images_closed. cbn [media set_media set_screenshots].
  split; [|split].
  - intros r H. now apply executemany_ignore_incl.
  - intros r H. apply executemany_ignore_origin in H as [H|H]; [now left|right].
    now apply image_rows_member.
  - intros u Hu. rewrite <- (image_rows_urls gid images 1) in Hu.
    apply in_map_iff in Hu as [x [Hx Hin]].
    pose proof (executemany_ignore_covers same_media same_media_refl
                  (fst (image_rows gid images 1)) (media conn) x Hin) as C.
    apply existsb_exists in C as [r [Hr Hs]].
    exists r. split; [exact Hr|].
    destruct (image_rows_member gid images 1 x Hin) as [A [B _]].
    unfold same_media in Hs.
    apply andb_true_iff in Hs as [Hs Hu']. apply andb_true_iff in Hs as [Hg Ht].
    apply Z.eqb_eq in Hg. apply String.eqb_eq in Hu'.
    repeat split.
    + congruence.
    + rewrite B in Ht. now destruct (m_type r).
    + congruence.
Qed.

Lemma store_media_images_media_rows_witness :
  exists r, In r (media (store_media_images empty_db 9 sample_images)) /\
            m_game_id r = 9%Z /\ m_type r = image /\ m_url r = "u2".
Proof.
  apply (proj2 (proj2 (store_media_images_media_rows empty_db 9 sample_images))).
  vm_compute. right. left. reflexivity.
Defined.
(** ** Identifiers of the stored items *)

Lemma update_game_ids (f : game_row -> game_row) (gid : Z) (t : list game_row) :
  (forall x, g_id (f x) = g_id x) ->
  map g_id (update_game f gid t) = map g_id t.
Proof.
  intros Hf. unfold update_game. rewrite map_map. apply map_ext.
  intros x. destruct (g_id x =? gid)%Z; [apply Hf|reflexivity].
Qed.

(** ** What enrichment keeps *)

Lemma str_of_Z_nonempty (z : Z) : str_of_Z z <> EmptyString.
Proof.
  unfold str_of_Z, NilZero.string_of_int, NilZero.string_of_uint.
  destruct (Z.to_int z) as [d|d]; destruct d; discriminate.
Qed.

Lemma truthy_filled (o : option string) : PyStr.truthy_opt o = true -> filled o.
Proof.
  destruct o as [w|]; [|discriminate]. cbn. unfold PyStr.truthy.
  intros H. apply negb_true_iff, String.eqb_neq in H. now exists w.
Qed.

Lemma filled_truthy (o : option string) : filled o -> PyStr.truthy_opt o = true.
Proof.
  intros [w [-> H]]. cbn. unfold PyStr.truthy.
  now apply negb_true_iff, String.eqb_neq.
Qed.

Lemma coalesce_filled (new old : option string) :
  (new = None \/ filled new) -> filled old -> filled (COALESCE new old).
Proof. intros [-> | H] K; [exact K|]. destruct H as [w [-> Hw]]. now exists w. Qed.

Lemma or_none_filled (o : option string) :
  PyStr.or_none o = None \/ filled (PyStr.or_none o).
Proof.
  unfold PyStr.or_none. destruct (PyStr.truthy_opt o) eqn:T; [right|now left].
  now apply truthy_filled.
Qed.

Lemma metascore_color_filled (s : option Z) :
  metascore_color s = None \/ filled (metascore_color s).
Proof.
  unfold metascore_color. destruct s as [n|]; [|now left].
  repeat match goal with
         | |- context [if ?b then _ else _] => destruct b
         end; try (now left); right; eexists; (split; [reflexivity|discriminate]).
Qed.

Lemma choose_cover_filled (d : details) :
  choose_cover_from d = None \/ filled (choose_cover_from d).
Proof.
  destruct (choose_cover_from d) as [c|] eqn:E; [right|now left].
  exists c. split; [reflexivity|].
  exact (choose_cover_nonempty d c E).
Qed.

Lemma no_less_filled_refl (r : game_row) : no_less_filled r r.
Proof. unfold no_less_filled. repeat split; auto. Qed.

Lemma no_less_filled_trans (a b c : game_row) :
  no_less_filled a b -> no_less_filled b c -> no_less_filled a c.
Proof.
  unfold no_less_filled. intros H K.
  destruct H as (H0 & H1 & H2 & H3 & H4 & H5 & H6 & H7 & H8 & H9 & H10).
  destruct K as (K0 & K1 & K2 & K3 & K4 & K5 & K6 & K7 & K8 & K9 & K10).
  repeat split; auto. congruence.
Qed.

Lemma games_kept_refl (t : list game_row) : games_kept t t.
Proof. intros g r H. exists r. split; [exact H|apply no_less_filled_refl]. Qed.

Lemma games_kept_trans (a b c : list game_row) :
  games_kept a b -> games_kept b c -> games_kept a c.
Proof.
  intros H K g r Hr. destruct (H g r Hr) as [r1 [H1 L1]].
  destruct (K g r1 H1) as [r2 [H2 L2]].
  exists r2. split; [exact H2|]. exact (no_less_filled_trans _ _ _ L1 L2).
Qed.

Lemma find_game_insert (t : list game_row) (new : game_row) (g : Z) (r : game_row) :
  find_game t g = Some r -> find_game (insert_or_ignore same_game new t) g = Some r.
Proof.
  unfold insert_or_ignore, find_game. destruct (existsb (same_game new) t); [auto|].
  intros H. induction t as [|x t IH]; [discriminate|].
  cbn [find app] in *. destruct (g_id x =? g)%Z; [exact H|exact (IH H)].
Qed.

Lemma find_game_update_any (f : game_row -> game_row) (gid : Z) (t : list game_row)
    (g : Z) (r : game_row) :
  (forall x, g_id (f x) = g_id x) ->
  find_game t g = Some r ->
  find_game (update_game f gid t) g = Some (if (g_id r =? gid)%Z then f r else r).
Proof.
  intros Hf. unfold find_game, update_game.
  induction t as [|x t IH]; [discriminate|].
  cbn [find map].
  assert (E : g_id (if (g_id x =? gid)%Z then f x else x) = g_id x)
    by (destruct (g_id x =? gid)%Z; [apply Hf|reflexivity]).
  rewrite E. destruct (g_id x =? g)%Z; [|exact IH].
  intros H. now injection H as <-.
Qed.

Lemma update_game_kept (f : game_row -> game_row) (gid : Z) (t : list game_row) :
  (forall x, no_less_filled x (f x)) -> games_kept t (update_game f gid t).
Proof.
  intros Hf g r H.
  rewrite (find_game_update_any f gid t g r (fun x => proj1 (Hf x)) H).
  eexists. split; [reflexivity|].
  destruct (g_id r =? gid)%Z; [apply Hf|apply no_less_filled_refl].
Qed.

Lemma merge_core_no_less (about website age cover released : option string)
    (rating : option float) (slug name : option string) (mscore : option Z)
    (mcolor : option string) (r : game_row) :
  (about = None \/ filled about) -> (website = None \/ filled website) ->
  (age = None \/ filled age) -> (cover = None \/ filled cover) ->
  (released = None \/ filled released) -> (slug = None \/ filled slug) ->
  (name = None \/ filled name) -> (mcolor = None \/ filled mcolor) ->
  no_less_filled r
    (merge_core about website age cover released rating slug name mscore mcolor r).
Proof.
  intros. unfold no_less_filled, merge_core. cbn.
  repeat split; try (now apply coalesce_filled).
  - destruct rating; [discriminate|auto].
  - destruct mscore; [discriminate|auto].
Qed.

Lemma upsert_slug_filled (d : details) :
  filled (if PyStr.truthy_opt (d_slug d) then d_slug d else Some (str_of_Z (d_id d))).
Proof.
  destruct (PyStr.truthy_opt (d_slug d)) eqn:T; [now apply truthy_filled|].
  eexists. split; [reflexivity|apply str_of_Z_nonempty].
Qed.

Lemma upsert_name_filled (d : details) :
  filled (if PyStr.truthy_opt (d_name d) then d_name d
          else if PyStr.truthy_opt (d_slug d) then d_slug d
               else Some (str_of_Z (d_id d))).
Proof.
  destruct (PyStr.truthy_opt (d_name d)) eqn:T; [now apply truthy_filled|].
  apply upsert_slug_filled.
Qed.

Lemma upsert_game_core_kept (conn : db) (d : details) :
  games_kept (games conn) (games (upsert_game_core conn d)).
Proof.
  unfold upsert_game_core. destruct conn. db_simpl.
  eapply games_kept_trans.
  - intros g r H. exists r. split; [|apply no_less_filled_refl].
    apply find_game_insert, H.
  - apply update_game_kept. intros x. apply merge_core_no_less;
      try apply or_none_filled.
    + apply choose_cover_filled.
    + right. apply upsert_slug_filled.
    + right. apply upsert_name_filled.
    + apply metascore_color_filled.
Qed.

Lemma cover_fallback_kept (conn : db) (gid : Z) (images : list image_rec) :
  Forall canonical_image images ->
  games_kept (games conn) (games (cover_fallback_from_images conn gid images)).
Proof.
  intros Hc. unfold cover_fallback_from_images.
  destruct (find_game (games conn) gid); [|apply games_kept_refl].
  destruct (PyStr.truthy _); [apply games_kept_refl|].
  destruct images as [|i l]; [apply games_kept_refl|].
  inversion Hc as [|? ? [Hi _] _]; subst.
  destruct conn. db_simpl. apply update_game_kept.
  intros x. unfold no_less_filled, set_cover. cbn.
  repeat split; auto. intros _. now apply truthy_filled.
Qed.

Lemma enrich_core_games (up : upstream) (conn : db) (gid : Z) (d : details) :
  games (enrich_core up conn gid d) = games (upsert_game_core conn (normalize_embedded d)).
Proof.
  destruct (upsert_genres_platforms_closed gid (normalize_embedded d))
    as (gv & gl & pv & pl & Hgp).
  destruct (upsert_store_links_closed gid (normalize_embedded d)) as (sv & sl & Hsl).
  unfold enrich_core. cbv zeta. rewrite Hgp, Hsl.
  unfold upsert_lists, upsert_links.
  destruct (upsert_game_core conn (normalize_embedded d)). reflexivity.
Qed.

Lemma enrich_media_games (up : upstream) (conn : db) (gid : Z) (images : list image_rec) :
  games (fst (enrich_media up conn gid images))
  = games (cover_fallback_from_images conn gid images).
Proof.
  unfold enrich_media.
  destruct (fetch_movies up gid) as [videos|e]; cbn [fst].
  - destruct (fetch_suggestions up gid 8) as [sugg|e];
      rewrite ?store_suggestions_closed, store_media_videos_closed,
              store_media_images_closed;
      destruct (cover_fallback_from_images conn gid images); reflexivity.
  - rewrite store_media_images_closed.
    destruct (cover_fallback_from_images conn gid images); reflexivity.
Qed.

Lemma enrich_one_games_kept (fuel : nat) (max_images : Z) (up : upstream)
    (conn conn' : db) (gid : Z) (r : result bool) :
  enrich_one fuel max_images up conn gid = Some (conn', r) ->
  games_kept (games conn) (games conn').
Proof.
  intros E. unfold enrich_one in E.
  destruct (fetch_details up gid) as [[d|]|e].
  - assert (K : games_kept (games conn) (games (enrich_core up conn gid d))).
    { rewrite enrich_core_games. apply upsert_game_core_kept. }
    destruct (fetch_all_screenshots fuel up gid max_images) as [[images|e]|] eqn:F;
      [| |discriminate E].
    + pose proof (fetched_images_canonical _ _ _ _ _ F) as Hc.
      pose proof (enrich_media_games up (enrich_core up conn gid d) gid images) as G.
      destruct (enrich_media up (enrich_core up conn gid d) gid images) as [c1 r1].
      injection E as <- <-. cbn [fst] in G. rewrite G.
      eapply games_kept_trans; [exact K|]. now apply cover_fallback_kept.
    + injection E as <- <-. exact K.
  - injection E as <- <-. apply games_kept_refl.
  - injection E as <- <-. apply games_kept_refl.
Qed.


(** ** Runs of the controller *)

Lemma run_invariant_refl (conn : db) : games_kept (games conn) (games conn).
Proof. apply games_kept_refl. Qed.

Lemma run_invariant_trans (a b c : db) :
  games_kept (games a) (games b) -> games_kept (games b) (games c) ->
  games_kept (games a) (games c).
Proof. apply games_kept_trans. Qed.

Lemma enrich_one_invariant (fuel : nat) (max_images : Z) (up : upstream)
    (conn conn' : db) (gid : Z) (r : result bool) :
  enrich_one fuel max_images up conn gid = Some (conn', r) ->
  games_kept (games conn) (games conn').
Proof. apply enrich_one_games_kept. Qed.

Lemma main_ids_invariant (fuel : nat) (max_images : Z) (up : upstream) :
  forall (ids : list Z) (conn conn' : db) (printed : list (Z * bool))
         (r : result (list (Z * bool))),
    main_ids fuel max_images up conn ids printed = Some (conn', r) ->
    games_kept (games conn) (games conn').
Proof.
  induction ids as [|gid rest IH]; intros conn conn' printed r E.
  - cbn in E. injection E as <- <-. apply run_invariant_refl.
  - cbn [main_ids] in E.
    destruct (enrich_one fuel max_images up conn gid) as [[c1 [[|]|e]]|] eqn:F;
      [| | |discriminate E].
    + destruct (find_game (games c1) gid).
      * eapply run_invariant_trans; [exact (enrich_one_invariant _ _ _ _ _ _ _ F)|].
        exact (IH _ _ _ _ E).
      * injection E as <- <-. exact (enrich_one_invariant _ _ _ _ _ _ _ F).
    + eapply run_invariant_trans; [exact (enrich_one_invariant _ _ _ _ _ _ _ F)|].
      exact (IH _ _ _ _ E).
    + injection E as <- <-. exact (enrich_one_invariant _ _ _ _ _ _ _ F).
Qed.

Lemma insert_pass_invariant (fuel : nat) (max_images : Z) (up : upstream) :
  forall (ids : list Z) (conn conn' : db) (ok fail : nat) (r : result (nat * nat)),
    insert_pass fuel max_images up conn ids ok fail = Some (conn', r) ->
    games_kept (games conn) (games conn').
Proof.
  induction ids as [|gid rest IH]; intros conn conn' ok fail r E.
  - cbn in E. injection E as <- <-. apply run_invariant_refl.
  - cbn [insert_pass] in E.
    destruct (enrich_one fuel max_images up conn gid) as [[c1 [[|]|e]]|] eqn:F;
      [| | |discriminate E].
    + eapply run_invariant_trans; [exact (enrich_one_invariant _ _ _ _ _ _ _ F)|].
      exact (IH _ _ _ _ _ E).
    + eapply run_invariant_trans; [exact (enrich_one_invariant _ _ _ _ _ _ _ F)|].
      exact (IH _ _ _ _ _ E).
    + injection E as <- <-. exact (enrich_one_invariant _ _ _ _ _ _ _ F).
Qed.

Lemma sweep_pass_invariant (fuel : nat) (max_images : Z) (up : upstream) :
  forall (ids : list Z) (conn conn' : db) (ok skip : nat) (r : result (nat * nat)),
    sweep_pass fuel max_images up conn ids ok skip = Some (conn', r) ->
    games_kept (games conn) (games conn').
Proof.
  induction ids as [|gid rest IH]; intros conn conn' ok skip r E.
  - cbn in E. injection E as <- <-. apply run_invariant_refl.
  - cbn [sweep_pass] in E.
    destruct (needs_enrich conn gid); [|exact (IH _ _ _ _ _ E)].
    destruct (enrich_one fuel max_images up conn gid) as [[c1 [[|]|e]]|] eqn:F;
      [| | |discriminate E].
    + eapply run_invariant_trans; [exact (enrich_one_invariant _ _ _ _ _ _ _ F)|].
      exact (IH _ _ _ _ _ E).
    + eapply run_invariant_trans; [exact (enrich_one_invariant _ _ _ _ _ _ _ F)|].
      exact (IH _ _ _ _ _ E).
    + injection E as <- <-. exact (enrich_one_invariant _ _ _ _ _ _ _ F).
Qed.

Lemma main_invariant (fuel : nat) (max_images : Z) (up : upstream)
    (conn conn' : db) (folder_ids : list Z) (r : result summary) :
  main fuel max_images up conn folder_ids = Some (conn', r) -> games_kept (games conn) (games conn').
Proof.
  unfold main. intros E.
  destruct (insert_pass fuel max_images up conn _ 0 0) as [[c1 [[iok ifail]|e]]|] eqn:F;
    [| |discriminate E].
  - pose proof (insert_pass_invariant _ _ _ _ _ _ _ _ _ F) as I1.
    destruct (sweep_pass fuel max_images up c1 (all_ids c1) 0 0)
      as [[c2 [[eok eskip]|e]]|] eqn:G; [| |discriminate E].
    + injection E as <- <-.
      exact (run_invariant_trans _ _ _ I1 (sweep_pass_invariant _ _ _ _ _ _ _ _ _ G)).
    + injection E as <- <-.
      exact (run_invariant_trans _ _ _ I1 (sweep_pass_invariant _ _ _ _ _ _ _ _ _ G)).
  - injection E as <- <-. exact (insert_pass_invariant _ _ _ _ _ _ _ _ _ F).
Qed.

(** X14. The pipeline never deletes an item and never empties a column.
    Every row of [games] is still there in the store that a call of
    [enrich_one], a single-ID run or a full run of [main] leaves, and each
    of its columns that held a value (a non-empty one for the text
    columns) still holds one. *)
Theorem pipeline_never_regresses :
  forall (fuel : nat) (max_images : Z) (up : upstream) (conn conn' : db)
         (g : Z) (row : game_row),
    find_game (games conn) g = Some row ->
    (forall gid r,
        enrich_one fuel max_images up conn gid = Some (conn', r) ->
        exists row', find_game (games conn') g = Some row' /\ no_less_filled row row') /\
    (forall ids r,
        main_ids fuel max_images up conn ids [] = Some (conn', r) ->
        exists row', find_game (games conn') g = Some row' /\ no_less_filled row row') /\
    (forall folder_ids r,
        main fuel max_images up conn folder_ids = Some (conn', r) ->
        exists row', find_game (games conn') g = Some row' /\ no_less_filled row row').
Proof.
  intros fuel C up conn conn' g row H. split; [|split].
  - intros gid r E. exact (enrich_one_invariant _ _ _ _ _ _ _ E g row H).
  - intros ids r E. exact (main_ids_invariant _ _ _ _ _ _ _ _ E g row H).
  - intros folder_ids r E. exact (main_invariant _ _ _ _ _ _ _ E g row H).
Qed.

Lemma pipeline_never_regresses_witness :
  exists c row',
    main 5 50 sample_upstream db_bare_item [] = Some (c, Ok {| ins_ok := 0; ins_fail := 0;
                                                               en_ok := 1; en_skip := 0 |}) /\
    find_game (games c) 1001 = Some row' /\
    no_less_filled (sample_game 1001 None) row'.
Proof.
  assert (E : exists c, main 5 50 sample_upstream db_bare_item []
                        = Some (c, Ok {| ins_ok := 0; ins_fail := 0;
                                         en_ok := 1; en_skip := 0 |})).
  { eexists. vm_compute. reflexivity. }
  destruct E as [c E]. exists c.
  destruct (pipeline_never_regresses 5 50 sample_upstream db_bare_item c 1001
              (sample_game 1001 None) eq_refl) as [_ [_ H]].
  destruct (H [] _ E) as [row' [F L]].
  exists row'. split; [exact E|split; [exact F|exact L]].
Defined.

(** ** The item row *)

Lemma find_game_insert_new (t : list game_row) (new : game_row) :
  find_game t (g_id new) = None ->
  find_game (insert_or_ignore same_game new t) (g_id new) = Some new.
Proof.
  intros H. apply find_game_none in H.
  assert (E : existsb (same_game new) t = false).
  { destruct (existsb (same_game new) t) eqn:E; [|reflexivity].
    apply existsb_exists in E as [x [Hx Hs]]. unfold same_game in Hs.
    apply Z.eqb_eq in Hs. now destruct (H x Hx). }
  unfold insert_or_ignore. rewrite E. unfold find_game.
  induction t as [|x t IH].
  - cbn. now rewrite Z.eqb_refl.
  - cbn [app find].
    assert (Hx : (g_id x =? g_id new)%Z = false).
    { apply Z.eqb_neq. apply H. now left. }
    rewrite Hx. apply IH.
    + intros r Hr. apply H. now right.
    + cbn [existsb] in E. now apply orb_false_iff in E as [_ E].
Qed.

Lemma games_set_games (conn : db) (t : list game_row) : games (set_games conn t) = t.
Proof. reflexivity. Qed.

Lemma metascore_color_none (n : Z) :
  metascore_color (Some n) = None <-> ~ in_score_range n.
Proof.
  unfold metascore_color, in_score_range.
  destruct (75 <=? n)%Z eqn:A1; destruct (n <=? 100)%Z eqn:A2;
  destruct (50 <=? n)%Z eqn:B1; destruct (n <=? 74)%Z eqn:B2;
  destruct (0 <=? n)%Z eqn:C1; destruct (n <=? 49)%Z eqn:C2;
  cbn [andb];
  repeat match goal with
         | H : (_ <=? _)%Z = true |- _ => apply Z.leb_le in H
         | H : (_ <=? _)%Z = false |- _ => apply Z.leb_gt in H
         end;
  split; intros H; try discriminate; try lia; try reflexivity.
Qed.

(** The row of the item after [upsert_game_core]: the [SET] clause
    applied to the stored row, or to the freshly inserted one. *)
Lemma upsert_game_core_row (conn : db) (d : details) :
  exists base,
    find_game (games (upsert_game_core conn d)) (d_id d)
    = Some (merge_core (PyStr.or_none (d_description_raw d))
              (PyStr.or_none (d_website d))
              (PyStr.or_none (match d_esrb_rating d with
                              | Some e => esrb_name e
                              | None => None
                              end))
              (choose_cover_from d)
              (PyStr.or_none (d_released d))
              (if truthy_float (d_rating d) then d_rating d else None)
              (Some (slug_of d)) (Some (name_of d))
              (d_metacritic d) (metascore_color (d_metacritic d)) base) /\
    (forall stored, find_game (games conn) (d_id d) = Some stored -> base = stored) /\
    (find_game (games conn) (d_id d) = None ->
       g_metascore_color base = None /\ g_metascore_number base = None).
Proof.
  assert (Es : (if PyStr.truthy_opt (d_slug d) then d_slug d else Some (str_of_Z (d_id d)))
               = Some (slug_of d)).
  { unfold slug_of. destruct (d_slug d) as [s|]; [|reflexivity]. cbn.
    now destruct (PyStr.truthy s). }
  assert (En : (if PyStr.truthy_opt (d_name d) then d_name d else Some (slug_of d))
               = Some (name_of d)).
  { unfold name_of. destruct (d_name d) as [s|]; [|reflexivity]. cbn.
    now destruct (PyStr.truthy s). }
  unfold upsert_game_core. rewrite Es, En.
  destruct (find_game (games conn) (d_id d)) as [stored|] eqn:F.
  - exists stored. split; [|split; [intros s H; now injection H|discriminate]].
    rewrite (find_game_exists (games conn) (d_id d) stored _ F) by reflexivity.
    rewrite games_set_games.
    apply find_game_update; [reflexivity|exact F].
  - set (fresh := {| g_id := d_id d; g_slug := Some (slug_of d);
                     g_name := Some (name_of d);
                     g_released := PyStr.or_none (d_released d);
                     g_rating := if truthy_float (d_rating d) then d_rating d else None;
                     g_description := None; g_website := None; g_age_rating := None;
                     g_cover_image := None; g_metascore_number := None;
                     g_metascore_color := None |}).
    exists fresh. split; [|split; [discriminate|intros _; split; reflexivity]].
    rewrite games_set_games.
    apply find_game_update; [reflexivity|].
    apply (find_game_insert_new _ fresh). exact F.
Qed.

Lemma slug_of_nonempty (d : details) : slug_of d <> EmptyString.
Proof.
  unfold slug_of. destruct (d_slug d) as [s|]; [|apply str_of_Z_nonempty].
  destruct (PyStr.truthy s) eqn:T; [|apply str_of_Z_nonempty].
  unfold PyStr.truthy in T. now apply negb_true_iff, String.eqb_neq in T.
Qed.

Lemma name_of_nonempty (d : details) : name_of d <> EmptyString.
Proof.
  unfold name_of. destruct (d_name d) as [s|]; [|apply slug_of_nonempty].
  destruct (PyStr.truthy s) eqn:T; [|apply slug_of_nonempty].
  unfold PyStr.truthy in T. now apply negb_true_iff, String.eqb_neq in T.
Qed.

(** X15. For details whose identifier and metascore fit SQLite's
    integers: after [upsert_game_core] the item of the details has a
    row, new or not.  Its slug is the slug of the details, or the decimal
    identifier when the details have none; its name is the name of the
    details, or else that slug; neither is ever empty. *)
Theorem upsert_game_core_slug_and_name :
  forall (conn : db) (d : details),
    binds d ->
    exists row,
      find_game (games (upsert_game_core conn d)) (d_id d) = Some row /\
      g_slug row = Some (slug_of d) /\ g_name row = Some (name_of d) /\
      slug_of d <> EmptyString /\ name_of d <> EmptyString /\
      (d_slug d = None -> g_slug row = Some (str_of_Z (d_id d))).
Proof.
  intros conn d _. destruct (upsert_game_core_row conn d) as [base [F _]].
  eexists. split; [exact F|]. cbn [merge_core g_slug g_name COALESCE].
  repeat split; try reflexivity.
  - apply slug_of_nonempty.
  - apply name_of_nonempty.
  - intros H. unfold slug_of. now rewrite H.
Qed.

Lemma upsert_game_core_slug_and_name_witness :
  exists row,
    find_game (games (upsert_game_core empty_db (score_only 1001 None))) 1001 = Some row /\
    g_slug row = Some "1001" /\ g_name row = Some "1001".
Proof.
  assert (B : binds (score_only 1001 None)).
  { split; [unfold sqlite_integer; cbn; lia|discriminate]. }
  destruct (upsert_game_core_slug_and_name empty_db (score_only 1001 None) B)
    as [row [F [S [N [_ [_ D]]]]]].
  exists row. split; [exact F|]. split.
  - apply D. reflexivity.
  - exact N.
Defined.

(** X16. The metascore pair after [upsert_game_core] on a stored item,
    for details whose identifier and metascore fit SQLite's integers.
    An incoming score in 0..100 is stored with its own colour.  An
    incoming score outside 0..100 is stored too, but has no colour, so
    the colour of the earlier score stays beside it.  Without an incoming
    score both columns keep their stored values. *)
Theorem upsert_game_core_metascore :
  forall (conn : db) (d : details) (stored : game_row),
    binds d ->
    find_game (games conn) (d_id d) = Some stored ->
    exists row,
      find_game (games (upsert_game_core conn d)) (d_id d) = Some row /\
      (forall n, d_metacritic d = Some n ->
         g_metascore_number row = Some n /\
         (in_score_range n -> g_metascore_color row = metascore_color (Some n) /\
                              filled (g_metascore_color row)) /\
         (~ in_score_range n -> g_metascore_color row = g_metascore_color stored)) /\
      (d_metacritic d = None ->
         g_metascore_number row = g_metascore_number stored /\
         g_metascore_color row = g_metascore_color stored).
Proof.
  intros conn d stored _ H.
  destruct (upsert_game_core_row conn d) as [base [F [B _]]].
  rewrite (B stored H) in F.
  eexists. split; [exact F|].
  cbn [merge_core g_metascore_number g_metascore_color].
  split.
  - intros n Hn. rewrite Hn. cbn [COALESCE]. split; [reflexivity|].
    split.
    + intros R. destruct (metascore_color (Some n)) as [c|] eqn:E.
      * cbn [COALESCE]. split; [reflexivity|].
        destruct (metascore_color_filled (Some n)) as [K|K]; rewrite E in K;
          [discriminate K|exact K].
      * apply metascore_color_none in E. contradiction.
    + intros R. apply metascore_color_none in R. rewrite R. reflexivity.
  - intros Hn. rewrite Hn. cbn. split; reflexivity.
Qed.

Lemma upsert_game_core_metascore_witness :
  exists row,
    find_game (games (upsert_game_core db_one_game (score_only 1 (Some 150%Z)))) 1
    = Some row /\
    g_metascore_number row = Some 150%Z /\ g_metascore_color row = Some "green".
Proof.
  assert (B : binds (score_only 1 (Some 150%Z))).
  { split; [unfold sqlite_integer; cbn; lia|].
    intros n H. injection H as <-. unfold sqlite_integer. lia. }
  destruct (upsert_game_core_metascore db_one_game (score_only 1 (Some 150%Z))
              (sample_game 1 (Some "https://old.example")) B eq_refl)
    as [row [F [S _]]].
  exists row. split; [exact F|].
  destruct (S 150%Z eq_refl) as [N [_ Out]].
  split; [exact N|].
  rewrite Out; [reflexivity|]. unfold in_score_range. lia.
Defined.

(** ** Outcome of one enrichment *)

(** X17. [enrich_one] returns [False] exactly when the details request
    yields nothing, and then it has written nothing; the same holds when
    the details request raises.  Any later step that fails leaves the
    writes of the earlier steps in the store. *)
Theorem enrich_one_false_iff_no_details :
  forall (fuel : nat) (max_images : Z) (up : upstream) (conn : db) (gid : Z),
    (fetch_details up gid = Ok None ->
       enrich_one fuel max_images up conn gid = Some (conn, Ok false)) /\
    (forall e, fetch_details up gid = Raise e ->
       enrich_one fuel max_images up conn gid = Some (conn, Raise e)) /\
    (forall conn', enrich_one fuel max_images up conn gid = Some (conn', Ok false) ->
       conn' = conn /\ fetch_details up gid = Ok None).
Proof.
  intros fuel C up conn gid. unfold enrich_one. split; [|split].
  - intros ->. reflexivity.
  - intros e ->. reflexivity.
  - intros conn' E.
    destruct (fetch_details up gid) as [[d|]|e].
    + destruct (fetch_all_screenshots fuel up gid C) as [[images|e]|]; try discriminate E.
      unfold enrich_media in E.
      destruct (fetch_movies up gid); discriminate E.
    + injection E as <-. split; reflexivity.
    + discriminate E.
Qed.

Lemma enrich_one_false_iff_no_details_witness :
  enrich_one 0 50 missing_first db_complete 1 = Some (db_complete, Ok false).
Proof.
  apply (proj1 (enrich_one_false_iff_no_details 0 50 missing_first db_complete 1)).
  reflexivity.
Defined.

(** ** The sweep *)

Lemma sweep_pass_nothing_missing (fuel : nat) (max_images : Z) (up : upstream) (conn : db) :
  forall (ids : list Z) (ok skip : nat),
    (forall g, In g ids -> needs_enrich conn g = false) ->
    sweep_pass fuel max_images up conn ids ok skip = Some (conn, Ok (ok, skip)).
Proof.
  induction ids as [|gid rest IH]; intros ok skip H; [reflexivity|].
  cbn [sweep_pass]. rewrite (H gid (or_introl eq_refl)).
  apply IH. intros g Hg. apply H. now right.
Qed.

Lemma insert_sorted_in (x g : Z) (l : list Z) :
  In g (insert_sorted x l) -> g = x \/ In g l.
Proof.
  induction l as [|y l IH]; cbn [insert_sorted].
  - intros [<-|[]]. now left.
  - destruct (x <=? y)%Z.
    + intros [<-|H]; [now left|now right].
    + intros [<-|H]; [right; now left|].
      destruct (IH H) as [K|K]; [now left|right; now right].
Qed.

Lemma all_ids_in_db (conn : db) (g : Z) : In g (all_ids conn) -> In g (ids_in_db conn).
Proof.
  unfold all_ids, ids_in_db. induction (map g_id (games conn)) as [|x l IH]; [auto|].
  cbn [fold_right]. intros H. apply insert_sorted_in in H as [->|H]; [now left|].
  right. now apply IH.
Qed.

Lemma mem_Z_in (x : Z) (l : list Z) : In x l -> mem_Z x l = true.
Proof.
  intros H. unfold mem_Z. apply existsb_exists. exists x. split; [exact H|apply Z.eqb_refl].
Qed.

(** X18. A full run of [main] over a store in which no item needs
    enrichment, and with no asset folder for an unknown item, fetches
    nothing: it ends with the store unchanged and all four counters at
    zero, whatever the upstream and with no fuel at all. *)
Theorem main_leaves_complete_store :
  forall (fuel : nat) (max_images : Z) (up : upstream) (conn : db)
         (folder_ids : list Z),
    (forall g, In g folder_ids -> In g (ids_in_db conn)) ->
    (forall g, In g (ids_in_db conn) -> needs_enrich conn g = false) ->
    main fuel max_images up conn folder_ids
    = Some (conn, Ok {| ins_ok := 0; ins_fail := 0; en_ok := 0; en_skip := 0 |}).
Proof.
  intros fuel C up conn folder_ids Hfold Hdone. unfold main.
  assert (E : filter (fun gid => negb (mem_Z gid (ids_in_db conn))) folder_ids = []).
  { induction folder_ids as [|x l IH]; [reflexivity|].
    cbn [filter]. rewrite (mem_Z_in x _ (Hfold x (or_introl eq_refl))). cbn [negb].
    apply IH. intros g Hg. apply Hfold. now right. }
  rewrite E. cbn [insert_pass].
  rewrite sweep_pass_nothing_missing; [reflexivity|].
  intros g Hg. apply Hdone, all_ids_in_db, Hg.
Qed.

Lemma main_leaves_complete_store_witness :
  main 0 50 broken_upstream db_complete [1001%Z]
  = Some (db_complete, Ok {| ins_ok := 0; ins_fail := 0; en_ok := 0; en_skip := 0 |}).
Proof.
  apply main_leaves_complete_store.
  - intros g [<-|[]]. vm_compute. now left.
  - intros g H. vm_compute in H. destruct H as [<-|[]]. vm_compute. reflexivity.
Defined.

(** ** Items that stay incomplete *)

Lemma needs_enrich_without_series (conn : db) (gid : Z) :
  has_no_row (fun r => fst (fst r)) gid (game_series_links conn) \/
  has_no_row (fun r => fst (fst r)) gid (game_additions_links conn) ->
  needs_enrich conn gid = true.
Proof.
  intros H. unfold needs_enrich, needs_enrich_queries.
  destruct (find_game (games conn) gid); [|reflexivity].
  cbn [fst existsb].
  destruct H as [H|H]; apply no_row_iff in H; rewrite H;
    rewrite ?orb_true_r; reflexivity.
Qed.

Lemma enrich_one_links (fuel : nat) (max_images : Z) (up : upstream)
    (conn conn' : db) (gid : Z) (r : result bool) :
  enrich_one fuel max_images up conn gid = Some (conn', r) ->
  (game_series_links conn' = game_series_links conn \/
   game_series_links conn'
   = game_series_links conn ++ related_batch (up_series up gid) gid) /\
  (game_additions_links conn' = game_additions_links conn \/
   game_additions_links conn'
   = game_additions_links conn ++ related_batch (up_additions up gid) gid).
Proof.
  intros E. unfold enrich_one in E.
  destruct (fetch_details up gid) as [[d|]|e].
  - destruct (enrich_core_tables up gid d) as (devs & pubs & tags & gl & pl & sl & H).
    destruct (H conn) as (_ & _ & _ & _ & _ & _ & S & A & _).
    rewrite upsert_related_app in S, A.
    destruct (fetch_all_screenshots fuel up gid max_images) as [[images|e]|];
      [| |discriminate E].
    + destruct (enrich_media_tables up gid images) as (M & L & Sg & _ & _ & _ & K).
      destruct (K (enrich_core up conn gid d)) as (_ & _ & _ & _ & _ & _ & _ & _ & _ & S' & A').
      destruct (enrich_media up (enrich_core up conn gid d) gid images) as [c1 r1].
      injection E as <- <-. cbn [fst] in S', A'.
      split; right; congruence.
    + injection E as <- <-. split; right; assumption.
  - injection E as <- <-. split; now left.
  - injection E as <- <-. split; now left.
Qed.

(** X20. An item that has no series upstream, or no additions, never
    becomes complete.  When the store holds no series row of the item and
    the series request yields no usable entry (or fails), the store that
    [enrich_one] leaves still holds none, and [needs_enrich] still
    answers true for the item; the same holds for the additions. *)
Theorem enrich_one_cannot_complete_without_links :
  forall (fuel : nat) (max_images : Z) (up : upstream) (conn conn' : db)
         (gid : Z) (r : result bool),
    enrich_one fuel max_images up conn gid = Some (conn', r) ->
    (has_no_row (fun r => fst (fst r)) gid (game_series_links conn) ->
     related_batch (up_series up gid) gid = [] ->
     has_no_row (fun r => fst (fst r)) gid (game_series_links conn') /\
     needs_enrich conn' gid = true) /\
    (has_no_row (fun r => fst (fst r)) gid (game_additions_links conn) ->
     related_batch (up_additions up gid) gid = [] ->
     has_no_row (fun r => fst (fst r)) gid (game_additions_links conn') /\
     needs_enrich conn' gid = true).
Proof.
  intros fuel C up conn conn' gid r E.
  destruct (enrich_one_links _ _ _ _ _ _ _ E) as [S A].
  split; intros Hn Hb.
  - assert (K : has_no_row (fun r => fst (fst r)) gid (game_series_links conn')).
    { rewrite Hb, app_nil_r in S. destruct S as [-> | ->]; exact Hn. }
    split; [exact K|]. apply needs_enrich_without_series. now left.
  - assert (K : has_no_row (fun r => fst (fst r)) gid (game_additions_links conn')).
    { rewrite Hb, app_nil_r in A. destruct A as [-> | ->]; exact Hn. }
    split; [exact K|]. apply needs_enrich_without_series. now right.
Qed.

Lemma enrich_one_cannot_complete_without_links_witness :
  has_no_row (fun r => fst (fst r)) 1001 (game_additions_links enriched_once) /\
  needs_enrich enriched_once 1001 = true.
Proof.
  assert (E : enrich_one 5 50 sample_upstream empty_db 1001 = Some (enriched_once, Ok true)).
  { vm_compute. reflexivity. }
  apply (proj2 (enrich_one_cannot_complete_without_links 5 50 sample_upstream empty_db
                  enriched_once 1001 (Ok true) E)).
  - intros r [].
  - reflexivity.
Defined.

(** ** The suggestions step is isolated *)

Lemma without_suggestions_store (conn : db) (gid : Z) (l : list suggestion) :
  without_suggestions (store_suggestions conn gid l) = without_suggestions conn.
Proof.
  rewrite store_suggestions_closed. unfold without_suggestions. now destruct conn.
Qed.

(** X21. What the suggestions endpoint answers, a failure included,
    changes nothing but the suggestion table: two runs of [enrich_one]
    that differ only in the answers of that endpoint end the same way,
    with the same flag or the same exception, and leave stores that agree
    on every other table. *)
Theorem enrich_one_isolates_suggestions :
  forall (fuel : nat) (max_images : Z) (up : upstream)
         (s : Z -> nat -> outcome (page suggested_item)) (conn : db) (gid : Z),
    match enrich_one fuel max_images up conn gid,
          enrich_one fuel max_images (with_suggested up s) conn gid with
    | Some (c1, r1), Some (c2, r2) =>
        r1 = r2 /\ without_suggestions c1 = without_suggestions c2
    | None, None => True
    | _, _ => False
    end.
Proof.
  intros fuel C up s conn gid. unfold enrich_one.
  change (fetch_details (with_suggested up s) gid) with (fetch_details up gid).
  change (fetch_all_screenshots fuel (with_suggested up s) gid C)
    with (fetch_all_screenshots fuel up gid C).
  destruct (fetch_details up gid) as [[d|]|e]; [|split; reflexivity|split; reflexivity].
  change (enrich_core (with_suggested up s) conn gid d) with (enrich_core up conn gid d).
  destruct (fetch_all_screenshots fuel up gid C) as [[images|e]|];
    [|split; reflexivity|exact I].
  unfold enrich_media.
  change (fetch_movies (with_suggested up s) gid) with (fetch_movies up gid).
  destruct (fetch_movies up gid) as [videos|e]; [|split; reflexivity].
  split; [reflexivity|].
  destruct (fetch_suggestions up gid 8), (fetch_suggestions (with_suggested up s) gid 8);
    rewrite ?without_suggestions_store; reflexivity.
Qed.

(** ** Link URLs and names *)

Lemma rstrip_char_no_trailing (c : ascii) (s : string) :
  ends_with c (PyStr.rstrip_char c s) = false.
Proof.
  induction s as [|a s IH]; [reflexivity|].
  cbn [PyStr.rstrip_char].
  destruct (PyStr.rstrip_char c s) as [|b r] eqn:E.
  - destruct (Ascii.eqb a c) eqn:A; [reflexivity|]. cbn. exact A.
  - cbn [ends_with] in *. exact IH.
Qed.

Lemma rstrip_char_games (slug : string) :
  PyStr.rstrip_char "/"%char ("https://rawg.io/games/" ++ slug)%string
  = match PyStr.rstrip_char "/"%char slug with
    | EmptyString => "https://rawg.io/games"
    | r => ("https://rawg.io/games/" ++ r)%string
    end.
Proof.
  cbn [String.append PyStr.rstrip_char].
  destruct (PyStr.rstrip_char "/" slug); reflexivity.
Qed.

Lemma related_rows_member (gid : Z) (l : list related_item) (r : Z * string * string) :
  In r (related_rows gid l) -> fst (fst r) = gid /\ link_url (snd r).
Proof.
  induction l as [|x l IH]; [intros []|].
  cbn [related_rows].
  destruct (rl_name x) as [n|]; [|exact IH].
  destruct (rl_slug x) as [slug|]; [|exact IH].
  destruct (PyStr.truthy n && PyStr.truthy slug); [|exact IH].
  intros [<-|H]; [|exact (IH H)].
  cbn [fst snd]. split; [reflexivity|].
  rewrite rstrip_char_games.
  pose proof (rstrip_char_no_trailing "/"%char slug) as T.
  destruct (PyStr.rstrip_char "/" slug) as [|a p]; [now left|].
  right. exists (String a p). repeat split; [discriminate|exact T].
Qed.

(** X22. Every row that [upsert_links] adds to the series or additions
    table belongs to the item and has a URL that is the games base
    [https://rawg.io/games], or that base followed by a slash and a
    non-empty path without a trailing slash; the rows stored before are
    kept. *)
Theorem upsert_links_url_shape :
  forall (up : upstream) (conn : db) (gid : Z),
    (forall r, In r (game_series_links (upsert_links up conn gid)) ->
       In r (game_series_links conn) \/ (fst (fst r) = gid /\ link_url (snd r))) /\
    (forall r, In r (game_additions_links (upsert_links up conn gid)) ->
       In r (game_additions_links conn) \/ (fst (fst r) = gid /\ link_url (snd r))) /\
    (forall r, In r (game_series_links conn) ->
       In r (game_series_links (upsert_links up conn gid))) /\
    (forall r, In r (game_additions_links conn) ->
       In r (game_additions_links (upsert_links up conn gid))).
Proof.
  intros up conn gid. unfold upsert_links.
  cbn [game_series_links game_additions_links set_series set_additions].
  rewrite !upsert_related_app.
  assert (M : forall serve r, In r (related_batch serve gid) ->
                fst (fst r) = gid /\ link_url (snd r)).
  { intros serve r. unfold related_batch.
    destruct (_rawg_get serve); [apply related_rows_member|intros []]. }
  split; [|split; [|split]].
  - intros r H. apply in_app_or in H as [H|H]; [now left|right].
    exact (M _ r H).
  - intros r H. apply in_app_or in H as [H|H]; [now left|right].
    exact (M _ r H).
  - intros r H. apply in_or_app. now left.
  - intros r H. apply in_or_app. now left.
Qed.

Lemma upsert_links_url_shape_witness :
  game_series_links (upsert_links sample_upstream empty_db 3)
  = [(3, "Sample 2", "https://rawg.io/games/sample-2")%Z] /\
  link_url "https://rawg.io/games/sample-2".
Proof.
  split; [reflexivity|].
  destruct (proj1 (upsert_links_url_shape sample_upstream empty_db 3)
              (3, "Sample 2", "https://rawg.io/games/sample-2")%Z) as [[]|[_ H]].
  - left. reflexivity.
  - exact H.
Defined.

Lemma rstrip_idempotent (s : string) : PyStr.rstrip (PyStr.rstrip s) = PyStr.rstrip s.
Proof.
  induction s as [|a s IH]; [reflexivity|].
  cbn [PyStr.rstrip].
  destruct (PyStr.rstrip s) as [|b r] eqn:E.
  - destruct (PyStr.isspace a) eqn:A; [reflexivity|]. cbn [PyStr.rstrip]. now rewrite A.
  - cbn [PyStr.rstrip] in IH |- *.
    destruct (PyStr.rstrip r) as [|b' r'] eqn:E'.
    + destruct (PyStr.isspace b); [discriminate IH|]. now rewrite IH.
    + now rewrite IH.
Qed.

Lemma lstrip_head (s : string) :
  PyStr.lstrip s = EmptyString \/
  exists a t, PyStr.lstrip s = String a t /\ PyStr.isspace a = false.
Proof.
  induction s as [|a s IH]; [now left|].
  cbn [PyStr.lstrip]. destruct (PyStr.isspace a) eqn:A; [exact IH|].
  right. now exists a, s.
Qed.

Lemma rstrip_keeps_head (a : ascii) (t : string) :
  PyStr.isspace a = false -> exists r, PyStr.rstrip (String a t) = String a r.
Proof.
  intros A. cbn [PyStr.rstrip].
  destruct (PyStr.rstrip t) as [|b r]; [rewrite A|]; eexists; reflexivity.
Qed.

(** [s.strip().strip() == s.strip()] *)
Lemma strip_idempotent (s : string) : PyStr.strip (PyStr.strip s) = PyStr.strip s.
Proof.
  unfold PyStr.strip.
  destruct (lstrip_head s) as [E|[a [t [E A]]]]; rewrite E; [reflexivity|].
  destruct (rstrip_keeps_head a t A) as [r Hr]. rewrite Hr.
  cbn [PyStr.lstrip]. rewrite A, <- Hr. apply rstrip_idempotent.
Qed.

Lemma name_rows_member (gid : Z) (l : list named) (r : Z * string) :
  In r (name_rows gid l) ->
  fst r = gid /\ PyStr.strip (snd r) = snd r /\
  exists raw, In raw (raw_names l) /\ raw <> EmptyString /\ snd r = PyStr.strip raw.
Proof.
  unfold name_rows, raw_names. intros H.
  apply in_map_iff in H as [raw [<- Hin]]. cbn [fst snd].
  split; [reflexivity|]. split; [apply strip_idempotent|].
  exists raw. split; [exact Hin|]. split; [|reflexivity].
  clear -Hin. induction (map nm_name l) as [|o m IH]; [destruct Hin|].
  cbn [truthy_names] in Hin. destruct o as [w|]; [|exact (IH Hin)].
  destruct (PyStr.truthy w) eqn:T; [|exact (IH Hin)].
  destruct Hin as [<-|Hin]; [|exact (IH Hin)].
  unfold PyStr.truthy in T. now apply negb_true_iff, String.eqb_neq in T.
Qed.

(** The no-break space and NEL are trimmed like the ASCII white
    space. *)
Example strip_no_break_space :
  PyStr.strip (String (ascii_of_nat 160)
                 ("Valve" ++ String (ascii_of_nat 133) (String (ascii_of_nat 160) "")))
  = "Valve".
Proof. reflexivity. Qed.

(** X23. For names of code points below 256: every developer, publisher
    and tag row that [upsert_lists] adds belongs to the item and holds
    the trimmed form of a non-empty name of the details, which trimming
    leaves unchanged; the rows stored before are kept. *)
Theorem upsert_lists_stores_trimmed_names :
  forall (conn : db) (gid : Z) (d : details) (r : Z * string),
    (In r (game_developers (upsert_lists conn gid d)) ->
       In r (game_developers conn) \/
       (fst r = gid /\ PyStr.strip (snd r) = snd r /\
        exists raw, In raw (raw_names (d_developers d)) /\ raw <> EmptyString /\
                    snd r = PyStr.strip raw)) /\
    (In r (game_publishers (upsert_lists conn gid d)) ->
       In r (game_publishers conn) \/
       (fst r = gid /\ PyStr.strip (snd r) = snd r /\
        exists raw, In raw (raw_names (d_publishers d)) /\ raw <> EmptyString /\
                    snd r = PyStr.strip raw)) /\
    (In r (game_tags (upsert_lists conn gid d)) ->
       In r (game_tags conn) \/
       (fst r = gid /\ PyStr.strip (snd r) = snd r /\
        exists raw, In raw (raw_names (d_tags d)) /\ raw <> EmptyString /\
                    snd r = PyStr.strip raw)) /\
    (In r (game_developers conn) -> In r (game_developers (upsert_lists conn gid d))) /\
    (In r (game_publishers conn) -> In r (game_publishers (upsert_lists conn gid d))) /\
    (In r (game_tags conn) -> In r (game_tags (upsert_lists conn gid d))).
Proof.
  intros conn gid d r. unfold upsert_lists.
  cbn [game_developers game_publishers game_tags set_lists].
  rewrite !executemany_if_any_eq.
  repeat match goal with |- _ /\ _ => split end;
    intros H;
    first [ now apply executemany_ignore_incl
          | apply executemany_ignore_origin in H as [H|H];
            [now left|right; now apply name_rows_member] ].
Qed.

Lemma upsert_lists_stores_trimmed_names_witness :
  game_developers (upsert_lists empty_db 1001 (rich_details 1001)) = [(1001, "Studio")%Z] /\
  PyStr.strip "Studio" = "Studio".
Proof.
  split; [reflexivity|].
  destruct (upsert_lists_stores_trimmed_names empty_db 1001 (rich_details 1001)
              (1001, "Studio")%Z) as [H _].
  destruct H as [[]|[_ [S _]]]; [left; reflexivity|exact S].
Defined.

(** ** The identifier of the details *)

Lemma upsert_game_core_ids (conn : db) (d : details) (g : Z) :
  In g (ids_in_db (upsert_game_core conn d)) -> In g (ids_in_db conn) \/ g = d_id d.
Proof.
  unfold ids_in_db, upsert_game_core. rewrite games_set_games.
  rewrite update_game_ids by reflexivity.
  unfold insert_or_ignore. destruct (existsb _ (games conn)); [now left|].
  rewrite map_app. intros H. apply in_app_or in H as [H|[H|[]]]; [now left|right].
  now rewrite <- H.
Qed.

Lemma cover_fallback_ids (conn : db) (gid : Z) (images : list image_rec) :
  ids_in_db (cover_fallback_from_images conn gid images) = ids_in_db conn.
Proof.
  unfold ids_in_db, cover_fallback_from_images.
  destruct (find_game (games conn) gid); [|reflexivity].
  destruct (PyStr.truthy _); [reflexivity|].
  destruct images; [reflexivity|].
  rewrite games_set_games. now apply update_game_ids.
Qed.

(** What [enrich_one] does to [games] once the details are fetched:
    the row of [upsert_game_core] and the rows stored before are kept,
    and no identifier is added besides that of the details. *)
Lemma enrich_one_games_from_core (fuel : nat) (max_images : Z) (up : upstream)
    (conn conn' : db) (gid : Z) (d : details) (r : result bool) :
  fetch_details up gid = Ok (Some d) ->
  enrich_one fuel max_images up conn gid = Some (conn', r) ->
  games_kept (games (upsert_game_core conn (normalize_embedded d))) (games conn') /\
  ids_in_db conn' = ids_in_db (upsert_game_core conn (normalize_embedded d)).
Proof.
  intros D E.
  unfold enrich_one in E. rewrite D in E.
  destruct (fetch_all_screenshots fuel up gid max_images) as [[images|e]|] eqn:F;
    [| |discriminate E].
  - pose proof (fetched_images_canonical _ _ _ _ _ F) as Hc.
    pose proof (enrich_media_games up (enrich_core up conn gid d) gid images) as M.
    destruct (enrich_media up (enrich_core up conn gid d) gid images) as [c1 r1].
    injection E as <- <-. cbn [fst] in M. split.
    + rewrite M, <- (enrich_core_games up conn gid d). now apply cover_fallback_kept.
    + unfold ids_in_db at 1. rewrite M.
      fold (ids_in_db (cover_fallback_from_images (enrich_core up conn gid d) gid images)).
      rewrite cover_fallback_ids. unfold ids_in_db. now rewrite enrich_core_games.
  - injection E as <- <-. split.
    + rewrite enrich_core_games. apply games_kept_refl.
    + unfold ids_in_db. now rewrite enrich_core_games.
Qed.

Lemma enrich_one_new_ids (fuel : nat) (max_images : Z) (up : upstream)
    (conn conn' : db) (gid : Z) (d : details) (r : result bool) :
  fetch_details up gid = Ok (Some d) ->
  enrich_one fuel max_images up conn gid = Some (conn', r) ->
  forall g, In g (ids_in_db conn') -> In g (ids_in_db conn) \/ g = d_id d.
Proof.
  intros D E g H.
  destruct (enrich_one_games_from_core _ _ _ _ _ _ _ _ D E) as [_ I].
  rewrite I in H. exact (upsert_game_core_ids _ _ _ H).
Qed.

(** An unknown identifier stays unknown when the details carry another
    one. *)
Lemma enrich_one_unknown_stays (fuel : nat) (max_images : Z) (up : upstream)
    (conn conn' : db) (gid : Z) (d : details) (r : result bool) :
  fetch_details up gid = Ok (Some d) ->
  enrich_one fuel max_images up conn gid = Some (conn', r) ->
  d_id d <> gid -> has_no_row g_id gid (games conn) ->
  find_game (games conn') gid = None.
Proof.
  intros D E Hne Hno.
  destruct (find_game (games conn') gid) as [row|] eqn:F; [|reflexivity].
  apply find_some in F as [Hin Hid]. apply Z.eqb_eq in Hid.
  assert (Hin' : In gid (ids_in_db conn')).
  { unfold ids_in_db. rewrite <- Hid. now apply in_map. }
  destruct (enrich_one_new_ids _ _ _ _ _ _ _ _ D E gid Hin') as [H|H]; [|congruence].
  unfold ids_in_db in H. apply in_map_iff in H as [x [Hx Hx']].
  now destruct (Hno x Hx').
Qed.



(** ** The two normalisers *)

Lemma contains_app_prefix (sub t : string) :
  PyStr.contains sub (sub ++ t) = true.
Proof.
  assert (S : forall p s, PyStr.startswith p (p ++ s) = true).
  { induction p as [|a p IH]; intros s; [reflexivity|].
    cbn. now rewrite Ascii.eqb_refl, IH. }
  destruct sub as [|a sub]; [destruct t; reflexivity|].
  cbn [String.append PyStr.contains].
  change (String a (sub ++ t)) with (String a sub ++ t)%string.
  now rewrite S.
Qed.

(** X25. The normaliser of [fetch_games.py] and the normaliser of the
    enrichment script agree on every URL that contains the media prefix
    and on every URL without [/media/]; on a URL that has [/media/] but
    not the media prefix they differ: the older one moves it to the media
    host, the newer one leaves it alone. *)
Theorem normalizers_agree_on_media_urls :
  (forall u : string,
      PyStr.contains MEDIA_PREFIX u = true ->
      listing_normalize_rawg_image (Some u) = normalize_rawg_image (Some u)) /\
  (forall u : string,
      PyStr.contains "/media/" u = false ->
      listing_normalize_rawg_image (Some u) = Some u /\
      normalize_rawg_image (Some u) = Some u) /\
  (forall u : string,
      PyStr.contains "/media/" u = true -> PyStr.contains MEDIA_PREFIX u = false ->
      normalize_rawg_image (Some u) = Some u /\
      exists t, listing_normalize_rawg_image (Some u) = Some (MEDIA_PREFIX ++ t)%string /\
                (MEDIA_PREFIX ++ t)%string <> u).
Proof.
  split; [|split].
  - intros u H. unfold listing_normalize_rawg_image, normalize_rawg_image.
    rewrite H, (contains_media u H). cbn [negb]. rewrite !orb_false_r.
    destruct (PyStr.truthy u); [|reflexivity]. cbn [negb].
    destruct (PyStr.split_first "/media/" u) as [[b tail]|]; [|reflexivity].
    do 2 f_equal. unfold strip_transform.
    destruct (PyStr.split "/" tail) as [|p0 ps] eqn:S.
    + rewrite <- S. apply (join_split "/"%char).
    + destruct (String.eqb p0 "crop" || String.eqb p0 "resize").
      * destruct (PyStr.index "games" (p0 :: ps)); reflexivity.
      * rewrite <- S. apply (join_split "/"%char).
  - intros u H. unfold listing_normalize_rawg_image, normalize_rawg_image. rewrite H.
    assert (K : PyStr.contains MEDIA_PREFIX u = false).
    { destruct (PyStr.contains MEDIA_PREFIX u) eqn:E; [|reflexivity].
      apply contains_media in E. congruence. }
    rewrite K. cbn [negb]. rewrite !orb_true_r. split; reflexivity.
  - intros u H K. split.
    + unfold normalize_rawg_image. rewrite K. cbn [negb]. now rewrite orb_true_r.
    + unfold listing_normalize_rawg_image. rewrite H.
      assert (T : PyStr.truthy u = true) by (now destruct u).
      rewrite T. cbn [negb orb].
      destruct (PyStr.split_first "/media/" u) as [[b tail]|] eqn:S.
      * eexists. split; [reflexivity|].
        intros E. rewrite <- E in K.
        change "https://media.rawg.io/media/" with MEDIA_PREFIX in K.
        rewrite contains_app_prefix in K. discriminate K.
      * now destruct (contains_split_first "/media/" u H).
Qed.

Lemma normalizers_agree_on_media_urls_witness :
  listing_normalize_rawg_image (Some "https://cdn.example/media/resize/1/-/games/a.jpg")
  = Some "https://media.rawg.io/media/games/a.jpg" /\
  normalize_rawg_image (Some "https://cdn.example/media/resize/1/-/games/a.jpg")
  = Some "https://cdn.example/media/resize/1/-/games/a.jpg".
Proof.
  split; [reflexivity|].
  apply (proj2 (proj2 normalizers_agree_on_media_urls)); reflexivity.
Defined.

(** ** Images on disk *)

Lemma file_exists_read (name : string) (dir : directory) :
  file_exists name dir = false <-> read_file name dir = None.
Proof.
  unfold file_exists, read_file. induction dir as [|f dir IH]; [now split|].
  cbn [existsb find]. destruct (String.eqb (fst f) name); cbn; [split; discriminate|exact IH].
Qed.

Lemma write_file_new (name content : string) (dir : directory) :
  file_exists name dir = false -> write_file name content dir = dir ++ [(name, content)].
Proof.
  intros H. unfold write_file. f_equal.
  unfold file_exists in H. induction dir as [|f dir IH]; [reflexivity|].
  cbn [existsb filter] in *. apply orb_false_iff in H as [Hf Hd].
  rewrite Hf. cbn [negb]. now rewrite (IH Hd).
Qed.

Lemma read_file_app (name : string) (dir extra : directory) :
  read_file name (dir ++ extra)
  = match read_file name dir with
    | Some c => Some c
    | None => read_file name extra
    end.
Proof.
  unfold read_file. induction dir as [|f dir IH]; [reflexivity|].
  cbn [app find]. destruct (String.eqb (fst f) name); [reflexivity|exact IH].
Qed.

(** One step of the loop either leaves the directory alone or adds one
    file that did not exist, named after the index, with what the
    download left. *)
Lemma save_image_cases (fetch : string -> download) (dir : directory)
    (idx : nat) (item : image_rec) :
  save_image fetch dir idx item = dir \/
  exists url content,
    im_image item = Some url /\ file_exists (file_name idx) dir = false /\
    left_by (fetch url) = Some content /\
    save_image fetch dir idx item = dir ++ [(file_name idx, content)].
Proof.
  unfold save_image. destruct (im_image item) as [url|]; [|now left].
  destruct (PyStr.truthy url); [|now left].
  destruct (file_exists (file_name idx) dir) eqn:E; [now left|].
  destruct (left_by (fetch url)) as [content|] eqn:L; [|now left].
  right. exists url, content. repeat split; try assumption.
  now apply write_file_new.
Qed.

Lemma save_images_from_extends (fetch : string -> download) (images : list image_rec) :
  forall (dir : directory) (idx : nat),
    exists extra, save_images_from fetch dir idx images = dir ++ extra.
Proof.
  induction images as [|item rest IH]; intros dir idx.
  - exists []. cbn. now rewrite app_nil_r.
  - cbn [save_images_from].
    destruct (IH (save_image fetch dir idx item) (S idx)) as [extra E]. rewrite E.
    destruct (save_image_cases fetch dir idx item) as [-> | (url & c & _ & _ & _ & ->)].
    + now exists extra.
    + rewrite <- app_assoc. eexists. reflexivity.
Qed.

Lemma save_images_from_provenance (fetch : string -> download) (images : list image_rec) :
  forall (dir : directory) (idx : nat) (name content : string),
    read_file name dir = None ->
    read_file name (save_images_from fetch dir idx images) = Some content ->
    exists k item url,
      nth_error images k = Some item /\ im_image item = Some url /\
      name = file_name (idx + k) /\ left_by (fetch url) = Some content.
Proof.
  induction images as [|item rest IH]; intros dir idx name content Hnone Hsome.
  - cbn in Hsome. congruence.
  - cbn [save_images_from] in Hsome.
    destruct (save_image_cases fetch dir idx item) as [E | (url & c & Hu & Hx & Hl & E)];
      rewrite E in Hsome.
    + destruct (IH _ _ _ _ Hnone Hsome) as (k & it & u & A & B & C & D).
      exists (S k), it, u. repeat split; try assumption.
      now replace (idx + S k)%nat with (S idx + k)%nat by lia.
    + destruct (String.eqb (file_name idx) name) eqn:N.
      * apply String.eqb_eq in N. subst name.
        destruct (save_images_from_extends fetch rest (dir ++ [(file_name idx, c)]) (S idx))
          as [extra X].
        rewrite X, <- app_assoc, read_file_app, Hnone in Hsome.
        cbn [app] in Hsome. unfold read_file in Hsome. cbn [find fst] in Hsome.
        rewrite String.eqb_refl in Hsome. cbn in Hsome. injection Hsome as <-.
        exists 0%nat, item, url. rewrite Nat.add_0_r. repeat split; assumption.
      * assert (Hnone' : read_file name (dir ++ [(file_name idx, c)]) = None).
        { rewrite read_file_app, Hnone. unfold read_file. cbn [find fst]. now rewrite N. }
        destruct (IH _ _ _ _ Hnone' Hsome) as (k & it & u & A & B & C & D).
        exists (S k), it, u. repeat split; try assumption.
        now replace (idx + S k)%nat with (S idx + k)%nat by lia.
Qed.

Lemma left_by_empty (d : download) :
  left_by d = Some EmptyString ->
  exists chunks, d = Streamed chunks true /\ written chunks = EmptyString.
Proof.
  destruct d as [|chunks [|]]; cbn; [discriminate| |].
  - intros H. injection H as H. now exists chunks.
  - destruct (String.eqb (written chunks) "") eqn:E; [discriminate|].
    intros H. injection H as H. rewrite H in E. discriminate E.
Qed.

(** X26. [save_images_to_disk] never overwrites, truncates or removes a
    file that is already in the item's directory, whatever the downloads
    do; a file left short by a broken download is therefore never
    repaired by a later run. *)
Theorem save_images_to_disk_keeps_files :
  forall (fetch : string -> download) (dir : directory) (images : list image_rec)
         (name content : string),
    read_file name dir = Some content ->
    read_file name (save_images_to_disk fetch dir images) = Some content.
Proof.
  intros fetch dir images name content H. unfold save_images_to_disk.
  destruct (save_images_from_extends fetch images dir 1) as [extra ->].
  now rewrite read_file_app, H.
Qed.

Lemma save_images_to_disk_keeps_files_witness :
  read_file "screenshot_002.jpg"
    (save_images_to_disk (fun _ => Streamed ["FULL"] true)
       (save_images_to_disk sample_fetch [] sample_images) sample_images)
  = Some "JP".
Proof.
  apply save_images_to_disk_keeps_files. reflexivity.
Defined.

(** X27. A file that [save_images_to_disk] creates is named after the
    1-based index of an image of the list, [cover.jpg] for the first and
    [screenshot_NNN.jpg] with the index less one for the others, and
    holds what the download of that image's URL delivered.  It is empty
    only when that download ended normally without data: a stream that
    breaks before the first byte leaves no file. *)
Theorem save_images_to_disk_creates :
  forall (fetch : string -> download) (dir : directory) (images : list image_rec)
         (name content : string),
    read_file name dir = None ->
    read_file name (save_images_to_disk fetch dir images) = Some content ->
    exists k item url,
      nth_error images k = Some item /\ im_image item = Some url /\
      name = file_name (S k) /\ left_by (fetch url) = Some content /\
      (content = EmptyString ->
       exists chunks, fetch url = Streamed chunks true /\ written chunks = EmptyString).
Proof.
  intros fetch dir images name content Hnone Hsome.
  destruct (save_images_from_provenance fetch images dir 1 name content Hnone Hsome)
    as (k & item & url & A & B & C & D).
  exists k, item, url. repeat split; try assumption.
  intros ->. now apply left_by_empty.
Qed.

Lemma save_images_to_disk_creates_witness :
  save_images_to_disk sample_fetch [] sample_images
  = [("cover.jpg", "JPEGDATA"); ("screenshot_002.jpg", "JP")] /\
  exists k item url,
    nth_error sample_images k = Some item /\ im_image item = Some url /\
    "screenshot_002.jpg" = file_name (S k) /\ left_by (sample_fetch url) = Some "JP".
Proof.
  split; [reflexivity|].
  destruct (save_images_to_disk_creates sample_fetch [] sample_images
              "screenshot_002.jpg" "JP" eq_refl eq_refl)
    as (k & item & url & A & B & C & D & _).
  now exists k, item, url.
Defined.

Lemma save_image_settled_later (fetch : string -> download) (dir extra : directory)
    (idx : nat) (item : image_rec) :
  save_image fetch dir idx item = dir ->
  save_image fetch (dir ++ extra) idx item = dir ++ extra.
Proof.
  unfold save_image. destruct (im_image item) as [url|]; [|reflexivity].
  destruct (PyStr.truthy url); [|reflexivity].
  unfold file_exists. rewrite existsb_app.
  destruct (existsb _ dir) eqn:E; [reflexivity|]. cbn [orb].
  destruct (left_by (fetch url)) as [content|]; [|now destruct (existsb _ extra)].
  intros H. exfalso.
  fold (file_exists (file_name idx) dir) in E.
  rewrite (write_file_new _ _ _ E) in H.
  apply (f_equal (@length _)) in H. rewrite length_app in H. cbn in H. lia.
Qed.

Lemma save_image_settles (fetch : string -> download) (dir : directory)
    (idx : nat) (item : image_rec) :
  save_image fetch (save_image fetch dir idx item) idx item
  = save_image fetch dir idx item.
Proof.
  destruct (save_image_cases fetch dir idx item) as [E | (url & c & Hu & Hx & Hl & E)].
  - now rewrite !E.
  - rewrite E. unfold save_image. rewrite Hu.
    destruct (PyStr.truthy url); [|reflexivity].
    unfold file_exists. rewrite existsb_app. cbn [existsb fst].
    rewrite String.eqb_refl. cbn. now rewrite orb_true_r.
Qed.

Lemma save_images_from_settled (fetch : string -> download) (images : list image_rec) :
  forall (dir : directory) (idx : nat),
    (forall k item, nth_error images k = Some item ->
       save_image fetch dir (idx + k) item = dir) ->
    save_images_from fetch dir idx images = dir.
Proof.
  induction images as [|item rest IH]; intros dir idx H; [reflexivity|].
  cbn [save_images_from].
  pose proof (H 0%nat item eq_refl) as H0. rewrite Nat.add_0_r in H0. rewrite H0.
  apply IH. intros k it Hk.
  replace (S idx + k)%nat with (idx + S k)%nat by lia. now apply H.
Qed.

Lemma save_images_from_all_settled (fetch : string -> download) (images : list image_rec) :
  forall (dir : directory) (idx k : nat) (item : image_rec),
    nth_error images k = Some item ->
    save_image fetch (save_images_from fetch dir idx images) (idx + k) item
    = save_images_from fetch dir idx images.
Proof.
  induction images as [|it rest IH]; intros dir idx k item Hk; [now destruct k|].
  cbn [save_images_from]. destruct k as [|k].
  - cbn in Hk. injection Hk as ->. rewrite Nat.add_0_r.
    destruct (save_images_from_extends fetch rest (save_image fetch dir idx item) (S idx))
      as [extra ->].
    apply save_image_settled_later, save_image_settles.
  - replace (idx + S k)%nat with (S idx + k)%nat by lia. now apply IH.
Qed.

(** X28. Running [save_images_to_disk] again over the same images, with
    downloads that behave the same, changes nothing in the directory:
    the files it made are skipped and the downloads that left no file
    leave none again. *)
Theorem save_images_to_disk_idempotent :
  forall (fetch : string -> download) (dir : directory) (images : list image_rec),
    save_images_to_disk fetch (save_images_to_disk fetch dir images) images
    = save_images_to_disk fetch dir images.
Proof.
  intros fetch dir images. unfold save_images_to_disk.
  apply save_images_from_settled. intros k item Hk.
  now apply save_images_from_all_settled.
Qed.

(** ** The read-back of the single-ID mode *)

Lemma enrich_one_false_no_details (fuel : nat) (max_images : Z) (up : upstream)
    (conn conn' : db) (gid : Z) :
  enrich_one fuel max_images up conn gid = Some (conn', Ok false) ->
  fetch_details up gid = Ok None.
Proof.
  unfold enrich_one. intros E.
  destruct (fetch_details up gid) as [[d|]|e]; [|reflexivity|discriminate E].
  destruct (fetch_all_screenshots fuel up gid max_images) as [[images|e]|];
    try discriminate E.
  unfold enrich_media in E. destruct (fetch_movies up gid); discriminate E.
Qed.

(** A single-ID run keeps the rows of the store it starts on. *)
Lemma main_ids_keeps_rows (fuel : nat) (max_images : Z) (up : upstream)
    (ids : list Z) (conn conn' : db) (printed : list (Z * bool))
    (r : result (list (Z * bool))) (g : Z) (row : game_row) :
  main_ids fuel max_images up conn ids printed = Some (conn', r) ->
  find_game (games conn) g = Some row ->
  exists row', find_game (games conn') g = Some row'.
Proof.
  intros E F.
  destruct (main_ids_invariant _ _ _ _ _ _ _ _ E g row F) as [row' [F' _]].
  now exists row'.
Qed.

(** Every identifier of a single-ID run that ends normally was read
    back, unless its details were not found. *)
Lemma main_ids_read_rows (fuel : nat) (max_images : Z) (up : upstream) :
  forall (ids : list Z) (conn conn' : db) (printed printed' : list (Z * bool))
         (g : Z) (d : details),
    main_ids fuel max_images up conn ids printed = Some (conn', Ok printed') ->
    In g ids -> fetch_details up g = Ok (Some d) ->
    exists row, find_game (games conn') g = Some row.
Proof.
  induction ids as [|gid rest IH]; intros conn conn' printed printed' g d E Hin D;
    [destruct Hin|].
  cbn [main_ids] in E.
  destruct (enrich_one fuel max_images up conn gid) as [[c1 [[|]|e]]|] eqn:F;
    [| | discriminate E|discriminate E].
  - destruct (find_game (games c1) gid) as [row|] eqn:R; [|discriminate E].
    destruct Hin as [<-|Hin].
    + exact (main_ids_keeps_rows _ _ _ _ _ _ _ _ _ _ E R).
    + exact (IH _ _ _ _ _ _ E Hin D).
  - destruct Hin as [<-|Hin].
    + rewrite (enrich_one_false_no_details _ _ _ _ _ _ F) in D. discriminate D.
    + exact (IH _ _ _ _ _ _ E Hin D).
Qed.

(** X19. The read-back of the single-ID mode.  When a single-ID run
    ends normally, every identifier of the run whose details the
    upstream serves has a row in [games] under that very identifier.
    When the details of an unknown identifier carry another identifier,
    the run cannot end so: it ends at the read-back with [TypeError], in
    the store [enrich_one] left, where the item of the details has its
    row, and the identifiers after it are not processed. *)
Theorem main_ids_reads_back :
  forall (fuel : nat) (max_images : Z) (up : upstream) (conn : db),
    (forall ids conn' printed g d,
        main_ids fuel max_images up conn ids [] = Some (conn', Ok printed) ->
        In g ids -> fetch_details up g = Ok (Some d) ->
        exists row, find_game (games conn') g = Some row) /\
    (forall gid rest d conn1,
        fetch_details up gid = Ok (Some d) -> d_id d <> gid ->
        has_no_row g_id gid (games conn) ->
        enrich_one fuel max_images up conn gid = Some (conn1, Ok true) ->
        main_ids fuel max_images up conn (gid :: rest) [] = Some (conn1, Raise TypeError) /\
        find_game (games conn1) gid = None /\
        exists row, find_game (games conn1) (d_id d) = Some row).
Proof.
  intros fuel C up conn. split.
  - intros ids conn' printed g d E Hin D.
    exact (main_ids_read_rows _ _ _ _ _ _ _ _ _ _ E Hin D).
  - intros gid rest d conn1 D Hne Hno E.
    pose proof (enrich_one_unknown_stays _ _ _ _ _ _ _ _ D E Hne Hno) as N.
    split; [|split; [exact N|]].
    + cbn [main_ids]. rewrite E. now rewrite N.
    + destruct (enrich_one_games_from_core _ _ _ _ _ _ _ _ D E) as [K _].
      destruct (upsert_game_core_row conn (normalize_embedded d)) as [base [F _]].
      destruct (K _ _ F) as [row [F' _]]. now exists row.
Qed.

Lemma main_ids_reads_back_witness :
  (exists conn1,
      main_ids 5 50 redirected_upstream empty_db [5; 7]%Z [] = Some (conn1, Raise TypeError) /\
      ids_in_db conn1 = [6%Z]) /\
  (exists conn' row,
      main_ids 5 50 missing_first empty_db [2; 1]%Z [] = Some (conn', Ok [(2, true); (1, false)]%Z) /\
      find_game (games conn') 2 = Some row).
Proof.
  split.
  - assert (E : exists conn1,
               enrich_one 5 50 redirected_upstream empty_db 5 = Some (conn1, Ok true) /\
               ids_in_db conn1 = [6%Z]).
    { eexists. split; vm_compute; reflexivity. }
    destruct E as [conn1 [E I]]. exists conn1. split; [|exact I].
    apply (proj2 (main_ids_reads_back 5 50 redirected_upstream empty_db)
             5%Z [7%Z] (rich_details 6) conn1).
    + reflexivity.
    + discriminate.
    + intros x [].
    + exact E.
  - assert (E : exists conn',
               main_ids 5 50 missing_first empty_db [2; 1]%Z []
               = Some (conn', Ok [(2, true); (1, false)]%Z)).
    { eexists. vm_compute. reflexivity. }
    destruct E as [conn' E].
    destruct (proj1 (main_ids_reads_back 5 50 missing_first empty_db)
                [2; 1]%Z conn' _ 2%Z (rich_details 2) E) as [row F].
    + now left.
    + reflexivity.
    + exists conn', row. split; [exact E|exact F].
Defined.
